(** * Whisperrr transcription service: model lifecycle and request coordination

    A shallow embedding of the Python service under [python-service/app]
    ([exceptions.py], [models.py], [config.py], [utils.py],
    [whisper_service.py] and [main.py]) together with the properties of its
    specification.

    Conventions of the embedding.
    - Python [float] is IEEE binary64 and is modelled by Rocq's primitive
      [float]; Python [int] is [Z]; [bytes] is [string], one character per
      byte; [str] is [string] too, one character per code point, which
      covers the texts and names of code points up to U+00FF.
    - A function that may raise returns [result exn A].
    - The service object is a record; a coroutine is cut at its [await]
      points into atomic segments that pass the record explicitly.  Between
      two [await]s nothing else runs (asyncio is cooperative).
    - Whisper, torch, librosa, soundfile, psutil, the clock, the file
      system and the wording of pydantic's validation errors are outside the
      repository: they are the fields of [World].
    - Logging calls do not touch the service object and are omitted. *)

From Stdlib Require Import ZArith List String Ascii Bool Lia Floats.
Import ListNotations.

Set Warnings "-inexact-float".
Set Implicit Arguments.

Local Open Scope string_scope.
Local Open Scope list_scope.

(** ** Results of fallible code *)

Inductive result (E A : Type) : Type :=
| Ok (a : A)
| Raise (e : E).

Arguments Ok {E A} a.
Arguments Raise {E A} e.

Definition bind {E A B} (r : result E A) (k : A -> result E B) : result E B :=
  match r with
  | Ok a => k a
  | Raise e => Raise e
  end.

Notation "x <- r ;; k" := (bind r (fun x => k))
  (at level 61, r at next level, right associativity).

Definition is_ok {E A} (r : result E A) : bool :=
  match r with Ok _ => true | Raise _ => false end.

(** Python truthiness of the values the code tests with [if x:]. *)

Definition truthy_str (s : string) : bool := negb (s =? "").

Definition truthy_ostr (o : option string) : bool :=
  match o with Some s => truthy_str s | None => false end.

Definition truthy_int (n : Z) : bool := negb (n =? 0)%Z.

(** [bool(x)] of a float is [x != 0.0]; NaN is truthy. *)
Definition truthy_float (x : float) : bool := negb (PrimFloat.eqb x 0%float).

Definition ostr_eqb (a b : option string) : bool :=
  match a, b with
  | Some x, Some y => x =? y
  | None, None => true
  | _, _ => false
  end.

(** ** exceptions.py *)

Module Exceptions.

(** Values stored in an exception's [details] dictionary.  [DRoundedMB b]
    stands for the float [round(b / (1024 * 1024), 2)]. *)
Inductive detail : Type :=
| DStr (s : string)
| DInt (n : Z)
| DRoundedMB (bytes : Z)
| DStrList (l : list string).

(** A Python dict in insertion order. *)
Definition details := list (string * detail).

(** The subclasses of [WhisperrrException]. *)
Inductive exn_class : Type :=
| InvalidAudioFormatC
| FileTooLargeC
| ModelNotLoadedC
| TranscriptionFailedC
| ModelLoadFailedC
| AudioProcessingErrorC
| FileSystemErrorC.

Definition exn_class_eqb (a b : exn_class) : bool :=
  match a, b with
  | InvalidAudioFormatC, InvalidAudioFormatC
  | FileTooLargeC, FileTooLargeC
  | ModelNotLoadedC, ModelNotLoadedC
  | TranscriptionFailedC, TranscriptionFailedC
  | ModelLoadFailedC, ModelLoadFailedC
  | AudioProcessingErrorC, AudioProcessingErrorC
  | FileSystemErrorC, FileSystemErrorC => true
  | _, _ => false
  end.

(** What can be raised: one of the service's own exceptions, a pydantic
    [ValidationError] (the model's name, the fields that failed and the text
    pydantic renders for it), or any other Python exception (its type name
    and its [str]). *)
Inductive exn : Type :=
| Whisperrr (cls : exn_class) (message : string)
            (error_code : option string) (dt : details)
| ValidationError (title : string) (fields : list string) (text : string)
| PyException (type_name : string) (msg : string).

Definition kind (e : exn) : option exn_class :=
  match e with
  | Whisperrr c _ _ _ => Some c
  | _ => None
  end.

Definition error_code_of (e : exn) : option string :=
  match e with
  | Whisperrr _ _ c _ => c
  | _ => None
  end.

Definition details_of (e : exn) : details :=
  match e with
  | Whisperrr _ _ _ d => d
  | _ => []
  end.

Fixpoint lookup (k : string) (d : details) : option detail :=
  match d with
  | [] => None
  | (k', v) :: d' => if k =? k' then Some v else lookup k d'
  end.

(** [str(e)].  [WhisperrrException.__init__] passes [message] to
    [Exception.__init__], so [str] is the message.  For a pydantic error it
    is the text pydantic rendered: a headline, then each failing field with
    its message, the value it was given and a link. *)
Definition str (e : exn) : string :=
  match e with
  | Whisperrr _ m _ _ => m
  | ValidationError _ _ text => text
  | PyException _ m => m
  end.

Definition opt_entry (k : string) (v : option string) : details :=
  match v with
  | Some s => if truthy_str s then [(k, DStr s)] else []
  | None => []
  end.

Definition InvalidAudioFormat_message := "Invalid or unsupported audio format".
Definition FileTooLarge_message := "File size exceeds maximum allowed size".
Definition ModelNotLoaded_message := "Whisper model is not loaded".
Definition TranscriptionFailed_message := "Transcription failed".
Definition ModelLoadFailed_message := "Failed to load Whisper model".
Definition AudioProcessingError_message := "Audio processing failed".
Definition FileSystemError_message := "File system operation failed".

Definition InvalidAudioFormat (message : string) (file_format : option string)
           (supported_formats : option (list string)) : exn :=
  Whisperrr InvalidAudioFormatC message (Some "INVALID_AUDIO_FORMAT")
    (opt_entry "provided_format" file_format ++
     match supported_formats with
     | Some ((_ :: _) as l) => [("supported_formats", DStrList l)]
     | _ => []
     end).

Definition FileTooLarge (message : string) (file_size max_size : option Z) : exn :=
  Whisperrr FileTooLargeC message (Some "FILE_TOO_LARGE")
    (match file_size with
     | Some n => if truthy_int n
                 then [("file_size_bytes", DInt n); ("file_size_mb", DRoundedMB n)]
                 else []
     | None => []
     end ++
     match max_size with
     | Some n => if truthy_int n
                 then [("max_size_bytes", DInt n); ("max_size_mb", DRoundedMB n)]
                 else []
     | None => []
     end).

Definition ModelNotLoaded (message : string) (model_size : option string) : exn :=
  Whisperrr ModelNotLoadedC message (Some "MODEL_NOT_LOADED")
    (opt_entry "requested_model" model_size).

Definition TranscriptionFailed (message : string)
           (original_error file_path : option string) : exn :=
  Whisperrr TranscriptionFailedC message (Some "TRANSCRIPTION_FAILED")
    (opt_entry "original_error" original_error ++
     opt_entry "file_path" file_path).

Definition ModelLoadFailed (message : string)
           (model_size original_error : option string) : exn :=
  Whisperrr ModelLoadFailedC message (Some "MODEL_LOAD_FAILED")
    (opt_entry "model_size" model_size ++
     opt_entry "original_error" original_error).

Definition AudioProcessingError (message : string)
           (original_error processing_step : option string) : exn :=
  Whisperrr AudioProcessingErrorC message (Some "AUDIO_PROCESSING_ERROR")
    (opt_entry "original_error" original_error ++
     opt_entry "processing_step" processing_step).

Definition FileSystemError (message : string)
           (operation file_path original_error : option string) : exn :=
  Whisperrr FileSystemErrorC message (Some "FILE_SYSTEM_ERROR")
    (opt_entry "operation" operation ++
     opt_entry "file_path" file_path ++
     opt_entry "original_error" original_error).

End Exceptions.

Export Exceptions.

Definition res := result exn.

(** ** models.py *)

Module Models.

Record TranscriptionSegment : Type := mkSegment {
  start_time : float;
  end_time : float;
  text : string;
  confidence : option float
}.

(** [Field(ge=0.0, le=1.0)] on an optional float. *)
Definition unit_interval_ok (c : option float) : bool :=
  match c with
  | None => true
  | Some x => PrimFloat.leb 0 x && PrimFloat.leb x 1
  end.

(** What pydantic is told of a field that failed: its name, the value it
    was given and, when a validator of the model raised, the message of the
    [ValueError]. *)
Inductive pyvalue : Type :=
| PyFloat (x : float)
| PyNone.

Record field_error : Type := mkFieldError {
  fe_loc : string;
  fe_input : pyvalue;
  fe_raised : option string
}.

(** The text of a [ValidationError], from the model's name and its failing
    fields.  Its wording is pydantic's and changes with its version. *)
Definition renderer : Type := string -> list field_error -> string.

(** [validate_end_time(cls, v, values)]: [start_time] is a float here, so
    ["start_time" in values] holds and the test is [v <= start_time]. *)
Definition validate_end_time (v start : float) : res float :=
  if PrimFloat.leb v start
  then Raise (PyException "ValueError" "End time must be after start time")
  else Ok v.

(** [TranscriptionSegment(start_time=..., end_time=..., text=...,
    confidence=...)]: pydantic runs every field and reports the failing
    ones together. *)
Definition TranscriptionSegment_new (render : renderer) (start_ end_ : float)
           (text_ : string) (confidence_ : option float)
  : res TranscriptionSegment :=
  let bad :=
    match validate_end_time end_ start_ with
    | Ok _ => []
    | Raise e => [mkFieldError "end_time" (PyFloat end_) (Some (str e))]
    end ++
    match confidence_ with
    | Some x =>
        if unit_interval_ok confidence_ then []
        else [mkFieldError "confidence" (PyFloat x) None]
    | None => []
    end in
  match bad with
  | [] => Ok (mkSegment start_ end_ text_ confidence_)
  | _ => Raise (ValidationError "TranscriptionSegment" (map fe_loc bad)
                  (render "TranscriptionSegment" bad))
  end.

Record TranscriptionResponse : Type := mkResponse {
  r_text : string;
  r_language : option string;
  r_duration : float;
  r_segments : list TranscriptionSegment;
  r_confidence_score : option float;
  r_model_used : string;
  r_processing_time : float
}.

(** [model_used] is declared [str]; the service passes [self._model_size],
    which is [None] when nothing is loaded. *)
Definition TranscriptionResponse_new (render : renderer) (text_ : string)
           (language_ : option string)
           (duration_ : float) (segments_ : list TranscriptionSegment)
           (confidence_score_ : option float) (model_used_ : option string)
           (processing_time_ : float) : res TranscriptionResponse :=
  let bad :=
    match confidence_score_ with
    | Some x =>
        if unit_interval_ok confidence_score_ then []
        else [mkFieldError "confidence_score" (PyFloat x) None]
    | None => []
    end ++
    match model_used_ with
    | Some _ => []
    | None => [mkFieldError "model_used" PyNone None]
    end in
  match bad, model_used_ with
  | [], Some m =>
      Ok (mkResponse text_ language_ duration_ segments_ confidence_score_
                     m processing_time_)
  | _, _ => Raise (ValidationError "TranscriptionResponse" (map fe_loc bad)
                     (render "TranscriptionResponse" bad))
  end.

Record ModelInfoResponse : Type := mkModelInfo {
  mi_model_size : string;
  mi_memory_usage_mb : float;
  mi_load_time_seconds : float;
  mi_supported_languages : list string;
  mi_is_loaded : bool;
  mi_last_loaded : option float
}.

End Models.

Export Models.

(** ** config.py *)

Module Config.

Record Settings : Type := mkSettings {
  model_size : string;
  max_file_size_mb : Z;
  upload_dir : string;
  max_concurrent_transcriptions : Z;
  cleanup_temp_files : bool;
  supported_formats : list string;
  available_model_sizes : list string
}.

Definition max_file_size_bytes (s : Settings) : Z :=
  (max_file_size_mb s * 1024 * 1024)%Z.

(** [supported_formats_set] is used for membership only. *)
Definition supported_formats_set (s : Settings) : list string :=
  supported_formats s.

(** The field defaults of [class Settings]. *)
Definition default_settings : Settings :=
  {| model_size := "base";
     max_file_size_mb := 25;
     upload_dir := "/tmp/whisperrr_uploads";
     max_concurrent_transcriptions := 3;
     cleanup_temp_files := true;
     supported_formats := ["mp3"; "wav"; "m4a"; "flac"; "ogg"; "wma"];
     available_model_sizes := ["tiny"; "base"; "small"; "medium"; "large"] |}.

End Config.

(** ** The collaborators outside the repository *)

(** The object [whisper.load_model] returns. *)
Inductive ModelHandle : Type := Handle (id : nat).

Record RawSegment : Type := mkRaw {
  raw_start : option float;        (* segment.get("start") *)
  raw_end : option float;          (* segment.get("end") *)
  raw_text : option string;        (* segment.get("text") *)
  raw_avg_logprob : option float   (* segment.get("avg_logprob") *)
}.

(** The dict [model.transcribe] returns; [None] is an absent key. *)
Record WhisperResult : Type := mkWhisperResult {
  wr_text : option string;
  wr_language : option string;
  wr_segments : option (list RawSegment)
}.

(** The keyword arguments [_transcribe_sync] builds. *)
Record TranscribeOptions : Type := mkOptions {
  opt_temperature : float;
  opt_task : string;
  opt_language : option string
}.

Record World : Type := mkWorld {
  os_path_exists : string -> bool;
  os_path_getsize : string -> res Z;
  (** [open(path, 'rb').read(n)] *)
  open_read : string -> nat -> res string;
  os_makedirs : string -> res unit;
  uuid4 : string;
  librosa_get_duration : string -> res float;
  librosa_get_samplerate : string -> res Z;
  (** [librosa.load], then [resample] and [normalize] *)
  librosa_load : string -> res unit;
  (** [sf.write] to the given output path *)
  sf_write : string -> res unit;
  (** [get_memory_usage()]: the resident set size psutil reports, in MB *)
  get_memory_usage : float;
  (** the builtin [round(x, ndigits)] *)
  py_round : float -> Z -> float;
  (** the successive readings of [time.time()] *)
  time : nat -> float;
  torch_cuda_is_available : bool;
  whisper_load_model : string -> string -> res ModelHandle;
  model_transcribe : ModelHandle -> string -> TranscribeOptions -> res WhisperResult;
  (** [str] of the [ValidationError] pydantic raises *)
  pydantic_str : renderer
}.

(** ** utils.py *)

Module Utils.

Import Config.

(** *** Strings *)

(** [str.lower()] on one character: the cased letters below U+0100 are
    A-Z, U+00C0-U+00D6 and U+00D8-U+00DE, each 32 below its lower-case
    form; U+00D7 is the multiplication sign. *)
Definition lower_ascii (c : ascii) : ascii :=
  let n := nat_of_ascii c in
  if ((65 <=? n)%nat && (n <=? 90)%nat)
     || ((192 <=? n)%nat && (n <=? 214)%nat)
     || ((216 <=? n)%nat && (n <=? 222)%nat)
  then ascii_of_nat (n + 32) else c.

Fixpoint lower (s : string) : string :=
  match s with
  | EmptyString => EmptyString
  | String c s' => String (lower_ascii c) (lower s')
  end.

(** [s.rfind(c)], [None] for -1. *)
Fixpoint rfind (c : ascii) (s : string) : option nat :=
  match s with
  | EmptyString => None
  | String a s' =>
      match rfind c s' with
      | Some i => Some (S i)
      | None => if Ascii.eqb a c then Some 0%nat else None
      end
  end.

Fixpoint lstrip_char (c : ascii) (s : string) : string :=
  match s with
  | String a s' => if Ascii.eqb a c then lstrip_char c s' else s
  | EmptyString => EmptyString
  end.

(** The characters [str.strip()] removes, those [str.isspace] holds of:
    below U+0100 they are U+0009-U+000D, U+001C-U+0020, U+0085 and
    U+00A0. *)
Definition is_space (c : ascii) : bool :=
  let n := nat_of_ascii c in
  ((9 <=? n)%nat && (n <=? 13)%nat) || ((28 <=? n)%nat && (n <=? 32)%nat)
  || (n =? 133)%nat || (n =? 160)%nat.

Fixpoint lstrip (s : string) : string :=
  match s with
  | String a s' => if is_space a then lstrip s' else s
  | EmptyString => EmptyString
  end.

Fixpoint rstrip (s : string) : string :=
  match s with
  | EmptyString => EmptyString
  | String a s' =>
      match rstrip s' with
      | EmptyString => if is_space a then EmptyString else String a EmptyString
      | t => String a t
      end
  end.

Definition strip (s : string) : string := rstrip (lstrip s).

Fixpoint startswith (p s : string) : bool :=
  match p, s with
  | EmptyString, _ => true
  | String a p', String b s' => Ascii.eqb a b && startswith p' s'
  | String _ _, EmptyString => false
  end.

(** [s[i:j]] for [0 <= i <= j]. *)
Definition slice (i j : nat) (s : string) : string := substring i (j - i) s.

(** The last component of a POSIX path, as [PurePosixPath(p).name]: empty
    and ["."] components are dropped. *)
Fixpoint path_name_aux (cur last : string) (s : string) : string :=
  let close c l := if (c =? "") || (c =? ".") then l else c in
  match s with
  | EmptyString => close cur last
  | String a s' =>
      if Ascii.eqb a "/"%char
      then path_name_aux "" (close cur last) s'
      else path_name_aux (cur ++ String a EmptyString)%string last s'
  end.

Definition path_name (p : string) : string := path_name_aux "" "" p.

(** [PurePath.suffix]: from the last dot of the name, unless that dot is
    the first or the last character. *)
Definition path_suffix (p : string) : string :=
  let name := path_name p in
  match rfind "."%char name with
  | Some i =>
      if (0 <? i)%nat && (i <? String.length name - 1)%nat
      then substring i (String.length name - i) name
      else ""
  | None => ""
  end.

(** *** File helpers *)

Definition get_file_extension (filename : string) : string :=
  lstrip_char "."%char (lower (path_suffix filename)).

Definition validate_file_format (cfg : Settings) (filename : string) : bool :=
  existsb (String.eqb (get_file_extension filename)) (supported_formats_set cfg).

Definition validate_file_size (cfg : Settings) (file_size : Z) : bool :=
  (file_size <=? max_file_size_bytes cfg)%Z.

Definition bytes_of (l : list nat) : string :=
  string_of_list_ascii (map ascii_of_nat l).

(** The branch on the first 12 bytes; [None] is the fall-through. *)
Definition signature_format (header : string) : option string :=
  if startswith "ID3" header || (slice 1 4 header =? "ID3") then Some "mp3"
  else if startswith "RIFF" header && (slice 8 12 header =? "WAVE") then Some "wav"
  else if startswith "OggS" header then Some "ogg"
  else if startswith "fLaC" header then Some "flac"
  else if startswith (bytes_of [0; 0; 0; 32] ++ "ftypM4A")%string header then Some "m4a"
  else if startswith (bytes_of [48; 38; 178; 117]) header then Some "wma"
  else None.

(** The annotation says [Optional[str]]; every path returns a string. *)
Definition detect_audio_format (w : World) (file_path : string) : string :=
  match open_read w file_path 12 with
  | Ok header =>
      match signature_format header with
      | Some f => f
      | None => get_file_extension file_path
      end
  | Raise _ => get_file_extension file_path
  end.

Definition create_temp_file (w : World) (cfg : Settings) (suffix : option string)
  : res (string * string) :=
  let filename : string :=
    if truthy_ostr suffix
    then ("whisperrr_" ++ uuid4 w ++ "." ++
          match suffix with Some s => s | None => "" end)%string
    else ("whisperrr_" ++ uuid4 w)%string in
  (* os.path.join(upload_dir, filename), for a relative [filename] *)
  let dir := upload_dir cfg in
  let file_path : string :=
    if (dir =? "") then filename
    else if (slice (String.length dir - 1) (String.length dir) dir =? "/")
         then (dir ++ filename)%string
         else (dir ++ "/" ++ filename)%string in
  (* os.makedirs(os.path.dirname(file_path)): the upload directory *)
  match os_makedirs w dir with
  | Ok _ => Ok (file_path, filename)
  | Raise e =>
      Raise (FileSystemError "Failed to create temporary file"
               (Some "create_temp_file") None (Some (str e)))
  end.

Record AudioInfo : Type := mkAudioInfo {
  ai_duration : float;
  ai_sample_rate : Z;
  ai_file_size : Z
}.

Definition get_audio_info (w : World) (file_path : string) : res AudioInfo :=
  match
    (duration <- librosa_get_duration w file_path ;;
     sr <- librosa_get_samplerate w file_path ;;
     file_size <- os_path_getsize w file_path ;;
     Ok (mkAudioInfo duration sr file_size))
  with
  | Ok info => Ok info
  | Raise e =>
      Raise (AudioProcessingError "Failed to get audio information"
               (Some (str e)) (Some "get_audio_info"))
  end.

Definition preprocess_audio (w : World) (cfg : Settings) (file_path : string)
  : res string :=
  match
    (_ <- get_audio_info w file_path ;;
     _ <- librosa_load w file_path ;;
     out <- create_temp_file w cfg (Some "wav") ;;
     _ <- sf_write w (fst out) ;;
     Ok (fst out))
  with
  | Ok output_path => Ok output_path
  | Raise e =>
      Raise (AudioProcessingError "Failed to preprocess audio"
               (Some (str e)) (Some "preprocess_audio"))
  end.

(** The dict [validate_audio_file] returns ([file_size_mb] is
    [round(file_size / (1024 * 1024), 2)] of [fi_file_size]). *)
Record FileInfo : Type := mkFileInfo {
  fi_valid : bool;
  fi_format : string;
  fi_file_size : Z;
  fi_duration : float;
  fi_sample_rate : Z
}.

(** The body of the [try] block. *)
Definition validate_audio_file_body (w : World) (cfg : Settings)
           (file_path : string) : res FileInfo :=
  if negb (os_path_exists w file_path)
  then Raise (FileSystemError "File does not exist" None (Some file_path) None)
  else
    file_size <- os_path_getsize w file_path ;;
    if negb (validate_file_size cfg file_size)
    then Raise (FileTooLarge FileTooLarge_message (Some file_size)
                  (Some (max_file_size_bytes cfg)))
    else
      let detected_format := detect_audio_format w file_path in
      if negb (validate_file_format cfg file_path)
      then Raise (InvalidAudioFormat InvalidAudioFormat_message
                    (Some detected_format) (Some (supported_formats cfg)))
      else
        audio_info <- get_audio_info w file_path ;;
        Ok (mkFileInfo true detected_format file_size
              (ai_duration audio_info) (ai_sample_rate audio_info)).

(** [except (InvalidAudioFormat, FileTooLarge, FileSystemError): raise] *)
Definition reraised_as_is (e : exn) : bool :=
  match kind e with
  | Some InvalidAudioFormatC | Some FileTooLargeC | Some FileSystemErrorC => true
  | _ => false
  end.

Definition validate_audio_file (w : World) (cfg : Settings) (file_path : string)
  : res FileInfo :=
  match validate_audio_file_body w cfg file_path with
  | Ok info => Ok info
  | Raise e =>
      if reraised_as_is e then Raise e
      else Raise (AudioProcessingError "Audio file validation failed"
                    (Some (str e)) (Some "validate_audio_file"))
  end.

End Utils.

(** ** whisper_service.py *)

Module Service.

Import Config Utils.

(** The attributes of the singleton [WhisperService].  [_executor] is a
    [ThreadPoolExecutor]; what the service observes of it is whether
    [shutdown] has been called, after which [submit] raises
    [RuntimeError]. *)
Record WhisperService : Type := mkService {
  _model : option ModelHandle;
  _model_size : option string;
  _model_load_time : option float;
  _is_loading : bool;
  _active_transcriptions : Z;
  _start_time : float;
  _executor_shutdown : bool
}.

Definition set_is_loading (b : bool) (s : WhisperService) : WhisperService :=
  mkService (_model s) (_model_size s) (_model_load_time s) b
            (_active_transcriptions s) (_start_time s) (_executor_shutdown s).

Definition set_loaded (h : ModelHandle) (size : string) (t : float)
           (s : WhisperService) : WhisperService :=
  mkService (Some h) (Some size) (Some t) (_is_loading s)
            (_active_transcriptions s) (_start_time s) (_executor_shutdown s).

Definition add_active (d : Z) (s : WhisperService) : WhisperService :=
  mkService (_model s) (_model_size s) (_model_load_time s) (_is_loading s)
            (_active_transcriptions s + d) (_start_time s) (_executor_shutdown s).

Definition shutdown_executor (s : WhisperService) : WhisperService :=
  mkService (_model s) (_model_size s) (_model_load_time s) (_is_loading s)
            (_active_transcriptions s) (_start_time s) true.

Definition clear_model (s : WhisperService) : WhisperService :=
  mkService None None (_model_load_time s) (_is_loading s)
            (_active_transcriptions s) (_start_time s) (_executor_shutdown s).

(** [__init__] *)
Definition init (now : float) : WhisperService :=
  mkService None None None false 0 now false.

Definition _supported_languages : list string :=
  ["en"; "zh"; "de"; "es"; "ru"; "ko"; "fr"; "ja"; "pt"; "tr";
   "pl"; "ca"; "nl"; "ar"; "sv"; "it"; "id"; "hi"; "fi"; "vi";
   "he"; "uk"; "el"; "ms"; "cs"; "ro"; "da"; "hu"; "ta"; "no";
   "th"; "ur"; "hr"; "bg"; "lt"; "la"; "mi"; "ml"; "cy"; "sk";
   "te"; "fa"; "lv"; "bn"; "sr"; "az"; "sl"; "kn"; "et"; "mk";
   "br"; "eu"; "is"; "hy"; "ne"; "mn"; "bs"; "kk"; "sq"; "sw";
   "gl"; "mr"; "pa"; "si"; "km"; "sn"; "yo"; "so"; "af"; "oc";
   "ka"; "be"; "tg"; "sd"; "gu"; "am"; "yi"; "lo"; "uz"; "fo";
   "ht"; "ps"; "tk"; "nn"; "mt"; "sa"; "lb"; "my"; "bo"; "tl";
   "mg"; "as"; "tt"; "haw"; "ln"; "ha"; "ba"; "jw"; "su"].

Definition is_some {A} (o : option A) : bool :=
  match o with Some _ => true | None => false end.

Definition submit_after_shutdown : exn :=
  PyException "RuntimeError" "cannot schedule new futures after shutdown".

(** *** load_model *)

(** The dict [load_model] returns. *)
Record LoadReport : Type := mkLoadReport {
  lr_success : bool;
  lr_model_size : string;
  lr_load_time_seconds : float;
  lr_memory_usage_mb : float;
  lr_message : string
}.

(** Where [load_model] stands when it gives the event loop back. *)
Inductive load_status : Type :=
| LoadReturned (st : WhisperService) (r : res LoadReport)
| LoadAwaiting (st : WhisperService) (size : string) (start_time : float).

Definition load_failure (size : string) (e : exn) : exn :=
  ModelLoadFailed ("Failed to load model " ++ size) (Some size) (Some (str e)).

(** From the entry of [load_model] to its [await]. *)
Definition load_model_begin (w : World) (cfg : Settings) (st : WhisperService)
           (requested : option string) (now : float) : load_status :=
  let size := match requested with Some m => m | None => model_size cfg end in
  if is_some (_model st) && ostr_eqb (_model_size st) (Some size)
     && negb (_is_loading st)
  then LoadReturned st
         (Ok (mkLoadReport true size 0 (get_memory_usage w)
                ("Model " ++ size ++ " already loaded")))
  else if _is_loading st
  then LoadReturned st
         (Raise (ModelLoadFailed "Model is already being loaded" (Some size) None))
  else
    let st1 := set_is_loading true st in
    if _executor_shutdown st1
    then (* [run_in_executor] raises inside the [try] *)
      LoadReturned (set_is_loading false st1)
        (Raise (load_failure size submit_after_shutdown))
    else LoadAwaiting st1 size now.

(** The job handed to the executor. *)
Definition _load_model_sync (w : World) (size : string) : res ModelHandle :=
  let device := if torch_cuda_is_available w then "cuda" else "cpu" in
  whisper_load_model w size device.

(** From the completion of the executor's job to the return, [finally]
    included. *)
Definition load_model_resume (w : World) (st : WhisperService) (size : string)
           (start_time : float) (outcome : res ModelHandle)
           (t_loaded t_done : float) : WhisperService * res LoadReport :=
  match outcome with
  | Ok h =>
      (set_is_loading false (set_loaded h size t_loaded st),
       Ok (mkLoadReport true size
             (py_round w (t_done - start_time)%float 3)
             (get_memory_usage w)
             ("Model " ++ size ++ " loaded successfully")))
  | Raise e =>
      (set_is_loading false st, Raise (load_failure size e))
  end.

(** A call of [load_model] that nothing interleaves with. *)
Definition load_model (w : World) (cfg : Settings) (st : WhisperService)
           (requested : option string) : WhisperService * res LoadReport :=
  match load_model_begin w cfg st requested (time w 0) with
  | LoadReturned st' r => (st', r)
  | LoadAwaiting st' size t0 =>
      load_model_resume w st' size t0 (_load_model_sync w size)
                        (time w 1) (time w 2)
  end.

(** *** _create_transcription_response *)

Definition get_default {A} (o : option A) (d : A) : A :=
  match o with Some a => a | None => d end.

(** What pydantic raises for a segment that fails [validate_end_time]
    only, [end_] being the end it was given. *)
Definition end_time_error (w : World) (end_ : float) : exn :=
  ValidationError "TranscriptionSegment" ["end_time"]
    (pydantic_str w "TranscriptionSegment"
       [mkFieldError "end_time" (PyFloat end_)
                     (Some "End time must be after start time")]).

(** The loop that builds [segments]; the first segment pydantic rejects
    ends it. *)
Fixpoint build_segments (w : World) (raws : list RawSegment)
  : res (list TranscriptionSegment) :=
  match raws with
  | [] => Ok []
  | segment :: rest =>
      s <- TranscriptionSegment_new (pydantic_str w)
             (get_default (raw_start segment) 0%float)
             (get_default (raw_end segment) 0%float)
             (strip (get_default (raw_text segment) ""))
             None ;;
      ss <- build_segments w rest ;;
      Ok (s :: ss)
  end.

(** [seg.get("avg_logprob", 0) for seg in ... if "avg_logprob" in seg] *)
Fixpoint confidences_of (segs : list RawSegment) : list float :=
  match segs with
  | [] => []
  | seg :: rest =>
      match raw_avg_logprob seg with
      | Some _ => get_default (raw_avg_logprob seg) 0%float :: confidences_of rest
      | None => confidences_of rest
      end
  end.

(** The builtins on the values used here.  [sum] starts from the integer
    0 and adds from the left (CPython from 3.12 on compensates the
    rounding errors of the additions); [max(a, b)] keeps [a] unless
    [b > a], and [min(a, b)] keeps [a] unless [b < a]. *)
Definition py_sum (l : list float) : float := fold_left PrimFloat.add l 0%float.

Definition py_len (l : list float) : float :=
  PrimFloat.of_uint63 (Uint63.of_Z (Z.of_nat (List.length l))).

Definition py_max (a b : float) : float := if PrimFloat.ltb a b then b else a.

Definition py_min (a b : float) : float := if PrimFloat.ltb b a then b else a.

(** The computation of [confidence_score]. *)
Definition confidence_score_of (whisper_result : WhisperResult) : option float :=
  match wr_segments whisper_result with
  | Some ((_ :: _) as segs) =>
      let confidences := confidences_of segs in
      match confidences with
      | [] => None
      | _ :: _ =>
          Some (py_max 0 (py_min 1 (py_sum confidences / py_len confidences + 1)))%float
      end
  | _ => None
  end.

Definition _create_transcription_response (w : World) (st : WhisperService)
           (whisper_result : WhisperResult) (file_info : FileInfo)
           (processing_time : float) : res TranscriptionResponse :=
  segments <- build_segments w (get_default (wr_segments whisper_result) []) ;;
  let confidence_score := confidence_score_of whisper_result in
  TranscriptionResponse_new (pydantic_str w)
    (strip (get_default (wr_text whisper_result) ""))
    (wr_language whisper_result)
    (fi_duration file_info)
    segments
    confidence_score
    (_model_size st)
    (py_round w processing_time 3).

(** *** transcribe_audio *)

Record TranscribeArgs : Type := mkArgs {
  file_path : string;
  a_model_size : option string;
  language : option string;
  temperature : float;
  task : string
}.

(** The job handed to the executor; it reads [self._model] when it runs. *)
Definition _transcribe_sync (w : World) (st : WhisperService) (path : string)
           (language_ : option string) (temperature_ : float) (task_ : string)
  : res WhisperResult :=
  let options :=
    mkOptions temperature_ task_
              (if truthy_ostr language_ then language_ else None) in
  match _model st with
  | Some m => model_transcribe w m path options
  | None =>
      Raise (PyException "AttributeError"
               "'NoneType' object has no attribute 'transcribe'")
  end.

(** Where the body of [transcribe_audio] (from the increment of the
    counter on) stands when it gives the event loop back. *)
Inductive body_status : Type :=
| BReturned (st : WhisperService) (r : res TranscriptionResponse)
| BAwaitingInference (st : WhisperService) (file_info : FileInfo)
                     (processed_file : string) (start_time : float).

(** Where [transcribe_audio] stands when it gives the event loop back. *)
Inductive transcribe_status : Type :=
| TBody (b : body_status)
| TAwaitingLoad (st : WhisperService) (size : string) (load_start : float).

(** [except Exception as e: raise TranscriptionFailed(...)] followed by
    [finally: self._active_transcriptions -= 1]. *)
Definition transcription_failed (st : WhisperService) (a : TranscribeArgs)
           (e : exn) : WhisperService * res TranscriptionResponse :=
  (add_active (-1) st,
   Raise (TranscriptionFailed "Transcription failed"
            (Some (str e)) (Some (file_path a)))).

Definition returned (p : WhisperService * res TranscriptionResponse) : body_status :=
  BReturned (fst p) (snd p).

(** From [start_time = time.time()] to the [await] of the inference.  The
    inner [finally] removes the preprocessed file, which changes the file
    system and not the service. *)
Definition transcribe_body (w : World) (cfg : Settings) (st : WhisperService)
           (a : TranscribeArgs) (now : float) : body_status :=
  let st1 := add_active 1 st in
  match validate_audio_file w cfg (file_path a) with
  | Raise e => returned (transcription_failed st1 a e)
  | Ok file_info =>
      match preprocess_audio w cfg (file_path a) with
      | Raise e => returned (transcription_failed st1 a e)
      | Ok processed_file =>
          if _executor_shutdown st1
          then returned (transcription_failed st1 a submit_after_shutdown)
          else BAwaitingInference st1 file_info processed_file now
      end
  end.

(** From the entry of [transcribe_audio] to its first [await]. *)
Definition transcribe_begin (w : World) (cfg : Settings) (st : WhisperService)
           (a : TranscribeArgs) (now : float) : transcribe_status :=
  match _model st with
  | None =>
      TBody (BReturned st
               (Raise (ModelNotLoaded "No model is currently loaded" None)))
  | Some _ =>
      if truthy_ostr (a_model_size a)
         && negb (ostr_eqb (a_model_size a) (_model_size st))
      then
        match load_model_begin w cfg st (a_model_size a) now with
        | LoadReturned st' (Raise e) => TBody (BReturned st' (Raise e))
        | LoadReturned st' (Ok _) => TBody (transcribe_body w cfg st' a now)
        | LoadAwaiting st' size t0 => TAwaitingLoad st' size t0
        end
      else TBody (transcribe_body w cfg st a now)
  end.

(** From the completion of the awaited load to the next [await]. *)
Definition transcribe_after_load (w : World) (cfg : Settings)
           (st : WhisperService) (a : TranscribeArgs) (size : string)
           (load_start : float) (outcome : res ModelHandle)
           (t_loaded t_done now : float) : body_status :=
  match load_model_resume w st size load_start outcome t_loaded t_done with
  | (st', Raise e) => BReturned st' (Raise e)
  | (st', Ok _) => transcribe_body w cfg st' a now
  end.

(** From the completion of the inference to the return. *)
Definition transcribe_finish (w : World) (st : WhisperService)
           (a : TranscribeArgs) (file_info : FileInfo) (start_time : float)
           (outcome : res WhisperResult) (now : float)
  : WhisperService * res TranscriptionResponse :=
  match
    (result <- outcome ;;
     let processing_time := (now - start_time)%float in
     _create_transcription_response w st result file_info processing_time)
  with
  | Ok response => (add_active (-1) st, Ok response)
  | Raise e => transcription_failed st a e
  end.

(** A call of [transcribe_audio] that nothing interleaves with: each
    awaited job runs at once in the world [w]. *)
Definition run_body (w : World) (b : body_status) (a : TranscribeArgs)
  : WhisperService * res TranscriptionResponse :=
  match b with
  | BReturned st r => (st, r)
  | BAwaitingInference st file_info processed_file t0 =>
      transcribe_finish w st a file_info t0
        (_transcribe_sync w st processed_file (language a) (temperature a) (task a))
        (time w 4)
  end.

Definition transcribe_audio (w : World) (cfg : Settings) (st : WhisperService)
           (a : TranscribeArgs) : WhisperService * res TranscriptionResponse :=
  match transcribe_begin w cfg st a (time w 0) with
  | TBody b => run_body w b a
  | TAwaitingLoad st' size t0 =>
      run_body w
        (transcribe_after_load w cfg st' a size t0 (_load_model_sync w size)
           (time w 1) (time w 2) (time w 3)) a
  end.

(** *** get_model_info and the other queries *)

Definition get_model_info (w : World) (st : WhisperService) (now : float)
  : ModelInfoResponse :=
  let loaded_at :=
    match _model_load_time st with
    | Some t => if truthy_float t then Some t else None
    | None => None
    end in
  mkModelInfo
    (match _model_size st with
     | Some size => if truthy_str size then size else "none"
     | None => "none"
     end)
    (get_memory_usage w)
    (match loaded_at with Some t => (now - t)%float | None => 0%float end)
    _supported_languages
    (is_some (_model st))
    loaded_at.

Definition get_active_transcriptions (st : WhisperService) : Z :=
  _active_transcriptions st.

Definition is_model_loaded (st : WhisperService) : bool := is_some (_model st).

Definition get_current_model_size (st : WhisperService) : option string :=
  _model_size st.

(** *** cleanup *)

(** Where [cleanup] stands when it gives the event loop back: asleep in
    [asyncio.sleep(1)] with the loop test still to be made, or returned. *)
Inductive cleanup_status : Type :=
| CleanupSleeping (st : WhisperService) (seconds : Z)
| CleanupReturned (st : WhisperService).

(** What follows the [while] loop: nothing awaits in it. *)
Definition cleanup_release (st : WhisperService) : WhisperService :=
  let st1 := shutdown_executor st in
  if is_some (_model st1) then clear_model st1 else st1.

(** One test of the loop condition, on entry or on waking up. *)
Definition cleanup_poll (st : WhisperService) : cleanup_status :=
  if (_active_transcriptions st >? 0)%Z
  then CleanupSleeping st 1
  else CleanupReturned (cleanup_release st).

(** [cleanup] run against the rest of the program: [others k] is what the
    other coroutines do to the service during the [k]-th sleep.  [None]
    when [fuel] polls were not enough. *)
Fixpoint cleanup (fuel : nat) (others : nat -> WhisperService -> WhisperService)
         (k : nat) (st : WhisperService) : option (WhisperService * nat) :=
  match fuel with
  | O => None
  | S fuel' =>
      match cleanup_poll st with
      | CleanupReturned st' => Some (st', k)
      | CleanupSleeping st' _ => cleanup fuel' others (S k) (others k st')
      end
  end.

(** The service as the [k]-th poll of that run finds it. *)
Fixpoint seen_at_poll (others : nat -> WhisperService -> WhisperService)
         (k : nat) (st : WhisperService) : WhisperService :=
  match k with
  | O => st
  | S k' => others k' (seen_at_poll others k' st)
  end.

End Service.

(** ** The service under concurrent callers

    The event loop runs one atomic segment at a time.  A suspended
    coroutine is a [task]; an [action] is either a new call, which runs up
    to its first [await], or the resumption of a suspended task with the
    outcome of what it awaited.  Every order of resumption and every
    outcome is allowed, which covers whatever the executor does. *)

Module System.

Import Config Utils Service.

Inductive task : Type :=
| LoadTask (size : string) (start_time : float)
| TranscribeLoadTask (a : TranscribeArgs) (size : string) (load_start : float)
| TranscribeInferTask (a : TranscribeArgs) (file_info : FileInfo)
                      (processed_file : string) (start_time : float)
| CleanupTask.

Record system : Type := mkSystem {
  svc : WhisperService;
  tasks : list task
}.

Definition boot (now : float) : system := mkSystem (init now) [].

(** What a resumed coroutine finds: the world of the moment (a load job
    is [_load_model_sync] in that world), the outcome of an inference job
    (it ran in a worker thread at some earlier moment, so any outcome is
    allowed) and the clock readings the segment makes. *)
Record wakeup : Type := mkWakeup {
  wk_world : World;
  wk_cfg : Settings;
  wk_inferred : res WhisperResult;
  wk_t1 : float;
  wk_t2 : float;
  wk_t3 : float
}.

Inductive action : Type :=
| CallLoad (w : World) (cfg : Settings) (requested : option string) (now : float)
| CallTranscribe (w : World) (cfg : Settings) (a : TranscribeArgs) (now : float)
| CallCleanup
| Resume (i : nat) (k : wakeup).

Definition task_of_body (a : TranscribeArgs) (b : body_status)
  : WhisperService * list task :=
  match b with
  | BReturned st _ => (st, [])
  | BAwaitingInference st fi pf t0 => (st, [TranscribeInferTask a fi pf t0])
  end.

Definition resume_task (k : wakeup) (st : WhisperService) (t : task)
  : WhisperService * list task :=
  match t with
  | LoadTask size t0 =>
      (fst (load_model_resume (wk_world k) st size t0
              (_load_model_sync (wk_world k) size) (wk_t1 k) (wk_t2 k)), [])
  | TranscribeLoadTask a size t0 =>
      task_of_body a
        (transcribe_after_load (wk_world k) (wk_cfg k) st a size t0
           (_load_model_sync (wk_world k) size)
           (wk_t1 k) (wk_t2 k) (wk_t3 k))
  | TranscribeInferTask a fi pf t0 =>
      (fst (transcribe_finish (wk_world k) st a fi t0 (wk_inferred k) (wk_t1 k)),
       [])
  | CleanupTask =>
      match cleanup_poll st with
      | CleanupSleeping st' _ => (st', [CleanupTask])
      | CleanupReturned st' => (st', [])
      end
  end.

Definition perform (act : action) (s : system) : system :=
  match act with
  | CallLoad w cfg requested now =>
      match load_model_begin w cfg (svc s) requested now with
      | LoadReturned st' _ => mkSystem st' (tasks s)
      | LoadAwaiting st' size t0 => mkSystem st' (LoadTask size t0 :: tasks s)
      end
  | CallTranscribe w cfg a now =>
      match transcribe_begin w cfg (svc s) a now with
      | TBody b =>
          let (st', ts) := task_of_body a b in mkSystem st' (ts ++ tasks s)
      | TAwaitingLoad st' size t0 =>
          mkSystem st' (TranscribeLoadTask a size t0 :: tasks s)
      end
  | CallCleanup =>
      match cleanup_poll (svc s) with
      | CleanupSleeping st' _ => mkSystem st' (CleanupTask :: tasks s)
      | CleanupReturned st' => mkSystem st' (tasks s)
      end
  | Resume i k =>
      match nth_error (tasks s) i with
      | Some t =>
          let (st', ts) := resume_task k (svc s) t in
          mkSystem st' (firstn i (tasks s) ++ ts ++ skipn (S i) (tasks s))
      | None => s
      end
  end.

Definition run (acts : list action) (s : system) : system :=
  fold_left (fun s act => perform act s) acts s.

Definition reachable (s : system) : Prop :=
  exists now acts, s = run acts (boot now).

Definition awaits_inference (t : task) : bool :=
  match t with TranscribeInferTask _ _ _ _ => true | _ => false end.

Definition awaits_load (t : task) : bool :=
  match t with
  | LoadTask _ _ | TranscribeLoadTask _ _ _ => true
  | _ => false
  end.

Definition count (p : task -> bool) (ts : list task) : Z :=
  Z.of_nat (List.length (filter p ts)).

(** The transcriptions the counter counts: past the increment, before
    the decrement, that is suspended on their inference. *)
Definition counted (s : system) : Z := count awaits_inference (tasks s).

(** The transcriptions in flight: the calls of [transcribe_audio] that
    have not returned, whether they await their inference or, before it, the
    load of the model they asked for. *)
Definition transcribing (t : task) : bool :=
  match t with
  | TranscribeLoadTask _ _ _ | TranscribeInferTask _ _ _ _ => true
  | _ => false
  end.

Definition resolving (t : task) : bool :=
  match t with TranscribeLoadTask _ _ _ => true | _ => false end.

Definition in_flight (s : system) : Z := count transcribing (tasks s).

Definition working (t : task) : bool :=
  match t with CleanupTask => false | _ => true end.

(** The service after [cleanup] has released it with no load in progress:
    only other calls of [cleanup] can be asleep. *)
Definition released (s : system) : Prop :=
  _executor_shutdown (svc s) = true
  /\ _model (svc s) = None
  /\ _is_loading (svc s) = false
  /\ (_active_transcriptions (svc s) <= 0)%Z
  /\ count working (tasks s) = 0%Z.

Definition loads_in_progress (s : system) : Z := count awaits_load (tasks s).

Record consistent (s : system) : Prop := mkConsistent {
  handle_iff_size : is_some (_model (svc s)) = is_some (_model_size (svc s));
  counter_is_counted : _active_transcriptions (svc s) = counted s;
  loading_flag : loads_in_progress s = if _is_loading (svc s) then 1%Z else 0%Z
}.

(** [consistent] through the numbers of suspended tasks only. *)
Definition balanced (st : WhisperService) (inferring loading : Z) : Prop :=
  is_some (_model st) = is_some (_model_size st)
  /\ _active_transcriptions st = inferring
  /\ loading = (if _is_loading st then 1 else 0)%Z.

(** Whisper resolves a name to one of its models or to a checkpoint
    file; the empty name and the name "none" are neither. *)
Definition loads_real_names (w : World) : Prop :=
  forall size device h,
    whisper_load_model w size device = Ok h -> size <> "" /\ size <> "none".

Definition honest (act : action) : Prop :=
  match act with
  | Resume _ k => loads_real_names (wk_world k)
  | _ => True
  end.

Definition recorded_size_real (st : WhisperService) : Prop :=
  forall size, _model_size st = Some size -> size <> "" /\ size <> "none".

End System.

(** ** The result assembler as the specification words it *)

Module ResultAssemblerSpec.

(** "the available per-segment log-probabilities" *)
Definition available_logprobs (raw_segments : list RawSegment) : list float :=
  flat_map (fun seg => match raw_avg_logprob seg with
                       | Some x => [x]
                       | None => []
                       end) raw_segments.

(** The sum of a list: its members added up in their order, the first
    one to begin with. *)
Definition total (l : list float) : float :=
  match l with
  | [] => 0%float
  | x :: rest => fold_left PrimFloat.add rest x
  end.

(** The average of a list: its sum over the number of its members. *)
Definition average (l : list float) : float :=
  (total l
   / PrimFloat.of_uint63 (Uint63.of_Z (Z.of_nat (List.length l))))%float.

(** Two floats that are the same, or both a zero, of whatever sign. *)
Definition is_zero (x : float) : Prop := exists s, Prim2SF x = S754_zero s.

Definition same_up_to_zero (a b : float) : Prop :=
  a = b \/ (is_zero a /\ is_zero b).

(** [clamp(x, lo, hi)]: [x] where it lies strictly between the bounds,
    [lo] where it is below [hi] and not above [lo], and [hi] in every
    other case, so that the result always lies between the bounds. *)
Definition clamp (x lo hi : float) : float :=
  if PrimFloat.ltb x hi
  then (if PrimFloat.ltb lo x then x else lo)
  else hi.

(** "average the available per-segment log-probabilities, map ... via
    clamp(avg_logprob + 1, 0, 1); if no log-probabilities are present,
    confidence is absent" *)
Definition spec_confidence (raw_segments : list RawSegment) : option float :=
  match available_logprobs raw_segments with
  | [] => None
  | l => Some (clamp (average l + 1) 0 1)%float
  end.

End ResultAssemblerSpec.

(** ** A concrete world

    Three files and a Whisper that knows its five model names, used to run
    the definitions on concrete inputs. *)

Module Sample.

Import Config Utils Service System.

Definition nl : string := String (ascii_of_nat 10) "".

(** [repr] of the values these samples give to a model. *)
Definition repr (v : pyvalue) : string :=
  match v with
  | PyNone => "None"
  | PyFloat x =>
      if negb (PrimFloat.eqb x x) then "nan"
      else if PrimFloat.eqb x 0 then "0.0"
      else if PrimFloat.eqb x 0.5 then "0.5"
      else if PrimFloat.eqb x 1 then "1.0"
      else if PrimFloat.eqb x 1.5 then "1.5"
      else "..."
  end.

(** The text of a [ValidationError] as pydantic 2.5 words it: a headline
    and, for each failing field, its name, the message with the kind of
    error and the input, and a link. *)
Definition render_field (e : field_error) : string :=
  let (kind_, message) :=
    match fe_raised e, fe_input e with
    | Some m, _ => ("value_error", ("Value error, " ++ m)%string)
    | None, PyNone => ("string_type", "Input should be a valid string")
    | None, PyFloat x =>
        if PrimFloat.leb 0 x
        then ("less_than_equal", "Input should be less than or equal to 1")
        else ("greater_than_equal",
              "Input should be greater than or equal to 0")
    end in
  (nl ++ fe_loc e ++ nl
   ++ "  " ++ message ++ " [type=" ++ kind_
   ++ ", input_value=" ++ repr (fe_input e)
   ++ ", input_type="
   ++ match fe_input e with PyNone => "NoneType" | PyFloat _ => "float" end
   ++ "]" ++ nl
   ++ "    For further information visit https://errors.pydantic.dev/2.5/v/"
   ++ kind_)%string.

Definition render : renderer := fun title errors =>
  (match errors with
   | [_] => "1 validation error for "
   | _ => "2 validation errors for "
   end ++ title ++ String.concat "" (map render_field errors))%string.

Definition wav_header : string :=
  ("RIFF" ++ bytes_of [36; 8; 0; 0] ++ "WAVE")%string.

Definition sample_result : WhisperResult :=
  mkWhisperResult (Some " hello world ") (Some "en")
    (Some [mkRaw (Some 0%float) (Some 1.5%float) (Some " hello") (Some (-0.1)%float);
           mkRaw (Some 1.5%float) (Some 3%float) (Some " world ") (Some (-0.3)%float)]).

Definition model_id (size : string) : option nat :=
  if size =? "tiny" then Some 0%nat
  else if size =? "base" then Some 1%nat
  else if size =? "small" then Some 2%nat
  else if size =? "medium" then Some 3%nat
  else if size =? "large" then Some 4%nat
  else None.

Definition world_returning (inferred : WhisperResult) : World :=
  {| os_path_exists := fun p =>
       (p =? "/tmp/a.wav") || (p =? "/tmp/big.wav") || (p =? "/tmp/a.doc");
     os_path_getsize := fun p =>
       if (p =? "/tmp/a.wav") || (p =? "/tmp/a.doc") then Ok 2048%Z
       else if p =? "/tmp/big.wav" then Ok (30 * 1024 * 1024)%Z
       else Raise (PyException "FileNotFoundError" "No such file or directory");
     open_read := fun p _ =>
       if (p =? "/tmp/a.wav") || (p =? "/tmp/big.wav") then Ok wav_header
       else Raise (PyException "FileNotFoundError" "No such file or directory");
     os_makedirs := fun _ => Ok tt;
     uuid4 := "00000000-0000-4000-8000-000000000000";
     librosa_get_duration := fun _ => Ok 3%float;
     librosa_get_samplerate := fun _ => Ok 16000%Z;
     librosa_load := fun _ => Ok tt;
     sf_write := fun _ => Ok tt;
     get_memory_usage := 512%float;
     py_round := fun x _ => x;   (* values here need no rounding *)
     time := fun n => PrimFloat.of_uint63 (Uint63.of_Z (Z.of_nat n));
     torch_cuda_is_available := false;
     whisper_load_model := fun size _ =>
       match model_id size with
       | Some n => Ok (Handle n)
       | None => Raise (PyException "RuntimeError" "Model not found")
       end;
     model_transcribe := fun _ _ _ => Ok inferred;
     pydantic_str := render |}.

Definition world : World := world_returning sample_result.

(** An inference whose second segment ends where it starts, and one whose
    segment has neither a start nor an end. *)
Definition backward_result : WhisperResult :=
  mkWhisperResult (Some "hello") (Some "en")
    (Some [mkRaw (Some 0%float) (Some 1.5%float) (Some "hello") None;
           mkRaw (Some 1.5%float) (Some 1.5%float) (Some "") None]).

Definition untimed_result : WhisperResult :=
  mkWhisperResult (Some "hello") (Some "en")
    (Some [mkRaw None None (Some "hello") None]).

(** An inference whose segment ends at NaN. *)
Definition nan_result : WhisperResult :=
  mkWhisperResult (Some "x") (Some "en")
    (Some [mkRaw (Some 1%float) (Some nan) (Some "x") None]).

(** The service just after construction, and with "base" loaded. *)
Definition fresh : WhisperService := init 0%float.

Definition loaded_base : WhisperService :=
  fst (load_model world default_settings fresh (Some "base")).

Definition request (path : string) (size : option string) : TranscribeArgs :=
  mkArgs path size None 0%float "transcribe".

(** A raw segment of one second that carries the log-probability [x]. *)
Definition with_logprob (x : float) : RawSegment :=
  mkRaw (Some 0%float) (Some 1%float) (Some "") (Some x).

(** Resuming the [i]-th suspended task in the sample world. *)
Definition wake (i : nat) : action :=
  Resume i (mkWakeup world default_settings (Ok sample_result)
                     1%float 2%float 3%float).

(** Load "base", start a transcription, call [cleanup] while it runs, let
    the transcription finish, let [cleanup] poll again. *)
Definition session : list action :=
  [CallLoad world default_settings (Some "base") 0%float;
   wake 0;
   CallTranscribe world default_settings (request "/tmp/a.wav" None) 4%float;
   CallCleanup;
   wake 1;
   wake 0].

(** "base" is loaded and a transcription that asks for "small" has been
    accepted: it awaits the load of its model. *)
Definition switching : list action :=
  [CallLoad world default_settings (Some "base") 0%float;
   wake 0;
   CallTranscribe world default_settings (request "/tmp/a.wav" (Some "small"))
                  4%float].

Definition awaiting_switch : system := run switching (boot 0%float).

(** [cleanup] is called in that state and returns; then the load
    completes and the transcription goes on. *)
Definition released_under_switch : system := perform CallCleanup awaiting_switch.

Definition after_switch : system := perform (wake 0) released_under_switch.

(** A Whisper that finds a checkpoint file under the name "none":
    [whisper.load_model] takes the name of a model or the path of a
    checkpoint. *)
Definition checkpoint_world : World :=
  mkWorld (os_path_exists world) (os_path_getsize world) (open_read world)
          (os_makedirs world) (uuid4 world) (librosa_get_duration world)
          (librosa_get_samplerate world) (librosa_load world) (sf_write world)
          (get_memory_usage world) (py_round world) (time world)
          (torch_cuda_is_available world)
          (fun size device =>
             if size =? "none" then Ok (Handle 5)
             else whisper_load_model world size device)
          (model_transcribe world) (pydantic_str world).

(** Loading that checkpoint. *)
Definition checkpoint_session : list action :=
  [CallLoad checkpoint_world default_settings (Some "none") 0%float;
   Resume 0 (mkWakeup checkpoint_world default_settings (Ok sample_result)
                      1%float 2%float 3%float)].

Definition checkpoint_loaded : system := run checkpoint_session (boot 0%float).

(** What the rest of the program does while [cleanup] sleeps: one
    transcription finishes during the first sleep. *)
Definition one_finishes (k : nat) (st : WhisperService) : WhisperService :=
  match k with
  | O => add_active (-1) st
  | S _ => st
  end.

End Sample.

(** ** utils.py: safe_filename *)

Module Filenames.

Definition in_range (lo hi n : nat) : bool := (lo <=? n)%nat && (n <=? hi)%nat.

(** [\w] of a [str] pattern on the code points below 256: digits, letters,
    the underscore, and the Latin-1 letters and numerals. *)
Definition is_word (c : ascii) : bool :=
  let n := nat_of_ascii c in
  in_range 48 57 n || in_range 65 90 n || (n =? 95)%nat || in_range 97 122 n
  || (n =? 170)%nat || in_range 178 179 n || (n =? 181)%nat
  || in_range 185 186 n || in_range 188 190 n || in_range 192 214 n
  || in_range 216 246 n || in_range 248 255 n.

(** The complement of the class [[^\w\-_\.]]. *)
Definition is_safe (c : ascii) : bool :=
  is_word c || Ascii.eqb c "-" || Ascii.eqb c "_" || Ascii.eqb c ".".

(** [re.sub(r'[^\w\-_\.]', '_', s)] *)
Fixpoint sub_unsafe (s : string) : string :=
  match s with
  | EmptyString => EmptyString
  | String c s' => String (if is_safe c then c else "_"%char) (sub_unsafe s')
  end.

(** [re.sub(r'_+', '_', s)]: every run of underscores becomes one. *)
Fixpoint collapse_underscores (s : string) : string :=
  match s with
  | EmptyString => EmptyString
  | String c s' =>
      if Ascii.eqb c "_"
      then match collapse_underscores s' with
           | String d t => if Ascii.eqb d "_" then String d t
                           else String c (String d t)
           | EmptyString => String c EmptyString
           end
      else String c (collapse_underscores s')
  end.

(** [s.strip(chars)] for the set of characters [p]. *)
Fixpoint lstrip_by (p : ascii -> bool) (s : string) : string :=
  match s with
  | String a s' => if p a then lstrip_by p s' else s
  | EmptyString => EmptyString
  end.

Fixpoint rstrip_by (p : ascii -> bool) (s : string) : string :=
  match s with
  | EmptyString => EmptyString
  | String a s' =>
      match rstrip_by p s' with
      | EmptyString => if p a then EmptyString else String a EmptyString
      | t => String a t
      end
  end.

Definition strip_by (p : ascii -> bool) (s : string) : string :=
  rstrip_by p (lstrip_by p s).

Definition underscore_or_dot (c : ascii) : bool :=
  Ascii.eqb c "_" || Ascii.eqb c ".".

Definition safe_filename (filename : string) : string :=
  let safe_name := sub_unsafe filename in
  let safe_name := collapse_underscores safe_name in
  let safe_name := strip_by underscore_or_dot safe_name in
  if truthy_str safe_name then safe_name else "audio_file".

(** [s.split(c)] for a one-character separator. *)
Fixpoint split_on (c : ascii) (s : string) : list string :=
  match s with
  | EmptyString => [EmptyString]
  | String a s' =>
      if Ascii.eqb a c then EmptyString :: split_on c s'
      else match split_on c s' with
           | h :: t => String a h :: t
           | [] => [String a EmptyString]
           end
  end.

(** Every character of [s] satisfies [p]. *)
Fixpoint all_chars (p : ascii -> bool) (s : string) : bool :=
  match s with
  | EmptyString => true
  | String c s' => p c && all_chars p s'
  end.

(** The character [c] does not occur in [s]. *)
Definition no_char (c : ascii) (s : string) : bool :=
  all_chars (fun x => negb (Ascii.eqb x c)) s.

(** No two underscores in a row. *)
Fixpoint no_double_underscore (s : string) : bool :=
  match s with
  | String c (String d _ as s') =>
      negb (Ascii.eqb c "_" && Ascii.eqb d "_") && no_double_underscore s'
  | _ => true
  end.

Definition first_char (s : string) : option ascii :=
  match s with String c _ => Some c | EmptyString => None end.

Fixpoint last_char (s : string) : option ascii :=
  match s with
  | EmptyString => None
  | String c EmptyString => Some c
  | String _ s' => last_char s'
  end.

Definition not_in (p : ascii -> bool) (o : option ascii) : bool :=
  match o with Some c => negb (p c) | None => true end.

(** The names [safe_filename] produces: not empty, made of safe characters,
    without a run of underscores, neither starting nor ending with an
    underscore or a dot. *)
Definition is_safe_name (s : string) : bool :=
  truthy_str s && all_chars is_safe s && no_double_underscore s
  && not_in underscore_or_dot (first_char s)
  && not_in underscore_or_dot (last_char s).

End Filenames.

(** ** exceptions.py and whisper_service.py: closed forms *)

Module Shapes.

Import Service.

(** The [error_code] each subclass passes to [WhisperrrException]. *)
Definition class_code (c : exn_class) : string :=
  match c with
  | InvalidAudioFormatC => "INVALID_AUDIO_FORMAT"
  | FileTooLargeC => "FILE_TOO_LARGE"
  | ModelNotLoadedC => "MODEL_NOT_LOADED"
  | TranscriptionFailedC => "TRANSCRIPTION_FAILED"
  | ModelLoadFailedC => "MODEL_LOAD_FAILED"
  | AudioProcessingErrorC => "AUDIO_PROCESSING_ERROR"
  | FileSystemErrorC => "FILE_SYSTEM_ERROR"
  end.

(** An exception as one of the subclasses builds it. *)
Definition raised_as (c : exn_class) (e : exn) : Prop :=
  kind e = Some c /\ error_code_of e = Some (class_code c).

(** A collaborator outside the repository raises exceptions of its own,
    not the service's. *)
Definition foreign {A} (r : res A) : Prop :=
  forall e, r = Raise e -> kind e = None.

(** What [validate_audio_file] makes of an exception that is not one of the
    three it re-raises. *)
Definition validation_wrapper (cause : exn) : exn :=
  AudioProcessingError "Audio file validation failed" (Some (str cause))
                       (Some "validate_audio_file").

(** A raw segment the validator lets through, and the segment made of it. *)
Definition forward (seg : RawSegment) : bool :=
  negb (PrimFloat.leb (get_default (raw_end seg) 0%float)
                      (get_default (raw_start seg) 0%float)).

(** The raw segment the loop stops at, if any. *)
Definition first_backward (raws : list RawSegment) : option RawSegment :=
  find (fun seg => negb (forward seg)) raws.

Definition to_segment (seg : RawSegment) : TranscriptionSegment :=
  mkSegment (get_default (raw_start seg) 0%float)
            (get_default (raw_end seg) 0%float)
            (Utils.strip (get_default (raw_text seg) ""))
            None.

End Shapes.

(** ** main.py *)

Module Main.

Import Config Utils Service Filenames.

(** The [detail] of an [HTTPException]; the texts are the strings and
    f-strings of main.py, not rendered. *)
Inductive http_detail : Type :=
| NoFileProvided                              (* "No file provided" *)
| FileTooLargeMaximum (max_mb : Z)            (* f"File too large. Maximum size: {max_mb}MB" *)
| TranscriptionFailedDetail                   (* "Transcription failed" *)
| InvalidModelSize (available : list string)  (* f"Invalid model size. Available: {available}" *)
| FailedToLoadModel (cause : string)          (* f"Failed to load model: {cause}" *)
| RequestValidation.                          (* the errors FastAPI lists in a 422 *)

Record HTTPException : Type := mkHTTP {
  status_code : Z;
  detail_of : http_detail
}.

Definition http := result HTTPException.

Definition status_code_map : list (string * Z) :=
  [("INVALID_AUDIO_FORMAT", 400%Z);
   ("FILE_TOO_LARGE", 413%Z);
   ("MODEL_NOT_LOADED", 503%Z);
   ("TRANSCRIPTION_FAILED", 500%Z);
   ("MODEL_LOAD_FAILED", 500%Z);
   ("AUDIO_PROCESSING_ERROR", 400%Z);
   ("FILE_SYSTEM_ERROR", 500%Z)].

(** [d.get(k, default)] with [k] possibly [None] *)
Fixpoint dict_get (d : list (string * Z)) (k : option string) (default : Z) : Z :=
  match d, k with
  | (k', v) :: d', Some key => if key =? k' then v else dict_get d' k default
  | _, _ => default
  end.

(** [ErrorResponse]; [timestamp] is a [datetime], filled in by its default
    factory [datetime.utcnow] with the reading of the clock. *)
Record ErrorResponse : Type := mkErrorResponse {
  er_error_type : string;
  er_message : string;
  er_details : details;
  er_correlation_id : option string;
  er_timestamp : float
}.

(** The values of the dict [ErrorResponse.dict()] returns: the fields as
    they are, the [datetime] still a [datetime]. *)
Inductive pyobject : Type :=
| OStr (s : string)
| ONone
| ODict (d : details)
| ODatetime (t : float).

Definition ErrorResponse_dict (r : ErrorResponse) : list (string * pyobject) :=
  [("error_type", OStr (er_error_type r));
   ("message", OStr (er_message r));
   ("details", ODict (er_details r));
   ("correlation_id",
    match er_correlation_id r with Some c => OStr c | None => ONone end);
   ("timestamp", ODatetime (er_timestamp r))].

(** What [json.dumps] can write. *)
Definition json_serializable (o : pyobject) : bool :=
  match o with
  | ODatetime _ => false
  | _ => true
  end.

Record JSONAnswer : Type := mkJSONAnswer {
  ja_status : Z;
  ja_content : list (string * pyobject)
}.

(** [JSONResponse(status_code=..., content=...)]: the content is rendered
    with [json.dumps] when the response is built. *)
Definition JSONResponse (status_code_ : Z) (content : list (string * pyobject))
  : res JSONAnswer :=
  if forallb (fun kv => json_serializable (snd kv)) content
  then Ok (mkJSONAnswer status_code_ content)
  else Raise (PyException "TypeError"
                "Object of type datetime is not JSON serializable").

(** The [ErrorResponse] the handlers build: [whisperrr_exception_handler]
    for the service's exceptions, [general_exception_handler] for the others
    ([type(exc).__name__] is the type name). *)
Definition error_response_of (correlation_id : option string) (utcnow : float)
           (exc : exn) : ErrorResponse :=
  let general name :=
    mkErrorResponse "INTERNAL_SERVER_ERROR"
      "An internal server error occurred"
      [("exception_type", DStr name)] correlation_id utcnow in
  match exc with
  | Whisperrr _ message error_code dt =>
      mkErrorResponse
        (if truthy_ostr error_code then get_default error_code ""
         else "WHISPERRR_ERROR")
        message dt correlation_id utcnow
  | ValidationError _ _ _ => general "ValidationError"
  | PyException name _ => general name
  end.

(** The status the handlers pass to [JSONResponse]. *)
Definition status_of (exc : exn) : Z :=
  match exc with
  | Whisperrr _ _ error_code _ => dict_get status_code_map error_code 500
  | _ => 500%Z
  end.

(** The two handlers, each on the exceptions it is registered for. *)
Definition exception_handler (correlation_id : option string) (utcnow : float)
           (exc : exn) : res JSONAnswer :=
  JSONResponse (status_of exc)
               (ErrorResponse_dict (error_response_of correlation_id utcnow exc)).

(** What the endpoint reads of the [UploadFile]. *)
Record UploadFile : Type := mkUpload {
  uf_filename : option string;
  uf_size : option Z
}.

(** The temporary file of the endpoint: [NamedTemporaryFile] names it
    [temp_prefix] followed by the suffix asked for; creating it, reading the
    upload and writing it may raise. *)
Record Host : Type := mkHost {
  temp_prefix : string;
  store_upload : res unit
}.

Definition temp_file_path (h : Host) (safe_name : string) : string :=
  (temp_prefix h ++ "." ++ last (split_on "." safe_name) "")%string.

(** The function of [POST /transcribe], which FastAPI calls once the
    request has passed the validation its parameters declare.  The
    temporary file is unlinked on the way out, which changes the file system
    and not the service. *)
Definition transcribe_audio (w : World) (h : Host) (cfg : Settings)
           (st : WhisperService) (file : UploadFile)
           (model_size_ language_ : option string) (temperature_ : float)
           (task_ : string) : WhisperService * http TranscriptionResponse :=
  if negb (truthy_ostr (uf_filename file))
  then (st, Raise (mkHTTP 400 NoFileProvided))
  else
    let safe_name := safe_filename (get_default (uf_filename file) "") in
    if match uf_size file with
       | Some n => truthy_int n && (n >? max_file_size_bytes cfg)%Z
       | None => false
       end
    then (st, Raise (mkHTTP 413 (FileTooLargeMaximum (max_file_size_mb cfg))))
    else
      match store_upload h with
      | Raise _ => (st, Raise (mkHTTP 500 TranscriptionFailedDetail))
      | Ok _ =>
          match Service.transcribe_audio w cfg st
                  (mkArgs (temp_file_path h safe_name) model_size_ language_
                          temperature_ task_) with
          | (st', Ok result) => (st', Ok result)
          | (st', Raise _) => (st', Raise (mkHTTP 500 TranscriptionFailedDetail))
          end
      end.

(** A parameter as it stands in the request: not given, given with what
    FastAPI does not take for a value of the declared type, or given with
    a value.  Whether a part without a file name is an upload is FastAPI's
    matter and is not decided here. *)
Inductive query (A : Type) : Type :=
| Absent
| Malformed
| Given (a : A).

Arguments Absent {A}.
Arguments Malformed {A}.
Arguments Given {A} a.

(** The request of [POST /transcribe], by the parameters the function
    declares: [file = File(...)], [model_size = Query(None)],
    [language = Query(None)], [temperature = Query(0.0, ge=0.0, le=1.0)] and
    [task = Query("transcribe")]. *)
Record TranscribeRequest : Type := mkRequest {
  rq_file : query UploadFile;
  rq_model_size : option string;
  rq_language : option string;
  rq_temperature : query float;
  rq_task : option string
}.

(** The declared default, or the value given when it meets [ge] and
    [le]. *)
Definition validated_temperature (q : query float) : option float :=
  match q with
  | Absent => Some 0%float
  | Malformed => None
  | Given x => if PrimFloat.leb 0 x && PrimFloat.leb x 1 then Some x else None
  end.

(** [POST /transcribe]: FastAPI answers 422 to a request that fails the
    declared validation and calls the function with the others. *)
Definition post_transcribe (w : World) (h : Host) (cfg : Settings)
           (st : WhisperService) (rq : TranscribeRequest)
  : WhisperService * http TranscriptionResponse :=
  match rq_file rq, validated_temperature (rq_temperature rq) with
  | Given file, Some temperature_ =>
      transcribe_audio w h cfg st file (rq_model_size rq) (rq_language rq)
                       temperature_ (get_default (rq_task rq) "transcribe")
  | _, _ => (st, Raise (mkHTTP 422 RequestValidation))
  end.

Record HealthResponse : Type := mkHealth {
  h_status : string;
  h_model_loaded : bool;
  h_model_size : option string;
  h_uptime : float
}.

(** [get_uptime] *)
Definition get_uptime (st : WhisperService) (now : float) : float :=
  (now - _start_time st)%float.

(** [GET /health] *)
Definition health_check (w : World) (st : WhisperService) (now : float)
  : HealthResponse :=
  mkHealth (if is_model_loaded st then "healthy" else "degraded")
           (is_model_loaded st)
           (get_current_model_size st)
           (py_round w (get_uptime st now) 2).

(** The dict [POST /model/load/{model_size}] answers with. *)
Record LoadAnswer : Type := mkLoadAnswer {
  la_success : bool;
  la_model_size : string;
  la_message : string
}.

(** [POST /model/load/{model_size}] *)
Definition load_model (w : World) (cfg : Settings) (st : WhisperService)
           (size : string) : WhisperService * http LoadAnswer :=
  if negb (existsb (String.eqb size) (available_model_sizes cfg))
  then (st, Raise (mkHTTP 400 (InvalidModelSize (available_model_sizes cfg))))
  else
    match Service.load_model w cfg st (Some size) with
    | (st', Ok _) =>
        (st', Ok (mkLoadAnswer true size
                    ("Model " ++ size ++ " loaded successfully")))
    | (st', Raise e) => (st', Raise (mkHTTP 500 (FailedToLoadModel (str e))))
    end.

End Main.

(** ** More concrete inputs *)

Module Cases.

Import Config Service.

(** The sample world with a disk that is full: soundfile cannot write. *)
Definition full_disk : World :=
  let w := Sample.world in
  mkWorld (os_path_exists w) (os_path_getsize w) (open_read w) (os_makedirs w)
          (uuid4 w) (librosa_get_duration w) (librosa_get_samplerate w)
          (librosa_load w)
          (fun _ => Raise (PyException "OSError" "No space left on device"))
          (get_memory_usage w) (py_round w) (time w)
          (torch_cuda_is_available w) (whisper_load_model w)
          (model_transcribe w) (pydantic_str w).

(** The sample world with the temporary copy of an upload named
    "talk.wav". *)
Definition host : Main.Host :=
  Main.mkHost "/tmp/tmpk3x9q2ab" (Ok tt).

Definition with_upload : World :=
  let w := Sample.world in
  mkWorld (fun p => (p =? "/tmp/tmpk3x9q2ab.wav") || os_path_exists w p)
          (fun p => if p =? "/tmp/tmpk3x9q2ab.wav" then Ok 4096%Z
                    else os_path_getsize w p)
          (open_read w) (os_makedirs w)
          (uuid4 w) (librosa_get_duration w) (librosa_get_samplerate w)
          (librosa_load w) (sf_write w)
          (get_memory_usage w) (py_round w) (time w)
          (torch_cuda_is_available w) (whisper_load_model w)
          (model_transcribe w) (pydantic_str w).

(** The sample world where every file starts with an Ogg page header,
    whatever its name says. *)
Definition mislabelled : World :=
  let w := Sample.world in
  mkWorld (os_path_exists w) (os_path_getsize w)
          (fun _ _ => Ok ("OggS" ++ Utils.bytes_of [0; 2; 0; 0; 0; 0; 0; 0])%string)
          (os_makedirs w)
          (uuid4 w) (librosa_get_duration w) (librosa_get_samplerate w)
          (librosa_load w) (sf_write w)
          (get_memory_usage w) (py_round w) (time w)
          (torch_cuda_is_available w) (whisper_load_model w)
          (model_transcribe w) (pydantic_str w).

End Cases.

(** * Properties *)

Import Config Utils Service System.

(** ** Record updates *)

Lemma set_is_loading_same (st : WhisperService) (b : bool) :
  _is_loading st = b -> set_is_loading b st = st.
Proof. destruct st; simpl; intros ->; reflexivity. Qed.

Lemma set_is_loading_twice (st : WhisperService) (b c : bool) :
  set_is_loading b (set_is_loading c st) = set_is_loading b st.
Proof. reflexivity. Qed.

Lemma add_active_cancel (st : WhisperService) :
  add_active (-1) (add_active 1 st) = st.
Proof.
  destruct st; unfold add_active; simpl; f_equal; lia.
Qed.

(** ** The atomic segments, one by one *)

Section Segments.

Variables (w : World) (cfg : Settings).

(** [load_model] leaves the service as it found it whenever it returns
    without awaiting the executor. *)
Lemma load_model_begin_returned st requested now st' r :
  load_model_begin w cfg st requested now = LoadReturned st' r -> st' = st.
Proof.
  unfold load_model_begin.
  destruct (is_some (_model st) && _ && negb (_is_loading st)).
  - intros H; injection H as <- _; reflexivity.
  - destruct (_is_loading st) eqn:L.
    + intros H; injection H as <- _; reflexivity.
    + simpl. destruct (_executor_shutdown st); [|discriminate].
      intros H; injection H as <- _.
      rewrite set_is_loading_twice. now apply set_is_loading_same.
Qed.

Lemma load_model_begin_awaiting st requested now st' size t0 :
  load_model_begin w cfg st requested now = LoadAwaiting st' size t0 ->
  st' = set_is_loading true st /\ _is_loading st = false /\
  _executor_shutdown st = false /\
  size = match requested with Some m => m | None => model_size cfg end.
Proof.
  unfold load_model_begin.
  destruct (is_some (_model st) && _ && negb (_is_loading st)); [discriminate|].
  destruct (_is_loading st); [discriminate|].
  simpl. destruct (_executor_shutdown st); [discriminate|].
  intros H; injection H as <- <- _. auto.
Qed.

Lemma load_model_resume_state st size t0 outcome t1 t2 :
  fst (load_model_resume w st size t0 outcome t1 t2) =
  set_is_loading false
    (match outcome with Ok h => set_loaded h size t1 st | Raise _ => st end).
Proof. destruct outcome; reflexivity. Qed.

(** The body either returns with the counter back where it was, or
    suspends on the inference with the counter one higher. *)
Lemma transcribe_body_state st a now :
  match transcribe_body w cfg st a now with
  | BReturned st' _ => st' = st
  | BAwaitingInference st' _ _ _ => st' = add_active 1 st
  end.
Proof.
  unfold transcribe_body, returned, transcription_failed.
  destruct (validate_audio_file w cfg (file_path a)); simpl;
    [|apply add_active_cancel].
  destruct (preprocess_audio w cfg (file_path a)); simpl;
    [|apply add_active_cancel].
  destruct (_executor_shutdown st); simpl;
    [apply add_active_cancel|reflexivity].
Qed.

(** Whatever the body raises is a [TranscriptionFailed]. *)
Lemma transcribe_body_raises st a now st' e :
  transcribe_body w cfg st a now = BReturned st' (Raise e) ->
  kind e = Some TranscriptionFailedC.
Proof.
  unfold transcribe_body, returned, transcription_failed.
  destruct (validate_audio_file w cfg (file_path a)); simpl.
  - destruct (preprocess_audio w cfg (file_path a)); simpl.
    + destruct (_executor_shutdown st); simpl; [|discriminate].
      intros H; injection H as _ <-; reflexivity.
    + intros H; injection H as _ <-; reflexivity.
  - intros H; injection H as _ <-; reflexivity.
Qed.

Lemma transcribe_finish_state st a fi t0 outcome now :
  fst (transcribe_finish w st a fi t0 outcome now) = add_active (-1) st.
Proof.
  unfold transcribe_finish.
  destruct (bind outcome _); reflexivity.
Qed.

Lemma transcribe_finish_raises st a fi t0 outcome now e :
  snd (transcribe_finish w st a fi t0 outcome now) = Raise e ->
  kind e = Some TranscriptionFailedC.
Proof.
  unfold transcribe_finish.
  destruct (bind outcome _); simpl; [discriminate|].
  intros H; injection H as <-; reflexivity.
Qed.

Lemma run_body_counter b a :
  _active_transcriptions (fst (run_body w b a)) =
  match b with
  | BReturned st _ => _active_transcriptions st
  | BAwaitingInference st _ _ _ => (_active_transcriptions st - 1)%Z
  end.
Proof.
  destruct b; simpl; [reflexivity|].
  rewrite transcribe_finish_state. simpl. lia.
Qed.

Lemma run_body_of_transcribe_body st a now :
  _active_transcriptions (fst (run_body w (transcribe_body w cfg st a now) a)) =
  _active_transcriptions st.
Proof.
  rewrite run_body_counter.
  pose proof (transcribe_body_state st a now) as H.
  destruct (transcribe_body w cfg st a now); subst; simpl; lia.
Qed.

Lemma run_body_raises st a now e :
  snd (run_body w (transcribe_body w cfg st a now) a) = Raise e ->
  kind e = Some TranscriptionFailedC.
Proof.
  destruct (transcribe_body w cfg st a now) eqn:B; simpl.
  - intros ->. eapply transcribe_body_raises; eauto.
  - apply transcribe_finish_raises.
Qed.

Lemma load_model_raises st requested e :
  snd (load_model w cfg st requested) = Raise e ->
  kind e = Some ModelLoadFailedC.
Proof.
  unfold load_model, load_model_begin.
  destruct (is_some (_model st) && _ && negb (_is_loading st)); simpl;
    [discriminate|].
  destruct (_is_loading st); simpl.
  - intros H; injection H as <-; reflexivity.
  - destruct (_executor_shutdown st); simpl.
    + intros H; injection H as <-; reflexivity.
    + unfold load_model_resume. destruct (_load_model_sync w _); simpl;
        [discriminate|].
      intros H; injection H as <-; reflexivity.
Qed.

End Segments.

(** ** The active-request counter across one call *)

Lemma load_model_resume_counter w st size t0 outcome t1 t2 :
  _active_transcriptions (fst (load_model_resume w st size t0 outcome t1 t2)) =
  _active_transcriptions st.
Proof. rewrite load_model_resume_state. destruct outcome; reflexivity. Qed.

Lemma transcribe_after_load_counter w cfg st a size t0 outcome t1 t2 t3 :
  _active_transcriptions
    (fst (run_body w (transcribe_after_load w cfg st a size t0 outcome t1 t2 t3) a)) =
  _active_transcriptions st.
Proof.
  unfold transcribe_after_load.
  pose proof (load_model_resume_counter w st size t0 outcome t1 t2) as C.
  destruct (load_model_resume w st size t0 outcome t1 t2) as [st' [r|e]];
    simpl in *.
  - now rewrite run_body_of_transcribe_body.
  - exact C.
Qed.

Lemma transcribe_audio_unloaded w cfg st a :
  _model st = None ->
  transcribe_audio w cfg st a =
  (st, Raise (ModelNotLoaded "No model is currently loaded" None)).
Proof.
  intros H. unfold transcribe_audio, transcribe_begin. rewrite H. reflexivity.
Qed.

(** C1.  The active-request counter after [transcribe_audio] returns equals
    its value before the call, in every world, that is on the success path
    and on every failure path (validation, preprocessing, inference, response
    assembly, a failed load of the requested model); a call made while no
    model is loaded raises [ModelNotLoaded] and leaves the service, counter
    included, unchanged.  Cut at the awaits: the body gives the loop back
    either returned with the service as it found it or suspended with the
    counter one higher, and the segment after the inference takes exactly
    one off. *)
Theorem transcribe_audio_restores_counter
        (w : World) (cfg : Settings) (st : WhisperService) (a : TranscribeArgs) :
  _active_transcriptions (fst (transcribe_audio w cfg st a)) =
  _active_transcriptions st
  /\ (_model st = None ->
      transcribe_audio w cfg st a =
      (st, Raise (ModelNotLoaded "No model is currently loaded" None))
      /\ kind (ModelNotLoaded "No model is currently loaded" None) =
         Some ModelNotLoadedC)
  /\ (forall now,
         match transcribe_body w cfg st a now with
         | BReturned st' _ => st' = st
         | BAwaitingInference st' _ _ _ => st' = add_active 1 st
         end)
  /\ (forall fi t0 outcome now,
         fst (transcribe_finish w st a fi t0 outcome now) = add_active (-1) st).
Proof.
  split; [|split; [|split]].
  - unfold transcribe_audio, transcribe_begin.
    destruct (_model st); [|reflexivity].
    destruct (truthy_ostr (a_model_size a) && _).
    + destruct (load_model_begin w cfg st (a_model_size a) (time w 0))
        as [st' [r|e]|st' size t0] eqn:B.
      * apply load_model_begin_returned in B as ->.
        apply run_body_of_transcribe_body.
      * apply load_model_begin_returned in B as ->. reflexivity.
      * apply load_model_begin_awaiting in B as (-> & _).
        rewrite transcribe_after_load_counter. reflexivity.
    + apply run_body_of_transcribe_body.
  - intros H. split; [now apply transcribe_audio_unloaded | reflexivity].
  - intros now. apply transcribe_body_state.
  - intros. apply transcribe_finish_state.
Qed.

(** ** Loading while a load is in progress *)

(** C2, as stated, fails: with a load in progress, [load_model] does not
    raise an error of a kind other than [ModelLoadFailed] (there is no
    [ModelBusy] class in [exceptions.py]). *)
Lemma busy_load_is_not_a_distinct_kind :
  ~ (exists st' e,
        load_model_begin Sample.world default_settings
          (set_is_loading true Sample.fresh) (Some "base") 0%float =
        LoadReturned st' (Raise e)
        /\ kind e <> Some ModelLoadFailedC).
Proof.
  intros (st' & e & H & K). vm_compute in H. injection H as _ <-.
  apply K. reflexivity.
Qed.

(** C2, amended.  If [load_model] is called while another load is in
    progress, the call raises [ModelLoadFailed] (code MODEL_LOAD_FAILED) with
    the message "Model is already being loaded" and the requested size, at
    once and without touching the service: the flag of the load in progress
    stays set, and no task is left behind for the second load. *)
Theorem busy_load_raises_ModelLoadFailed
        (w : World) (cfg : Settings) (st : WhisperService)
        (requested : option string) (now : float) :
  _is_loading st = true ->
  let size := match requested with Some m => m | None => model_size cfg end in
  let e := ModelLoadFailed "Model is already being loaded" (Some size) None in
  load_model_begin w cfg st requested now = LoadReturned st (Raise e)
  /\ load_model w cfg st requested = (st, Raise e)
  /\ kind e = Some ModelLoadFailedC
  /\ error_code_of e = Some "MODEL_LOAD_FAILED"
  /\ forall ts, perform (CallLoad w cfg requested now) (mkSystem st ts) =
                mkSystem st ts.
Proof.
  intros L size e.
  assert (B : forall t, load_model_begin w cfg st requested t =
                        LoadReturned st (Raise e)).
  { intros t. unfold load_model_begin. rewrite L.
    rewrite andb_false_r. reflexivity. }
  split; [apply B|]. split.
  - unfold load_model. rewrite B. reflexivity.
  - repeat split. intros ts. unfold perform. simpl. rewrite B. reflexivity.
Qed.

Lemma busy_load_raises_ModelLoadFailed_witness :
  load_model Sample.world default_settings (set_is_loading true Sample.loaded_base)
             (Some "large") =
  (set_is_loading true Sample.loaded_base,
   Raise (ModelLoadFailed "Model is already being loaded" (Some "large") None)).
Proof.
  apply (busy_load_raises_ModelLoadFailed Sample.world default_settings
           (set_is_loading true Sample.loaded_base) (Some "large") 0%float).
  reflexivity.
Defined.

(** ** A load that fails *)

(** What [ModelLoadFailed] carries after a failed attempt. *)
Lemma load_failure_carries size cause :
  kind (load_failure size cause) = Some ModelLoadFailedC
  /\ lookup "model_size" (details_of (load_failure size cause)) =
     (if truthy_str size then Some (DStr size) else None)
  /\ lookup "original_error" (details_of (load_failure size cause)) =
     (if truthy_str (str cause) then Some (DStr (str cause)) else None).
Proof.
  unfold load_failure, ModelLoadFailed, opt_entry, details_of, kind.
  destruct (truthy_str size), (truthy_str (str cause)); repeat split.
Qed.

(** C3, as stated, fails: with "base" loaded, a load of an unknown size
    fails and the service does not go back to Unloaded. *)
Lemma failed_load_does_not_unload :
  ~ (let st' := fst (load_model Sample.world default_settings
                       Sample.loaded_base (Some "huge")) in
     is_ok (snd (load_model Sample.world default_settings
                   Sample.loaded_base (Some "huge"))) = false ->
     _model st' = None /\ _model_size st' = None).
Proof.
  intros H. assert (F : _model Sample.loaded_base = None).
  { apply H. reflexivity. }
  discriminate F.
Qed.

(** C3, amended.  When a load fails, the model handle and the recorded size
    are what they were before the load began: the service is Unloaded if
    nothing was loaded (and then reports not loaded), and the model loaded
    before stays loaded otherwise.  The failure is a [ModelLoadFailed] that
    carries the requested size (when not the empty string); when the load
    was attempted (no other load in progress) the loading flag is cleared
    and the error carries the text of the underlying cause (when not
    empty), the cause being the exception of the loader or the refusal of
    an executor already shut down. *)
Theorem failed_load_keeps_previous_model
        (w : World) (cfg : Settings) (st : WhisperService)
        (requested : option string) (e : exn) :
  snd (load_model w cfg st requested) = Raise e ->
  let st' := fst (load_model w cfg st requested) in
  let size := match requested with Some m => m | None => model_size cfg end in
  _model st' = _model st
  /\ _model_size st' = _model_size st
  /\ kind e = Some ModelLoadFailedC
  /\ lookup "model_size" (details_of e) =
     (if truthy_str size then Some (DStr size) else None)
  /\ (_is_loading st = false ->
      _is_loading st' = false
      /\ exists cause,
          (_load_model_sync w size = Raise cause
           \/ (_executor_shutdown st = true /\ cause = submit_after_shutdown))
          /\ e = load_failure size cause
          /\ lookup "original_error" (details_of e) =
             (if truthy_str (str cause) then Some (DStr (str cause)) else None))
  /\ (_model st = None ->
      forall now, mi_is_loaded (get_model_info w st' now) = false).
Proof.
  intros H st' size.
  assert (M : _model st' = _model st /\ _model_size st' = _model_size st).
  { subst st'. revert H. unfold load_model.
    destruct (load_model_begin w cfg st requested (time w 0))
      as [s1 r|s1 sz t0] eqn:B.
    - apply load_model_begin_returned in B as ->. auto.
    - apply load_model_begin_awaiting in B as (-> & _).
      unfold load_model_resume.
      destruct (_load_model_sync w sz); simpl; [discriminate|auto]. }
  destruct M as [M1 M2].
  split; [exact M1|]. split; [exact M2|].
  split; [eapply load_model_raises; eauto|].
  assert (D : _is_loading st = true /\
              e = ModelLoadFailed "Model is already being loaded" (Some size) None
              \/ _is_loading st = false /\ _is_loading st' = false /\
                 exists cause,
                   (_load_model_sync w size = Raise cause
                    \/ (_executor_shutdown st = true /\
                        cause = submit_after_shutdown))
                   /\ e = load_failure size cause).
  { subst st'. revert H. unfold load_model, load_model_begin. fold size.
    destruct (is_some (_model st) && _ && negb (_is_loading st)); simpl;
      [discriminate|].
    destruct (_is_loading st) eqn:L; simpl.
    - intros H; injection H as <-. left; auto.
    - destruct (_executor_shutdown st) eqn:X; simpl.
      + intros H; injection H as <-. right. repeat split.
        exists submit_after_shutdown. auto.
      + unfold load_model_resume.
        destruct (_load_model_sync w size) as [h|c] eqn:J; simpl;
          [discriminate|].
        intros H; injection H as <-. right. repeat split.
        exists c. auto. }
  split; [|split].
  - destruct D as [[_ ->]|(_ & _ & c & _ & ->)].
    + unfold ModelLoadFailed, opt_entry, details_of.
      destruct (truthy_str size); reflexivity.
    + apply load_failure_carries.
  - intros L. destruct D as [[L' _]|(_ & L' & c & Hc & ->)]; [congruence|].
    split; [exact L'|]. exists c. repeat split; [exact Hc|].
    apply load_failure_carries.
  - intros N now. unfold get_model_info; simpl. now rewrite M1, N.
Qed.

Lemma failed_load_keeps_previous_model_witness :
  _model (fst (load_model Sample.world default_settings
                 Sample.loaded_base (Some "huge"))) =
  _model Sample.loaded_base.
Proof.
  apply (@failed_load_keeps_previous_model Sample.world default_settings
           Sample.loaded_base (Some "huge")
           (load_failure "huge" (PyException "RuntimeError" "Model not found"))).
  reflexivity.
Defined.

(** ** Validation failures inside transcribe_audio *)

(** Every failure of validation comes out of [transcribe_audio]'s body as a
    [TranscriptionFailed] that keeps only the text of the original error. *)
Lemma validation_failure_is_rewrapped w cfg st a now e0 :
  validate_audio_file w cfg (file_path a) = Raise e0 ->
  transcribe_body w cfg st a now =
  BReturned st (Raise (TranscriptionFailed "Transcription failed"
                         (Some (str e0)) (Some (file_path a)))).
Proof.
  intros V. unfold transcribe_body. rewrite V.
  unfold returned, transcription_failed; simpl.
  now rewrite add_active_cancel.
Qed.

(** C4 on the code.  [validate_audio_file] raises [FileTooLarge],
    [InvalidAudioFormat] and [FileSystemError] with their own kinds, and
    [transcribe_audio] hands each of them to its caller as
    [TranscriptionFailed] (code TRANSCRIPTION_FAILED): a file of 30 MB under
    the 25 MB ceiling, a file with an extension outside the supported
    formats, a file that does not exist. *)
Theorem validation_errors_surface_as_TranscriptionFailed :
  let run path :=
    snd (transcribe_audio Sample.world default_settings Sample.loaded_base
           (Sample.request path None)) in
  let validated path :=
    match validate_audio_file Sample.world default_settings path with
    | Ok _ => None
    | Raise e => kind e
    end in
  validated "/tmp/big.wav" = Some FileTooLargeC
  /\ run "/tmp/big.wav" =
     Raise (TranscriptionFailed "Transcription failed"
              (Some "File size exceeds maximum allowed size")
              (Some "/tmp/big.wav"))
  /\ validated "/tmp/notes.txt" = Some FileSystemErrorC
  /\ run "/tmp/notes.txt" =
     Raise (TranscriptionFailed "Transcription failed"
              (Some "File does not exist") (Some "/tmp/notes.txt"))
  /\ validated "/tmp/a.doc" = Some InvalidAudioFormatC
  /\ run "/tmp/a.doc" =
     Raise (TranscriptionFailed "Transcription failed"
              (Some "Invalid or unsupported audio format") (Some "/tmp/a.doc"))
  /\ kind (TranscriptionFailed "Transcription failed"
             (Some "File size exceeds maximum allowed size")
             (Some "/tmp/big.wav")) = Some TranscriptionFailedC.
Proof.
  vm_compute. repeat split.
Qed.

(** ** Resolving the requested model *)

(** C5, as stated, fails: with nothing loaded and [model_size="base"]
    requested, [transcribe_audio] raises [ModelNotLoaded] although loading
    "base" first would have left a model resident. *)
Lemma unloaded_request_is_not_resolved :
  ~ ((exists e,
         snd (transcribe_audio Sample.world default_settings Sample.fresh
                (Sample.request "/tmp/a.wav" (Some "base"))) = Raise e
         /\ kind e = Some ModelNotLoadedC) ->
     _model (fst (load_model Sample.world default_settings Sample.fresh
                    (Some "base"))) = None).
Proof.
  intros H.
  assert (F : _model Sample.loaded_base = None).
  { apply H. eexists. split; reflexivity. }
  discriminate F.
Qed.

(** With a model resident, a non-empty [model_size] that differs from the
    recorded one is loaded first, and the body runs on what the load left. *)
Lemma transcribe_audio_loads_first w cfg st a h :
  _model st = Some h ->
  truthy_ostr (a_model_size a) && negb (ostr_eqb (a_model_size a) (_model_size st))
  = true ->
  transcribe_audio w cfg st a =
  match load_model w cfg st (a_model_size a) with
  | (st', Raise e) => (st', Raise e)
  | (st', Ok _) => run_body w (transcribe_body w cfg st' a (time w 3)) a
  end.
Proof.
  intros M C. unfold transcribe_audio, transcribe_begin, load_model.
  rewrite M, C.
  destruct (load_model_begin w cfg st (a_model_size a) (time w 0))
    as [st' [r|e]|st' size t0] eqn:B.
  - (* the fast path needs the recorded size to be the requested one *)
    exfalso. revert B. unfold load_model_begin.
    destruct (a_model_size a) as [m|]; [|discriminate C].
    simpl in C. apply andb_prop in C as [_ C].
    destruct (ostr_eqb (_model_size st) (Some m)) eqn:E.
    + destruct (_model_size st) as [m'|]; [|discriminate E]. simpl in *.
      rewrite String.eqb_sym, E in C. discriminate C.
    + rewrite andb_false_r. simpl.
      destruct (_is_loading st); [discriminate|].
      simpl. destruct (_executor_shutdown st); discriminate.
  - reflexivity.
  - unfold transcribe_after_load.
    destruct (load_model_resume w st' size t0 (_load_model_sync w size)
                (time w 1) (time w 2)) as [st'' [r|e]]; reflexivity.
Qed.

(** C5, amended.  [transcribe_audio] requires a resident model before it
    resolves the requested size: with no model loaded it raises
    [ModelNotLoaded] at once, whatever [model_size] asks for, and [load] is
    not invoked (the service is unchanged).  With a model loaded and a
    non-empty [model_size] different from the recorded one, it first runs
    [load_model] for that size to completion, re-raising its failure, and
    only then runs the body on the service the load left; otherwise it runs
    the body directly.  [ModelNotLoaded] is raised exactly when no model is
    resident at the call. *)
Theorem transcribe_audio_model_resolution
        (w : World) (cfg : Settings) (st : WhisperService) (a : TranscribeArgs) :
  match _model st with
  | None =>
      transcribe_audio w cfg st a =
      (st, Raise (ModelNotLoaded "No model is currently loaded" None))
  | Some _ =>
      (if truthy_ostr (a_model_size a)
          && negb (ostr_eqb (a_model_size a) (_model_size st))
       then
         transcribe_audio w cfg st a =
         match load_model w cfg st (a_model_size a) with
         | (st', Raise e) => (st', Raise e)
         | (st', Ok _) => run_body w (transcribe_body w cfg st' a (time w 3)) a
         end
       else
         transcribe_audio w cfg st a =
         run_body w (transcribe_body w cfg st a (time w 0)) a)
      /\ forall e, snd (transcribe_audio w cfg st a) = Raise e ->
                   kind e <> Some ModelNotLoadedC
  end.
Proof.
  destruct (_model st) as [h|] eqn:M.
  - assert (R : if truthy_ostr (a_model_size a)
                   && negb (ostr_eqb (a_model_size a) (_model_size st))
                then
                  transcribe_audio w cfg st a =
                  match load_model w cfg st (a_model_size a) with
                  | (st', Raise e) => (st', Raise e)
                  | (st', Ok _) =>
                      run_body w (transcribe_body w cfg st' a (time w 3)) a
                  end
                else
                  transcribe_audio w cfg st a =
                  run_body w (transcribe_body w cfg st a (time w 0)) a).
    { destruct (truthy_ostr (a_model_size a) && _) eqn:C.
      - eapply transcribe_audio_loads_first; eauto.
      - unfold transcribe_audio, transcribe_begin. now rewrite M, C. }
    split; [exact R|].
    intros e He K. revert R.
    destruct (truthy_ostr (a_model_size a) && _); intros R;
      rewrite R in He.
    + destruct (load_model w cfg st (a_model_size a)) as [st' [r|e']] eqn:L.
      * apply run_body_raises in He. congruence.
      * simpl in He. injection He as ->.
        assert (K' : kind e = Some ModelLoadFailedC).
        { apply (@load_model_raises w cfg st (a_model_size a)).
          now rewrite L. }
        congruence.
    + apply run_body_raises in He. congruence.
  - now apply transcribe_audio_unloaded.
Qed.

(** ** Comparisons of binary64 floats *)

Section FloatOrder.

Lemma SFcompare_antisym (a b : spec_float) (c : comparison) :
  SFcompare a b = Some c -> SFcompare b a = Some (CompOpp c).
Proof.
  destruct a as [sa|sa| |sa ma ea], b as [sb|sb| |sb mb eb]; simpl;
    try discriminate; intros H; injection H as <-;
    try (destruct sa; reflexivity); try (destruct sb; reflexivity);
    try (destruct sa, sb; reflexivity).
  f_equal.
  rewrite (Z.compare_antisym ea eb).
  change (PosDef.Pos.compare_cont Eq mb ma) with (Pos.compare mb ma).
  change (PosDef.Pos.compare_cont Eq ma mb) with (Pos.compare ma mb).
  rewrite (Pos.compare_antisym ma mb).
  destruct sa, sb; simpl; try reflexivity;
    destruct (ea ?= eb)%Z; simpl; try reflexivity;
    destruct (ma ?= mb)%positive; reflexivity.
Qed.

(** Two floats that are not NaN compare. *)
Lemma SFcompare_defined (a b : spec_float) :
  SFeqb a a = true -> SFeqb b b = true -> exists c, SFcompare a b = Some c.
Proof.
  unfold SFeqb.
  destruct a, b; simpl; try discriminate; intros _ _; eexists; reflexivity.
Qed.

(** [not (y <= x)] is [x < y] away from NaN. *)
Lemma leb_false_ltb (x y : float) :
  PrimFloat.eqb x x = true -> PrimFloat.eqb y y = true ->
  PrimFloat.leb y x = false -> PrimFloat.ltb x y = true.
Proof.
  rewrite !eqb_spec, leb_spec, ltb_spec. intros Hx Hy.
  destruct (@SFcompare_defined _ _ Hy Hx) as [c Hc].
  unfold SFleb, SFltb. rewrite (@SFcompare_antisym _ _ _ Hc), Hc.
  destruct c; simpl; congruence.
Qed.

Lemma ltb_leb (x y : float) :
  PrimFloat.ltb x y = true -> PrimFloat.leb x y = true.
Proof.
  rewrite leb_spec, ltb_spec. unfold SFleb, SFltb.
  destruct (SFcompare _ _) as [[]|]; congruence.
Qed.

Lemma ltb_leb_false (x y : float) :
  PrimFloat.ltb x y = true -> PrimFloat.leb y x = false.
Proof.
  rewrite leb_spec, ltb_spec. unfold SFleb, SFltb.
  destruct (SFcompare (Prim2SF x) (Prim2SF y)) as [c|] eqn:Hc;
    try discriminate.
  rewrite (@SFcompare_antisym _ _ _ Hc). destruct c; simpl; congruence.
Qed.

Lemma leb_ltb_false (x y : float) :
  PrimFloat.leb x y = true -> PrimFloat.ltb y x = false.
Proof.
  intros H. destruct (PrimFloat.ltb y x) eqn:L; [|reflexivity].
  apply ltb_leb_false in L. congruence.
Qed.

Lemma Prim2SF_zero : Prim2SF 0 = S754_zero false.
Proof. vm_compute. reflexivity. Qed.

Lemma Prim2SF_one : Prim2SF 1 = S754_finite false 4503599627370496 (-52).
Proof. vm_compute. reflexivity. Qed.

(** Below zero is below one. *)
Lemma leb_0_ltb_1 (x : float) :
  PrimFloat.leb x 0 = true -> PrimFloat.ltb x 1 = true.
Proof.
  rewrite leb_spec, ltb_spec, Prim2SF_zero, Prim2SF_one.
  unfold SFleb, SFltb.
  destruct (Prim2SF x) as [s|s| |s m e]; cbn [SFcompare]; try discriminate;
    try reflexivity; destruct s; congruence.
Qed.

End FloatOrder.

(** ** Sums that begin at zero

    Python's [sum] begins at the integer 0, the specification's sum at the
    first member.  The two differ by the sign of a zero at most, which the
    addition of 1 removes. *)

Section FloatZeros.

Import ResultAssemblerSpec.

Lemma add_zeros a b y :
  is_zero a -> is_zero b -> same_up_to_zero (a + y) (b + y).
Proof.
  intros [sa A] [sb B].
  pose proof (add_spec a y) as Ea. pose proof (add_spec b y) as Eb.
  rewrite A in Ea. rewrite B in Eb.
  destruct (Prim2SF y) as [sy|sy| |sy m e] eqn:Y; cbn in Ea, Eb;
    try (left; apply Prim2SF_inj; congruence).
  right. split.
  - destruct sa, sy; eexists; exact Ea.
  - destruct sb, sy; eexists; exact Eb.
Qed.

Lemma add_same a b y : same_up_to_zero a b -> same_up_to_zero (a + y) (b + y).
Proof.
  intros [->|[A B]]; [left; reflexivity|]. now apply add_zeros.
Qed.

Lemma zero_add x : same_up_to_zero (0 + x) x.
Proof.
  pose proof (add_spec 0 x) as E. rewrite Prim2SF_zero in E.
  destruct (Prim2SF x) as [sx|sx| |sx m e] eqn:X; cbn in E;
    try (left; apply Prim2SF_inj; congruence).
  right. split; [|eexists; exact X]. destruct sx; eexists; exact E.
Qed.

Lemma div_same a b d : same_up_to_zero a b -> same_up_to_zero (a / d) (b / d).
Proof.
  intros [->|[[sa A] [sb B]]]; [left; reflexivity|].
  pose proof (div_spec a d) as Ea. pose proof (div_spec b d) as Eb.
  rewrite A in Ea. rewrite B in Eb.
  destruct (Prim2SF d) as [sd|sd| |sd m e] eqn:D; cbn in Ea, Eb;
    try (left; apply Prim2SF_inj; congruence);
    right; split; eexists; eassumption.
Qed.

Lemma add_one_same a b : same_up_to_zero a b -> (a + 1 = b + 1)%float.
Proof.
  intros [->|[[sa A] [sb B]]]; [reflexivity|].
  pose proof (add_spec a 1) as Ea. pose proof (add_spec b 1) as Eb.
  rewrite A, Prim2SF_one in Ea. rewrite B, Prim2SF_one in Eb.
  cbn in Ea, Eb. apply Prim2SF_inj. congruence.
Qed.

Lemma fold_same l : forall a b,
  same_up_to_zero a b ->
  same_up_to_zero (fold_left PrimFloat.add l a) (fold_left PrimFloat.add l b).
Proof.
  induction l as [|y l IH]; intros a b H; [exact H|].
  cbn [fold_left]. apply IH. now apply add_same.
Qed.

(** [sum(l) / len(l) + 1] is the specification's average plus 1. *)
Lemma average_is_sum_over_len l :
  (py_sum l / py_len l + 1)%float = (average l + 1)%float.
Proof.
  apply add_one_same. unfold py_len, average. apply div_same.
  destruct l as [|x rest]; [left; reflexivity|].
  unfold py_sum, total. cbn [fold_left]. apply fold_same, zero_add.
Qed.

End FloatZeros.

(** ** The confidence derivation *)

Import ResultAssemblerSpec.

Lemma confidences_of_available segs :
  confidences_of segs = available_logprobs segs.
Proof.
  induction segs as [|seg rest IH]; simpl; [reflexivity|].
  destruct (raw_avg_logprob seg); simpl; now rewrite IH.
Qed.

Lemma available_logprobs_none segs :
  Forall (fun seg => raw_avg_logprob seg = None) segs ->
  available_logprobs segs = [].
Proof.
  induction 1 as [|seg rest H _ IH]; simpl; [reflexivity|].
  now rewrite H, IH.
Qed.

Lemma clamp_is_max_min x : py_max 0 (py_min 1 x) = clamp x 0 1.
Proof.
  unfold py_max, py_min, clamp.
  destruct (PrimFloat.ltb x 1); reflexivity.
Qed.

Lemma confidence_refines_spec wr :
  confidence_score_of wr = spec_confidence (get_default (wr_segments wr) []).
Proof.
  unfold confidence_score_of, spec_confidence.
  destruct (wr_segments wr) as [[|seg rest]|]; cbn [get_default];
    try reflexivity.
  rewrite confidences_of_available.
  destruct (available_logprobs (seg :: rest)); [reflexivity|].
  now rewrite clamp_is_max_min, average_is_sum_over_len.
Qed.

(** [clamp(x, 0, 1)] is 0 up to 0, [x] strictly between 0 and 1, and 1 from
    1 on (and for NaN); it always lies in the unit interval. *)
Lemma clamp_unit x :
  (PrimFloat.leb x 0 = true -> clamp x 0 1 = 0%float)
  /\ (PrimFloat.ltb 0 x = true -> PrimFloat.ltb x 1 = true -> clamp x 0 1 = x)
  /\ (PrimFloat.leb 1 x = true -> clamp x 0 1 = 1%float)
  /\ PrimFloat.leb 0 (clamp x 0 1) = true
  /\ PrimFloat.leb (clamp x 0 1) 1 = true.
Proof.
  unfold clamp. repeat split.
  - intros H. rewrite (@leb_0_ltb_1 _ H), (@leb_ltb_false _ _ H). reflexivity.
  - intros H0 H1. now rewrite H1, H0.
  - intros H. rewrite (@leb_ltb_false _ _ H). reflexivity.
  - destruct (PrimFloat.ltb x 1); [|reflexivity].
    destruct (PrimFloat.ltb 0 x) eqn:L; [now apply ltb_leb | reflexivity].
  - destruct (PrimFloat.ltb x 1) eqn:L1; [|reflexivity].
    destruct (PrimFloat.ltb 0 x); [now apply ltb_leb | reflexivity].
Qed.

Lemma confidence_in_unit_interval wr :
  unit_interval_ok (confidence_score_of wr) = true.
Proof.
  rewrite confidence_refines_spec. unfold spec_confidence.
  destruct (available_logprobs _) as [|x xs]; [reflexivity|].
  cbn [unit_interval_ok].
  destruct (clamp_unit (average (x :: xs) + 1)%float) as (_ & _ & _ & A & B).
  now rewrite A, B.
Qed.

(** ** Invariants of the service under concurrent callers *)

Section Counting.

Variable p : task -> bool.

Lemma count_cons t ts :
  count p (t :: ts) = ((if p t then 1 else 0) + count p ts)%Z.
Proof.
  unfold count; cbn [filter]. destruct (p t); cbn [List.length]; lia.
Qed.

Lemma count_app ts1 ts2 :
  count p (ts1 ++ ts2) = (count p ts1 + count p ts2)%Z.
Proof.
  unfold count. rewrite filter_app, length_app. lia.
Qed.

Lemma count_nonneg ts : (0 <= count p ts)%Z.
Proof. unfold count; lia. Qed.

(** Taking the [i]-th task out and putting [new] in its place. *)
Lemma count_replace ts i t new :
  nth_error ts i = Some t ->
  count p (firstn i ts ++ new ++ skipn (S i) ts) =
  (count p ts - (if p t then 1 else 0) + count p new)%Z.
Proof.
  intros H.
  assert (E : ts = firstn i ts ++ t :: skipn (S i) ts).
  { rewrite <- (firstn_skipn i ts) at 1. f_equal.
    clear -H. revert ts H.
    induction i as [|i IH]; intros [|x ts] H; simpl in *; try discriminate.
    - now injection H as ->.
    - now apply IH. }
  rewrite E at 3.
  rewrite !count_app, count_cons. lia.
Qed.

Lemma count_member ts i t :
  nth_error ts i = Some t -> p t = true -> (1 <= count p ts)%Z.
Proof.
  intros H T. pose proof (@count_replace ts i t [] H) as R.
  rewrite T in R. cbn [app] in R. rewrite count_app in R.
  change (count p []) with 0%Z in R.
  pose proof (count_nonneg (firstn i ts)).
  pose proof (count_nonneg (skipn (S i) ts)).
  lia.
Qed.

End Counting.

Lemma consistent_balanced s :
  consistent s <-> balanced (svc s) (counted s) (loads_in_progress s).
Proof.
  split.
  - intros [A B C]. repeat split; assumption.
  - intros (A & B & C). constructor; assumption.
Qed.

Section Preservation.

Variables (w : World) (cfg : Settings).

Lemma balanced_load_begin st i l requested now :
  balanced st i l ->
  match load_model_begin w cfg st requested now with
  | LoadReturned st' _ => balanced st' i l
  | LoadAwaiting st' _ _ => balanced st' i (l + 1)
  end.
Proof.
  intros (A & B & C).
  destruct (load_model_begin w cfg st requested now) as [st' r|st' sz t0] eqn:E.
  - apply load_model_begin_returned in E as ->. repeat split; assumption.
  - apply load_model_begin_awaiting in E as (-> & L & _).
    rewrite L in C. repeat split; simpl; try assumption. lia.
Qed.

Lemma balanced_load_resume st i l size t0 outcome t1 t2 :
  balanced st i l -> (1 <= l)%Z ->
  balanced (fst (load_model_resume w st size t0 outcome t1 t2)) i (l - 1).
Proof.
  intros (A & B & C) L. rewrite load_model_resume_state.
  destruct (_is_loading st); [|lia].
  destruct outcome; repeat split; simpl; try assumption; lia.
Qed.

Lemma balanced_body st i l a now :
  balanced st i l ->
  match transcribe_body w cfg st a now with
  | BReturned st' _ => balanced st' i l
  | BAwaitingInference st' _ _ _ => balanced st' (i + 1) l
  end.
Proof.
  intros (A & B & C). pose proof (transcribe_body_state w cfg st a now) as H.
  destruct (transcribe_body w cfg st a now) as [st' r|st' fi pf t0];
    subst st'.
  - repeat split; assumption.
  - repeat split; simpl; try assumption; lia.
Qed.

Lemma balanced_finish st i l a fi t0 outcome now :
  balanced st i l ->
  balanced (fst (transcribe_finish w st a fi t0 outcome now)) (i - 1) l.
Proof.
  intros (A & B & C). rewrite transcribe_finish_state.
  repeat split; simpl; try assumption. lia.
Qed.

Lemma balanced_cleanup_poll st i l :
  balanced st i l ->
  match cleanup_poll st with
  | CleanupSleeping st' _ => balanced st' i l
  | CleanupReturned st' => balanced st' i l
  end.
Proof.
  intros (A & B & C). unfold cleanup_poll.
  destruct (_active_transcriptions st >? 0)%Z; [repeat split; assumption|].
  unfold cleanup_release. cbn [shutdown_executor _model].
  destruct (is_some (_model st)) eqn:M; repeat split; simpl;
    try assumption; congruence.
Qed.

End Preservation.

Lemma balanced_ext st i l i' l' :
  balanced st i l -> i = i' -> l = l' -> balanced st i' l'.
Proof. now intros H <- <-. Qed.

Ltac count_norm :=
  rewrite ?count_app, ?count_cons;
  cbn [awaits_inference awaits_load];
  change (count awaits_inference []) with 0%Z;
  change (count awaits_load []) with 0%Z.

Ltac rebalance B :=
  eapply balanced_ext; [exact B | count_norm; lia | count_norm; lia].

Lemma balanced_task_of_body w cfg st a now ts :
  balanced st (count awaits_inference ts) (count awaits_load ts) ->
  let (st', new) := task_of_body a (transcribe_body w cfg st a now) in
  balanced st' (count awaits_inference (new ++ ts)) (count awaits_load (new ++ ts)).
Proof.
  intros H. pose proof (@balanced_body w cfg _ _ _ a now H) as B.
  destruct (transcribe_body w cfg st a now) as [st' r|st' fi pf t0];
    cbn [task_of_body]; rebalance B.
Qed.

Lemma perform_consistent act s : consistent s -> consistent (perform act s).
Proof.
  rewrite !consistent_balanced. unfold counted, loads_in_progress.
  destruct s as [st ts]; cbn [svc tasks]. intros H.
  destruct act as [w cfg requested now | w cfg a now | | i k]; cbn [perform svc tasks].
  - pose proof (@balanced_load_begin w cfg _ _ _ requested now H) as B.
    destruct (load_model_begin w cfg st requested now); cbn [svc tasks];
      rebalance B.
  - unfold transcribe_begin.
    destruct (_model st) eqn:M; cbn [task_of_body svc tasks app]; [|exact H].
    destruct (truthy_ostr (a_model_size a) && _).
    + pose proof (@balanced_load_begin w cfg _ _ _ (a_model_size a) now H) as B.
      destruct (load_model_begin w cfg st (a_model_size a) now)
        as [st' [r|e]|st' sz t0]; cbn [task_of_body svc tasks app].
      * pose proof (@balanced_task_of_body w cfg st' a now ts B) as T.
        destruct (task_of_body a (transcribe_body w cfg st' a now)); exact T.
      * exact B.
      * rebalance B.
    + pose proof (@balanced_task_of_body w cfg st a now ts H) as T.
      destruct (task_of_body a (transcribe_body w cfg st a now)); exact T.
  - pose proof (@balanced_cleanup_poll _ _ _ H) as B.
    destruct (cleanup_poll st); cbn [svc tasks]; rebalance B.
  - destruct (nth_error ts i) as [t|] eqn:N; cbn [svc tasks]; [|exact H].
    destruct t as [sz t0 | a sz t0 | a fi pf t0 | ]; cbn [resume_task].
    + cbn [svc tasks]. rewrite !(@count_replace _ _ _ _ _ N).
      eapply balanced_ext;
        [apply balanced_load_resume;
         [exact H | now apply (@count_member _ _ _ _ N)]
        | count_norm; lia | count_norm; lia].
    + assert (L : (1 <= count awaits_load ts)%Z)
        by now apply (@count_member _ _ _ _ N).
      pose proof (@balanced_load_resume (wk_world k) _ _ _ sz t0
                    (_load_model_sync (wk_world k) sz) (wk_t1 k) (wk_t2 k) H L) as R.
      unfold transcribe_after_load.
      destruct (load_model_resume (wk_world k) st sz t0 _ (wk_t1 k) (wk_t2 k))
        as [st' [r|e]]; cbn [fst] in R.
      * pose proof (@balanced_body (wk_world k) (wk_cfg k) _ _ _ a (wk_t3 k) R) as B.
        destruct (transcribe_body (wk_world k) (wk_cfg k) st' a (wk_t3 k));
          cbn [task_of_body svc tasks];
          rewrite !(@count_replace _ _ _ _ _ N); rebalance B.
      * cbn [task_of_body svc tasks].
        rewrite !(@count_replace _ _ _ _ _ N); rebalance R.
    + cbn [svc tasks]. rewrite !(@count_replace _ _ _ _ _ N).
      eapply balanced_ext;
        [apply balanced_finish; exact H | count_norm; lia | count_norm; lia].
    + pose proof (@balanced_cleanup_poll _ _ _ H) as B.
      destruct (cleanup_poll st); cbn [svc tasks];
        rewrite !(@count_replace _ _ _ _ _ N); rebalance B.
Qed.

Lemma run_consistent acts s : consistent s -> consistent (run acts s).
Proof.
  revert s. induction acts as [|act acts IH]; intros s H; simpl; [exact H|].
  apply IH. now apply perform_consistent.
Qed.

Lemma boot_consistent now : consistent (boot now).
Proof. constructor; reflexivity. Qed.

Lemma reachable_consistent s : reachable s -> consistent s.
Proof.
  intros (now & acts & ->). apply run_consistent, boot_consistent.
Qed.

(** ** The recorded size is a name Whisper knows *)

Lemma load_model_begin_size w cfg st requested now :
  match load_model_begin w cfg st requested now with
  | LoadReturned st' _ | LoadAwaiting st' _ _ => _model_size st' = _model_size st
  end.
Proof.
  destruct (load_model_begin w cfg st requested now) as [st' r|st' sz t0] eqn:E.
  - now apply load_model_begin_returned in E as ->.
  - now apply load_model_begin_awaiting in E as (-> & _).
Qed.

Lemma transcribe_body_size w cfg st a now :
  match transcribe_body w cfg st a now with
  | BReturned st' _ | BAwaitingInference st' _ _ _ =>
      _model_size st' = _model_size st
  end.
Proof.
  pose proof (transcribe_body_state w cfg st a now) as H.
  destruct (transcribe_body w cfg st a now); now subst.
Qed.

Lemma load_model_resume_real w st size t0 t1 t2 :
  loads_real_names w -> recorded_size_real st ->
  recorded_size_real
    (fst (load_model_resume w st size t0 (_load_model_sync w size) t1 t2)).
Proof.
  intros W R. rewrite load_model_resume_state.
  destruct (_load_model_sync w size) as [h|e] eqn:L; [|exact R].
  intros sz E. cbn in E. injection E as <-.
  exact (W _ _ _ L).
Qed.

Lemma cleanup_poll_real st :
  recorded_size_real st ->
  match cleanup_poll st with
  | CleanupSleeping st' _ | CleanupReturned st' => recorded_size_real st'
  end.
Proof.
  intros R. unfold cleanup_poll.
  destruct (_active_transcriptions st >? 0)%Z; [exact R|].
  unfold cleanup_release. cbn [shutdown_executor _model].
  destruct (is_some (_model st)); [|exact R].
  intros sz E. discriminate E.
Qed.

Lemma real_ext st st' :
  recorded_size_real st -> _model_size st' = _model_size st ->
  recorded_size_real st'.
Proof. intros R E sz. rewrite E. apply R. Qed.

Lemma perform_real act s :
  honest act -> recorded_size_real (svc s) ->
  recorded_size_real (svc (perform act s)).
Proof.
  destruct s as [st ts]; cbn [svc]. intros Hh R.
  destruct act as [w cfg requested now | w cfg a now | | i k];
    cbn [perform svc tasks].
  - pose proof (load_model_begin_size w cfg st requested now) as E.
    destruct (load_model_begin w cfg st requested now); cbn [svc];
      eapply real_ext; eauto.
  - unfold transcribe_begin. destruct (_model st); [|exact R].
    destruct (truthy_ostr (a_model_size a) && _).
    + pose proof (load_model_begin_size w cfg st (a_model_size a) now) as E.
      destruct (load_model_begin w cfg st (a_model_size a) now)
        as [st' [r|e]|st' sz t0]; cbn [svc];
        try (eapply real_ext; now eauto).
      pose proof (transcribe_body_size w cfg st' a now) as B.
      destruct (transcribe_body w cfg st' a now); cbn [task_of_body svc];
        eapply real_ext; eauto; congruence.
    + pose proof (transcribe_body_size w cfg st a now) as B.
      destruct (transcribe_body w cfg st a now); cbn [task_of_body svc];
        eapply real_ext; eauto.
  - pose proof (cleanup_poll_real R) as B.
    destruct (cleanup_poll st); exact B.
  - destruct (nth_error ts i) as [t|]; cbn [svc]; [|exact R].
    cbn [honest] in Hh.
    destruct t as [sz t0 | a sz t0 | a fi pf t0 | ]; cbn [resume_task svc].
    + now apply load_model_resume_real.
    + pose proof (@load_model_resume_real (wk_world k) st sz t0
                    (wk_t1 k) (wk_t2 k) Hh R) as L.
      unfold transcribe_after_load.
      destruct (load_model_resume (wk_world k) st sz t0 _ (wk_t1 k) (wk_t2 k))
        as [st' [r|e]]; cbn [fst] in L; cbn [task_of_body svc]; [|exact L].
      pose proof (transcribe_body_size (wk_world k) (wk_cfg k) st' a (wk_t3 k)) as B.
      destruct (transcribe_body (wk_world k) (wk_cfg k) st' a (wk_t3 k));
        cbn [task_of_body svc]; eapply real_ext; eauto.
    + rewrite transcribe_finish_state. exact R.
    + pose proof (cleanup_poll_real R) as B.
      destruct (cleanup_poll st); exact B.
Qed.

Lemma run_real acts s :
  Forall honest acts -> recorded_size_real (svc s) ->
  recorded_size_real (svc (run acts s)).
Proof.
  intros F. revert s. induction F as [|act acts Hh _ IH]; intros s R;
    cbn [run fold_left]; [exact R|].
  apply IH. now apply perform_real.
Qed.

Lemma is_some_none {A} (o : option A) : is_some o = false <-> o = None.
Proof. destruct o; simpl; split; congruence. Qed.

Lemma sample_world_loads_real_names : loads_real_names Sample.world.
Proof.
  intros size device h. cbn. unfold Sample.model_id.
  repeat match goal with
         | |- context [String.eqb size ?s] =>
             destruct (String.eqb_spec size s); [subst; split; discriminate|]
         end.
  discriminate.
Qed.

(** C9, as stated, fails.  Whisper takes the path of a checkpoint for a
    model name; where a checkpoint file is named "none", loading it leaves a
    model resident, and [get_model_info] reports the size "none" together
    with [is_loaded = true]. *)
Lemma loaded_model_reported_as_none :
  ~ (mi_model_size
       (get_model_info Sample.checkpoint_world
                       (svc Sample.checkpoint_loaded) 3%float) = "none" ->
     mi_is_loaded
       (get_model_info Sample.checkpoint_world
                       (svc Sample.checkpoint_loaded) 3%float) = false).
Proof.
  intros H. specialize (H eq_refl). discriminate H.
Qed.

(** C9, amended.  In every state reachable from the construction of the
    service by calls of [load_model], [transcribe_audio] and [cleanup],
    interleaved at their awaits in any order and with any outcome of the
    awaited jobs, the model handle is [None] if and only if the recorded
    size is [None].  Consequently [get_model_info] reports
    [is_loaded = true] exactly when a size is recorded, and then reports
    that size, the placeholder "none" standing in for the empty name; it
    reports "none" whenever [is_loaded = false], and a reported "none" means
    [is_loaded = false] unless the recorded size is itself "" or "none".
    Where Whisper loads no model under these two names, [is_loaded = true]
    goes with a real size and "none" with [is_loaded = false], each exactly
    when the other. *)
Theorem handle_iff_size_recorded (now : float) (acts : list action) :
  let st := svc (run acts (boot now)) in
  (_model st = None <-> _model_size st = None)
  /\ (forall w t,
         let info := get_model_info w st t in
         (mi_is_loaded info = true <-> exists size, _model_size st = Some size)
         /\ (forall size,
                _model_size st = Some size ->
                mi_model_size info = if truthy_str size then size else "none")
         /\ (mi_is_loaded info = false -> mi_model_size info = "none")
         /\ (mi_model_size info = "none" <->
             mi_is_loaded info = false
             \/ _model_size st = Some "" \/ _model_size st = Some "none")
         /\ (mi_model_size info <> "none" ->
             mi_is_loaded info = true
             /\ _model_size st = Some (mi_model_size info)))
  /\ (Forall honest acts ->
      recorded_size_real st
      /\ forall w t,
          let info := get_model_info w st t in
          (mi_is_loaded info = true <-> mi_model_size info <> "none")
          /\ (mi_is_loaded info = false <-> mi_model_size info = "none")
          /\ (mi_is_loaded info = true ->
              _model_size st = Some (mi_model_size info))).
Proof.
  intros st.
  assert (C : is_some (_model st) = is_some (_model_size st)).
  { apply (@run_consistent acts (boot now)), boot_consistent. }
  split; [|split].
  - rewrite <- !is_some_none, C. reflexivity.
  - intros w t info. subst info.
    unfold get_model_info; cbn [mi_is_loaded mi_model_size].
    rewrite C.
    destruct (_model_size st) as [sz|] eqn:S; cbn [is_some].
    + unfold truthy_str.
      destruct (String.eqb_spec sz "") as [->|N]; cbn [negb].
      * split; [split; [intros _; eexists; reflexivity|reflexivity]|].
        split; [intros size E; injection E as <-; reflexivity|].
        split; [discriminate|]. split.
        -- split; [intros _; right; left; reflexivity|reflexivity].
        -- intros H. now contradiction H.
      * split; [split; [intros _; eexists; reflexivity|reflexivity]|].
        split.
        { intros size E; injection E as <-.
          destruct (String.eqb_spec sz ""); [contradiction|reflexivity]. }
        split; [discriminate|]. split.
        -- split; [intros ->; right; right; reflexivity|].
           intros [H|[H|H]]; [discriminate H| |];
             injection H as ->; [contradiction|reflexivity].
        -- intros _. split; reflexivity.
    + split; [split; [discriminate|intros [size H]; discriminate H]|].
      split; [intros size H; discriminate H|].
      split; [reflexivity|]. split.
      * split; [intros _; left; reflexivity|reflexivity].
      * intros H. now contradiction H.
  - intros F.
    assert (R : recorded_size_real st).
    { apply run_real; [exact F|]. intros sz E. discriminate E. }
    split; [exact R|]. intros w t info.
    subst info. unfold get_model_info; cbn [mi_is_loaded mi_model_size].
    rewrite C.
    destruct (_model_size st) as [sz|] eqn:S; cbn [is_some].
    + destruct (R sz S) as [N1 N2].
      assert (T : truthy_str sz = true).
      { unfold truthy_str. destruct (String.eqb_spec sz ""); [contradiction|].
        reflexivity. }
      rewrite T. repeat split; try congruence; intros; try reflexivity;
        try contradiction.
    + repeat split; try congruence; intros; reflexivity.
Qed.

Lemma handle_iff_size_recorded_witness :
  let st := svc (run Sample.session (boot 0%float)) in
  Forall honest Sample.session
  /\ _model st = None
  /\ forall w t, mi_is_loaded (get_model_info w st t) = false
                 <-> mi_model_size (get_model_info w st t) = "none".
Proof.
  assert (F : Forall honest Sample.session).
  { unfold Sample.session.
    repeat (apply Forall_cons;
            [first [exact I | exact sample_world_loads_real_names]|]).
    apply Forall_nil. }
  split; [exact F|]. split; [reflexivity|].
  intros w t.
  apply (proj2 (proj2 (proj2 (handle_iff_size_recorded 0%float Sample.session))
                      F) w t).
Defined.

(** ** Shutdown *)

Lemma cleanup_poll_busy st :
  (0 < _active_transcriptions st)%Z -> cleanup_poll st = CleanupSleeping st 1.
Proof.
  intros H. unfold cleanup_poll.
  destruct (Z.gtb_spec (_active_transcriptions st) 0); [reflexivity|lia].
Qed.

Lemma cleanup_poll_idle st :
  (_active_transcriptions st <= 0)%Z ->
  cleanup_poll st = CleanupReturned (cleanup_release st).
Proof.
  intros H. unfold cleanup_poll.
  destruct (Z.gtb_spec (_active_transcriptions st) 0); [lia|reflexivity].
Qed.

Lemma cleanup_release_released st :
  _executor_shutdown (cleanup_release st) = true
  /\ _model (cleanup_release st) = None
  /\ _active_transcriptions (cleanup_release st) = _active_transcriptions st.
Proof.
  unfold cleanup_release. cbn [shutdown_executor _model].
  destruct (_model st) eqn:M; cbn [is_some]; repeat split; cbn; assumption.
Qed.

(** [cleanup] returns as soon as a poll finds the counter at zero, having
    slept once for each poll that found it positive. *)
Lemma cleanup_from others n :
  forall k st fuel,
    (forall j, (k <= j < k + n)%nat ->
               (0 < _active_transcriptions (seen_at_poll others j st))%Z) ->
    (_active_transcriptions (seen_at_poll others (k + n) st) <= 0)%Z ->
    (n < fuel)%nat ->
    cleanup fuel others k (seen_at_poll others k st) =
    Some (cleanup_release (seen_at_poll others (k + n) st), (k + n)%nat).
Proof.
  induction n as [|n IH]; intros k st [|fuel] Busy Idle F; try lia.
  - rewrite Nat.add_0_r in *. cbn [cleanup].
    now rewrite cleanup_poll_idle.
  - cbn [cleanup]. rewrite cleanup_poll_busy by (apply Busy; lia).
    change (others k (seen_at_poll others k st))
      with (seen_at_poll others (S k) st).
    rewrite Nat.add_succ_r in *.
    apply (IH (S k)); [|exact Idle|lia].
    intros j J. apply Busy. lia.
Qed.

(** A transcription in flight is counted or still resolving its model. *)
Lemma in_flight_split s :
  in_flight s = (counted s + count resolving (tasks s))%Z.
Proof.
  unfold in_flight, counted. induction (tasks s) as [|t ts IH].
  - reflexivity.
  - rewrite !count_cons, IH. destruct t; cbn [transcribing awaits_inference resolving]; lia.
Qed.

Lemma working_split ts :
  count working ts = (count awaits_inference ts + count awaits_load ts)%Z.
Proof.
  induction ts as [|t ts IH]; [reflexivity|].
  rewrite !count_cons, IH.
  destruct t; cbn [working awaits_inference awaits_load]; lia.
Qed.

Lemma cleanup_release_idle st :
  _model st = None -> cleanup_release st = shutdown_executor st.
Proof.
  intros M. unfold cleanup_release. cbn [shutdown_executor _model].
  now rewrite M.
Qed.

(** Once released with no load in progress, the service stays so. *)
Lemma perform_released act s : released s -> released (perform act s).
Proof.
  destruct s as [st ts]. unfold released; cbn [svc tasks].
  intros (X & M & L & A & T).
  destruct act as [w cfg requested now | w cfg a now | | i k];
    cbn [perform svc tasks].
  - unfold load_model_begin. rewrite M, L. cbn [is_some andb].
    cbn [set_is_loading _executor_shutdown]. rewrite X.
    cbn [svc tasks set_is_loading _executor_shutdown _model _is_loading
         _active_transcriptions]. auto.
  - unfold transcribe_begin. rewrite M. cbn [task_of_body svc tasks app]. auto.
  - rewrite cleanup_poll_idle by exact A. cbn [svc tasks].
    rewrite cleanup_release_idle by exact M. cbn. auto.
  - destruct (nth_error ts i) as [t|] eqn:N; cbn [svc tasks]; [|auto].
    assert (C : working t = false).
    { destruct (working t) eqn:W; [|reflexivity].
      pose proof (@count_member working ts i t N W). lia. }
    destruct t; try discriminate C. cbn [resume_task].
    rewrite cleanup_poll_idle by exact A. cbn [svc tasks].
    rewrite cleanup_release_idle by exact M.
    rewrite (@count_replace working ts i CleanupTask [] N).
    cbn. repeat split; try assumption. lia.
Qed.

Lemma run_released acts s : released s -> released (run acts s).
Proof.
  revert s. induction acts as [|act acts IH]; intros s H; cbn [run fold_left];
    [exact H|].
  apply IH. now apply perform_released.
Qed.

Lemma released_by_cleanup s :
  consistent s -> counted s = 0%Z -> loads_in_progress s = 0%Z ->
  released (perform CallCleanup s).
Proof.
  intros [_ C L] Z0 L0.
  assert (A : (_active_transcriptions (svc s) <= 0)%Z) by lia.
  assert (F : _is_loading (svc s) = false).
  { rewrite L0 in L. destruct (_is_loading (svc s)); [discriminate L|reflexivity]. }
  cbn [perform]. rewrite cleanup_poll_idle by exact A.
  destruct (cleanup_release_released (svc s)) as (X & M & A').
  unfold released; cbn [svc tasks]. rewrite A'.
  repeat split; try assumption.
  - unfold cleanup_release. cbn [shutdown_executor _model].
    destruct (is_some (_model (svc s))); cbn; exact F.
  - rewrite working_split. unfold counted in Z0.
    unfold loads_in_progress in L0. lia.
Qed.

(** C7, as stated, fails.  With "base" loaded, a transcription that asks
    for "small" has been accepted and awaits the load of its model: it is in
    flight.  [cleanup], called then, finds the counter at zero and returns
    having shut the executor down and cleared the model; when the load
    completes the model is resident again, and [get_model_info] reports
    [is_loaded = true] after the cleanup. *)
Lemma cleanup_releases_under_an_awaited_load :
  ~ ((0 < in_flight Sample.awaiting_switch)%Z ->
     _executor_shutdown (svc Sample.released_under_switch) = false
     /\ is_model_loaded (svc Sample.released_under_switch) = true)
  /\ ~ (tasks Sample.released_under_switch = tasks Sample.awaiting_switch ->
        mi_is_loaded
          (get_model_info Sample.world (svc Sample.after_switch) 5%float)
        = false).
Proof.
  split; intros H.
  - destruct H as [H _]; [reflexivity|]. discriminate H.
  - specialize (H eq_refl). discriminate H.
Qed.

(** C7, amended.  [cleanup] releases neither the worker pool nor the model
    handle while the active counter is positive.  A poll that finds the
    counter positive changes nothing and sleeps for 1 second; a poll that
    finds it at zero shuts the executor down and clears the model, and
    [get_model_info] then reports [is_loaded = false].  In every reachable
    state the counter is the number of transcriptions suspended on their
    inference, so the release happens only when none is; a transcription in
    flight that still awaits the load of its model is not counted.  When no
    load is in progress at the release, the service stays released whatever
    is called afterwards.  Against the rest of the program, [cleanup]
    returns at the first poll that finds the counter at zero, having
    released at no earlier poll. *)
Theorem cleanup_waits_for_counted_transcriptions :
  (forall st,
      (0 < _active_transcriptions st)%Z ->
      cleanup_poll st = CleanupSleeping st 1)
  /\ (forall st,
         (_active_transcriptions st <= 0)%Z ->
         let st' := cleanup_release st in
         cleanup_poll st = CleanupReturned st'
         /\ _executor_shutdown st' = true
         /\ _model st' = None
         /\ forall w now, mi_is_loaded (get_model_info w st' now) = false)
  /\ (forall s,
         reachable s ->
         _active_transcriptions (svc s) = counted s
         /\ in_flight s = (counted s + count resolving (tasks s))%Z
         /\ ((0 < counted s)%Z ->
             svc (perform CallCleanup s) = svc s)
         /\ (forall st', cleanup_poll (svc s) = CleanupReturned st' ->
                         counted s = 0%Z))
  /\ (forall s acts w now,
         reachable s ->
         counted s = 0%Z ->
         loads_in_progress s = 0%Z ->
         let st' := svc (run acts (perform CallCleanup s)) in
         _executor_shutdown st' = true
         /\ _model st' = None
         /\ mi_is_loaded (get_model_info w st' now) = false)
  /\ (forall others st n fuel,
         (forall k, (k < n)%nat ->
                    (0 < _active_transcriptions (seen_at_poll others k st))%Z) ->
         (_active_transcriptions (seen_at_poll others n st) <= 0)%Z ->
         (n < fuel)%nat ->
         cleanup fuel others 0 st =
         Some (cleanup_release (seen_at_poll others n st), n)
         /\ forall k, (k < n)%nat ->
                      cleanup_poll (seen_at_poll others k st) =
                      CleanupSleeping (seen_at_poll others k st) 1).
Proof.
  split; [exact cleanup_poll_busy|]. split; [|split; [|split]].
  - intros st H st'. split; [now apply cleanup_poll_idle|].
    destruct (cleanup_release_released st) as (X & M & _).
    repeat split; try assumption.
    intros w now. unfold get_model_info; cbn [mi_is_loaded].
    subst st'. now rewrite M.
  - intros s R. apply reachable_consistent in R. destruct R as [_ C _].
    split; [exact C|]. split; [apply in_flight_split|]. split.
    + intros F. cbn [perform]. rewrite cleanup_poll_busy by lia. reflexivity.
    + intros st' P.
      destruct (Z.lt_total 0 (counted s)) as [L|[L|L]].
      * rewrite cleanup_poll_busy in P by lia. discriminate P.
      * now symmetry.
      * pose proof (count_nonneg awaits_inference (tasks s)).
        unfold counted in L. lia.
  - intros s acts w now R Z0 L0 st'.
    apply reachable_consistent in R.
    destruct (run_released acts (released_by_cleanup R Z0 L0))
      as (X & M & _).
    fold st' in X, M. repeat split; try assumption.
    unfold get_model_info; cbn [mi_is_loaded]. now rewrite M.
  - intros others st n fuel Busy Idle F. split.
    + apply (@cleanup_from others n 0%nat st fuel); [|exact Idle|exact F].
      intros j J. apply Busy. lia.
    + intros k K. apply cleanup_poll_busy. now apply Busy.
Qed.

Lemma cleanup_waits_for_counted_transcriptions_witness :
  cleanup 2 Sample.one_finishes 0 (add_active 1 Sample.loaded_base) =
  Some (cleanup_release Sample.loaded_base, 1%nat).
Proof.
  apply (proj2 (proj2 (proj2 (proj2 cleanup_waits_for_counted_transcriptions)))
           Sample.one_finishes (add_active 1 Sample.loaded_base) 1%nat 2%nat).
  - intros k K. assert (k = 0%nat) as -> by lia. vm_compute. reflexivity.
  - vm_compute. discriminate.
  - lia.
Defined.

(** ** Segments *)

Lemma TranscriptionSegment_new_unscored w s e t :
  TranscriptionSegment_new (pydantic_str w) s e t None =
  if PrimFloat.leb e s then Raise (end_time_error w e)
  else Ok (mkSegment s e t None).
Proof.
  unfold TranscriptionSegment_new, validate_end_time.
  destruct (PrimFloat.leb e s); reflexivity.
Qed.

Lemma TranscriptionSegment_new_ok render s e t c seg :
  TranscriptionSegment_new render s e t c = Ok seg ->
  seg = mkSegment s e t c /\ PrimFloat.leb e s = false.
Proof.
  unfold TranscriptionSegment_new, validate_end_time.
  destruct (PrimFloat.leb e s); cbn [app]; [discriminate|].
  destruct c as [x|]; [destruct (unit_interval_ok (Some x))|];
    cbn [app]; try discriminate;
    intros H; injection H as <-; auto.
Qed.

(** C8 on the code.  A segment whose end is at or before its start is
    rejected with a validation error on [end_time] (start 1.0 with end 0.5,
    equal times), and a constructed segment whose two times are numbers has
    its end strictly after its start.  The validator tests [v <= start_time],
    which is false when either time is NaN: start 1.0 with end NaN is
    constructed, and its end is not after its start. *)
Theorem segment_end_after_start_unless_nan :
  (forall render s e t c,
      PrimFloat.leb e s = true ->
      exists fields text,
        TranscriptionSegment_new render s e t c =
        Raise (ValidationError "TranscriptionSegment" fields text)
        /\ In "end_time" fields)
  /\ (forall w, TranscriptionSegment_new (pydantic_str w) 1 0.5 "x" None =
                Raise (end_time_error w 0.5))
  /\ (forall w, TranscriptionSegment_new (pydantic_str w) 1 1 "x" None =
                Raise (end_time_error w 1))
  /\ (forall render s e t c seg,
         TranscriptionSegment_new render s e t c = Ok seg ->
         PrimFloat.eqb s s = true -> PrimFloat.eqb e e = true ->
         PrimFloat.ltb (start_time seg) (end_time seg) = true)
  /\ (forall render,
         TranscriptionSegment_new render 1 nan "x" None =
         Ok (mkSegment 1 nan "x" None))
  /\ PrimFloat.ltb (start_time (mkSegment 1 nan "x" None))
                   (end_time (mkSegment 1 nan "x" None)) = false.
Proof.
  split; [|split; [|split; [|split; [|split]]]];
    try (intros; rewrite ?TranscriptionSegment_new_unscored;
         vm_compute; reflexivity).
  - intros render s e t c H. unfold TranscriptionSegment_new, validate_end_time.
    rewrite H. cbn [app map]. do 2 eexists. split; [reflexivity|].
    left; reflexivity.
  - intros render s e t c seg H Ns Ne.
    apply TranscriptionSegment_new_ok in H as [-> L]. cbn.
    now apply leb_false_ltb.
Qed.

(** ** Response assembly in closed form *)

Import Shapes.

Lemma first_backward_none raws :
  first_backward raws = None <-> forallb forward raws = true.
Proof.
  unfold first_backward.
  induction raws as [|r rest IH]; cbn [find forallb]; [tauto|].
  destruct (forward r); cbn [negb andb]; [exact IH|].
  split; discriminate.
Qed.

Lemma first_backward_some raws seg :
  first_backward raws = Some seg -> In seg raws /\ forward seg = false.
Proof.
  unfold first_backward. intros H. apply find_some in H as [I F].
  split; [exact I|]. now destruct (forward seg).
Qed.

Lemma build_segments_closed w raws :
  build_segments w raws =
  match first_backward raws with
  | None => Ok (map to_segment raws)
  | Some seg => Raise (end_time_error w (get_default (raw_end seg) 0%float))
  end.
Proof.
  unfold first_backward.
  induction raws as [|r rest IH]; [reflexivity|].
  cbn [build_segments find map]. rewrite TranscriptionSegment_new_unscored.
  unfold forward at 1.
  destruct (PrimFloat.leb _ _); cbn [negb bind]; [reflexivity|].
  rewrite IH. destruct (find _ rest); reflexivity.
Qed.

(** What pydantic raises for a response without [model_used]. *)
Lemma create_response_closed w st wr fi elapsed :
  _create_transcription_response w st wr fi elapsed =
  let raws := get_default (wr_segments wr) [] in
  match first_backward raws with
  | Some seg => Raise (end_time_error w (get_default (raw_end seg) 0%float))
  | None =>
      match _model_size st with
      | Some size =>
          Ok (mkResponse (strip (get_default (wr_text wr) ""))
                         (wr_language wr) (fi_duration fi)
                         (map to_segment raws) (confidence_score_of wr)
                         size (py_round w elapsed 3))
      | None =>
          Raise (ValidationError "TranscriptionResponse" ["model_used"]
                   (pydantic_str w "TranscriptionResponse"
                      [mkFieldError "model_used" PyNone None]))
      end
  end.
Proof.
  unfold _create_transcription_response. rewrite build_segments_closed.
  cbn zeta. destruct (first_backward _); cbn [bind]; [reflexivity|].
  unfold TranscriptionResponse_new.
  pose proof (confidence_in_unit_interval wr) as U.
  destruct (confidence_score_of wr) as [c|]; [rewrite U|];
    destruct (_model_size st); reflexivity.
Qed.

(** ** The confidence of an assembled response *)

(** C6.  The confidence of every response [_create_transcription_response]
    returns is the specification's: over the raw segments that carry a
    log-probability it is [clamp(average + 1, 0, 1)], the average being
    their sum in their order over their number, and it is absent when there
    is none; a response is returned whenever no raw segment stops the loop
    and a model size is recorded.  The clamp gives 0 up to 0, the value
    itself between 0 and 1 and 1 from 1 on, always a value of the unit
    interval.  The log-probabilities -0.1 and -0.3 give a response whose
    confidence is exactly the float 0.8.  A missing or empty segment list
    gives a response with an empty segment sequence and no confidence,
    without error. *)
Theorem confidence_is_clamped_average :
  (forall w st wr fi elapsed response,
      _create_transcription_response w st wr fi elapsed = Ok response ->
      r_confidence_score response =
      spec_confidence (get_default (wr_segments wr) []))
  /\ (forall w st wr fi elapsed size,
         first_backward (get_default (wr_segments wr) []) = None ->
         _model_size st = Some size ->
         exists response,
           _create_transcription_response w st wr fi elapsed = Ok response)
  /\ (forall raws c,
         spec_confidence raws = Some c ->
         let x := (average (available_logprobs raws) + 1)%float in
         (PrimFloat.leb x 0 = true -> c = 0%float)
         /\ (PrimFloat.ltb 0 x = true -> PrimFloat.ltb x 1 = true -> c = x)
         /\ (PrimFloat.leb 1 x = true -> c = 1%float)
         /\ PrimFloat.leb 0 c = true
         /\ PrimFloat.leb c 1 = true)
  /\ (forall w st txt lang fi elapsed size,
         _model_size st = Some size ->
         exists response,
           _create_transcription_response w st
             (mkWhisperResult txt lang
                (Some [Sample.with_logprob (-0.1)%float;
                       Sample.with_logprob (-0.3)%float]))
             fi elapsed = Ok response
           /\ r_confidence_score response = Some 0.8%float)
  /\ (forall w st wr fi elapsed response,
         Forall (fun seg => raw_avg_logprob seg = None)
                (get_default (wr_segments wr) []) ->
         _create_transcription_response w st wr fi elapsed = Ok response ->
         r_confidence_score response = None)
  /\ (forall w st txt lang segs fi elapsed size,
         segs = None \/ segs = Some [] ->
         _model_size st = Some size ->
         _create_transcription_response w st (mkWhisperResult txt lang segs)
                                        fi elapsed =
         Ok (mkResponse (strip (get_default txt "")) lang (fi_duration fi)
                        [] None size (py_round w elapsed 3))).
Proof.
  assert (Conf : forall w st wr fi elapsed response,
             _create_transcription_response w st wr fi elapsed = Ok response ->
             r_confidence_score response =
             spec_confidence (get_default (wr_segments wr) [])).
  { intros w st wr fi elapsed response. rewrite create_response_closed.
    cbn zeta. destruct (first_backward _); [discriminate|].
    destruct (_model_size st); [|discriminate].
    intros H; injection H as <-. apply confidence_refines_spec. }
  split; [exact Conf|]. split; [|split; [|split; [|split]]].
  - intros w st wr fi elapsed size F S. rewrite create_response_closed.
    cbn zeta. rewrite F, S. eexists; reflexivity.
  - intros raws c. unfold spec_confidence.
    destruct (available_logprobs raws) as [|x xs]; [discriminate|].
    intros H; injection H as <-.
    destruct (clamp_unit (average (x :: xs) + 1)%float) as (A & B & C & D & E).
    repeat split; assumption.
  - intros w st txt lang fi elapsed size S. rewrite create_response_closed.
    cbn [wr_segments get_default]. cbn zeta.
    change (first_backward [Sample.with_logprob (-0.1)%float;
                            Sample.with_logprob (-0.3)%float])
      with (@None RawSegment).
    rewrite S. eexists. split; [reflexivity|].
    cbn [r_confidence_score]. vm_compute. reflexivity.
  - intros w st wr fi elapsed response N H. rewrite (Conf _ _ _ _ _ _ H).
    unfold spec_confidence. now rewrite available_logprobs_none.
  - intros w st txt lang segs fi elapsed size [-> | ->] S;
      rewrite create_response_closed; cbn; rewrite S; reflexivity.
Qed.

(** ** Response assembly on backward segments *)

Lemma build_segments_backward w raws seg :
  In seg raws ->
  PrimFloat.leb (get_default (raw_end seg) 0%float)
                (get_default (raw_start seg) 0%float) = true ->
  exists cause,
    first_backward raws = Some cause
    /\ build_segments w raws =
       Raise (end_time_error w (get_default (raw_end cause) 0%float)).
Proof.
  intros I B. rewrite build_segments_closed.
  destruct (first_backward raws) as [cause|] eqn:F.
  - exists cause. split; reflexivity.
  - apply first_backward_none in F. rewrite forallb_forall in F.
    specialize (F seg I). unfold forward in F. rewrite B in F. discriminate F.
Qed.

(** C10 on the code.  When the raw segments contain one whose end is at or
    before its start, the keys "start" and "end" reading as 0.0 when missing
    (so a segment with neither is one), building the segments raises the
    validation error of [TranscriptionSegment] for the first such segment,
    [_create_transcription_response] raises it, and the segment of
    [transcribe_audio] that follows the inference hands it to the caller as
    [TranscriptionFailed] carrying its text and the file path, with the
    counter decremented.  A raw segment that ends at NaN has an end that is
    not greater than its start, and yet it is assembled: the response is
    returned with that segment in it, by [_create_transcription_response]
    and by a whole call of [transcribe_audio]. *)
Theorem response_assembly_lets_nan_segments_through :
  (forall w st a fi t0 now wr raws seg,
      wr_segments wr = Some raws ->
      In seg raws ->
      PrimFloat.leb (get_default (raw_end seg) 0%float)
                    (get_default (raw_start seg) 0%float) = true
      \/ (raw_start seg = None /\ raw_end seg = None) ->
      exists cause,
        first_backward raws = Some cause
        /\ let e := end_time_error w (get_default (raw_end cause) 0%float) in
           build_segments w raws = Raise e
           /\ _create_transcription_response w st wr fi (now - t0)%float =
              Raise e
           /\ transcribe_finish w st a fi t0 (Ok wr) now =
              (add_active (-1) st,
               Raise (TranscriptionFailed "Transcription failed"
                        (Some (str e)) (Some (file_path a))))
           /\ kind (TranscriptionFailed "Transcription failed"
                      (Some (str e)) (Some (file_path a))) =
              Some TranscriptionFailedC)
  /\ (let seg := mkRaw (Some 1%float) (Some nan) (Some "x") None in
      PrimFloat.ltb (get_default (raw_start seg) 0%float)
                    (get_default (raw_end seg) 0%float) = false
      /\ forall w st txt lang fi elapsed size,
          _model_size st = Some size ->
          _create_transcription_response w st
            (mkWhisperResult txt lang (Some [seg])) fi elapsed =
          Ok (mkResponse (strip (get_default txt "")) lang (fi_duration fi)
                         [mkSegment 1 nan "x" None] None size
                         (py_round w elapsed 3)))
  /\ transcribe_audio (Sample.world_returning Sample.nan_result)
                      default_settings Sample.loaded_base
                      (Sample.request "/tmp/a.wav" None) =
     (Sample.loaded_base,
      Ok (mkResponse "x" (Some "en") 3 [mkSegment 1 nan "x" None] None
                     "base" 4)).
Proof.
  split; [|split].
  - intros w st a fi t0 now wr raws seg S I B.
    assert (B' : PrimFloat.leb (get_default (raw_end seg) 0%float)
                               (get_default (raw_start seg) 0%float) = true).
    { destruct B as [B|[-> ->]]; [exact B|reflexivity]. }
    destruct (build_segments_backward w _ _ I B') as (cause & F & E).
    exists cause. split; [exact F|]. cbn zeta.
    assert (C : _create_transcription_response w st wr fi (now - t0)%float =
                Raise (end_time_error w (get_default (raw_end cause) 0%float))).
    { rewrite create_response_closed. cbn zeta. rewrite S.
      cbn [get_default]. now rewrite F. }
    split; [exact E|]. split; [exact C|]. split; [|reflexivity].
    unfold transcribe_finish. cbn [bind]. now rewrite C.
  - cbn zeta. split; [vm_compute; reflexivity|].
    intros w st txt lang fi elapsed size S. rewrite create_response_closed.
    cbn [wr_segments get_default]. cbn zeta.
    change (first_backward [mkRaw (Some 1%float) (Some nan) (Some "x") None])
      with (@None RawSegment).
    rewrite S. reflexivity.
  - vm_compute. reflexivity.
Qed.

(** An end at or before the start through a whole call: the world's
    inference returns a segment that ends where it starts. *)
Example transcribe_audio_backward_segment :
  transcribe_audio (Sample.world_returning Sample.backward_result)
                   default_settings Sample.loaded_base
                   (Sample.request "/tmp/a.wav" None) =
  (Sample.loaded_base,
   Raise (TranscriptionFailed "Transcription failed"
            (Some (str (end_time_error Sample.world 1.5)))
            (Some "/tmp/a.wav"))).
Proof. vm_compute. reflexivity. Qed.

(** * Further properties of the code *)

(** ** load_model *)

Lemma ostr_eqb_eq a b : ostr_eqb a b = true -> a = b.
Proof.
  destruct a as [x|], b as [y|]; simpl; try discriminate; [|reflexivity].
  intros H. apply String.eqb_eq in H. now subst.
Qed.

Lemma ostr_eqb_refl a : ostr_eqb a a = true.
Proof. destruct a; simpl; [apply String.eqb_refl|reflexivity]. Qed.

Lemma unset_after_set st :
  _is_loading st = false -> set_is_loading false (set_is_loading true st) = st.
Proof. intros L. rewrite set_is_loading_twice. now apply set_is_loading_same. Qed.

Lemma unset_after_load st h size t :
  _is_loading st = false ->
  set_is_loading false (set_loaded h size t (set_is_loading true st)) =
  set_loaded h size t st.
Proof. destruct st; cbn. intros ->. reflexivity. Qed.

(** What a sequential [load_model] is, case by case. *)
Lemma load_model_cases w cfg st requested :
  let size := match requested with Some m => m | None => model_size cfg end in
  (is_some (_model st) = true /\ _model_size st = Some size
   /\ _is_loading st = false
   /\ load_model w cfg st requested =
      (st, Ok (mkLoadReport true size 0 (get_memory_usage w)
                 ("Model " ++ size ++ " already loaded"))))
  \/ (_is_loading st = true
      /\ load_model w cfg st requested =
         (st, Raise (ModelLoadFailed "Model is already being loaded"
                       (Some size) None)))
  \/ (_is_loading st = false /\ _executor_shutdown st = true
      /\ load_model w cfg st requested =
         (st, Raise (load_failure size submit_after_shutdown)))
  \/ (_is_loading st = false /\ _executor_shutdown st = false
      /\ exists cause,
          _load_model_sync w size = Raise cause
          /\ load_model w cfg st requested = (st, Raise (load_failure size cause)))
  \/ (_is_loading st = false /\ _executor_shutdown st = false
      /\ exists h,
          _load_model_sync w size = Ok h
          /\ load_model w cfg st requested =
             (set_loaded h size (time w 1) st,
              Ok (mkLoadReport true size
                    (py_round w (time w 2 - time w 0)%float 3)
                    (get_memory_usage w)
                    ("Model " ++ size ++ " loaded successfully")))).
Proof.
  intros size. unfold load_model, load_model_begin. fold size.
  destruct (_is_loading st) eqn:L.
  - right; left. rewrite andb_false_r. auto.
  - rewrite andb_true_r.
    destruct (is_some (_model st) && ostr_eqb (_model_size st) (Some size)) eqn:F.
    + left. apply andb_prop in F as [M E]. apply ostr_eqb_eq in E. auto.
    + cbn [set_is_loading _executor_shutdown].
      destruct (_executor_shutdown st) eqn:X.
      * right; right; left. rewrite (unset_after_set _ L). auto.
      * unfold load_model_resume.
        destruct (_load_model_sync w size) as [h|c] eqn:J.
        -- right; right; right; right. repeat split. exists h.
           split; [reflexivity|]. now rewrite (unset_after_load _ _ _ _ L).
        -- right; right; right; left. repeat split. exists c.
           split; [reflexivity|]. now rewrite (unset_after_set _ L).
Qed.

(** X1.  A load that succeeds leaves a model resident under the requested
    size: the report names that size, [get_model_info] answers
    [is_loaded = true] with that size (the placeholder "none" only for the
    empty name), and [is_model_loaded] and [get_current_model_size]
    agree. *)
Theorem successful_load_is_reported
        (w : World) (cfg : Settings) (st : WhisperService)
        (requested : option string) (report : LoadReport) :
  snd (load_model w cfg st requested) = Ok report ->
  let st' := fst (load_model w cfg st requested) in
  let size := match requested with Some m => m | None => model_size cfg end in
  lr_success report = true
  /\ lr_model_size report = size
  /\ is_model_loaded st' = true
  /\ get_current_model_size st' = Some size
  /\ forall w' now,
      mi_is_loaded (get_model_info w' st' now) = true
      /\ mi_model_size (get_model_info w' st' now) =
         (if truthy_str size then size else "none").
Proof.
  intros H st' size. subst st'. revert H.
  destruct (load_model_cases w cfg st requested)
    as [(M & S & _ & E)|[(_ & E)|[(_ & _ & E)|[(_ & _ & c & _ & E)
                                              |(_ & _ & h & _ & E)]]]];
    fold size in E; rewrite E; cbn [fst snd]; try discriminate;
    intros R; injection R as <-; cbn [lr_success lr_model_size].
  - unfold is_model_loaded, get_current_model_size, get_model_info;
      cbn [mi_is_loaded mi_model_size]. rewrite M, S. repeat split.
  - repeat split.
Qed.

Lemma successful_load_is_reported_witness :
  get_current_model_size
    (fst (load_model Sample.world default_settings Sample.fresh None)) =
  Some "base".
Proof.
  apply (@successful_load_is_reported Sample.world default_settings
           Sample.fresh None
           (mkLoadReport true "base" 2 512 "Model base loaded successfully")).
  reflexivity.
Defined.

(** X2.  Loading the size that is already loaded is a no-op: after a load
    that succeeded, a second load of the same size, in whatever world,
    answers "already loaded" with a load time of 0.0 and leaves the service
    unchanged; Whisper is not consulted. *)
Theorem repeated_load_is_a_no_op
        (w w' : World) (cfg : Settings) (st : WhisperService)
        (requested : option string) (report : LoadReport) :
  snd (load_model w cfg st requested) = Ok report ->
  let st' := fst (load_model w cfg st requested) in
  let size := match requested with Some m => m | None => model_size cfg end in
  load_model w' cfg st' requested =
  (st', Ok (mkLoadReport true size 0 (get_memory_usage w')
              ("Model " ++ size ++ " already loaded"))).
Proof.
  intros H st' size.
  assert (P : is_some (_model st') = true /\ _model_size st' = Some size
              /\ _is_loading st' = false).
  { subst st'. revert H.
    destruct (load_model_cases w cfg st requested)
      as [(M & S & L & E)|[(_ & E)|[(_ & _ & E)|[(_ & _ & c & _ & E)
                                                |(L & _ & h & _ & E)]]]];
      fold size in E; rewrite E; cbn [fst snd]; try discriminate; intros _.
    - auto.
    - cbn. auto. }
  destruct P as (M & S & L).
  unfold load_model, load_model_begin. fold size.
  now rewrite M, S, L, ostr_eqb_refl.
Qed.

Lemma repeated_load_is_a_no_op_witness :
  load_model (Sample.world_returning Sample.backward_result) default_settings
             Sample.loaded_base (Some "base") =
  (Sample.loaded_base,
   Ok (mkLoadReport true "base" 0 512 "Model base already loaded")).
Proof.
  apply (@repeated_load_is_a_no_op Sample.world
           (Sample.world_returning Sample.backward_result) default_settings
           Sample.fresh (Some "base")
           (mkLoadReport true "base" 2 512 "Model base loaded successfully")).
  reflexivity.
Defined.

Lemma load_model_touches w cfg st requested :
  let st' := fst (load_model w cfg st requested) in
  _active_transcriptions st' = _active_transcriptions st
  /\ _executor_shutdown st' = _executor_shutdown st
  /\ _start_time st' = _start_time st
  /\ _is_loading st' = _is_loading st.
Proof.
  intros st'. subst st'.
  destruct (load_model_cases w cfg st requested)
    as [(_ & _ & _ & E)|[(_ & E)|[(_ & _ & E)|[(_ & _ & c & _ & E)
                                              |(_ & _ & h & _ & E)]]]];
    rewrite E; cbn [fst]; repeat split.
Qed.

(** X3.  A sequential [load_model] touches the model, its size and its load
    time only: the active counter, the executor, the start time and the
    loading flag are after the call what they were before, whether the load
    succeeds, fails or is refused. *)
Theorem load_model_frame
        (w : World) (cfg : Settings) (st : WhisperService)
        (requested : option string) :
  let st' := fst (load_model w cfg st requested) in
  _active_transcriptions st' = _active_transcriptions st
  /\ _executor_shutdown st' = _executor_shutdown st
  /\ _start_time st' = _start_time st
  /\ _is_loading st' = _is_loading st
  /\ (is_ok (snd (load_model w cfg st requested)) = false -> st' = st).
Proof.
  intros st'. subst st'.
  destruct (load_model_cases w cfg st requested)
    as [(_ & _ & _ & E)|[(_ & E)|[(_ & _ & E)|[(_ & _ & c & _ & E)
                                              |(_ & _ & h & _ & E)]]]];
    rewrite E; cbn [fst snd is_ok]; repeat split; try discriminate.
Qed.

(** ** After cleanup *)

(** X4.  [cleanup] is final for sequential callers.  Once it has released
    the service (no load being in progress), every [load_model] fails with
    [ModelLoadFailed], the executor refusing the job, every
    [transcribe_audio] fails with [ModelNotLoaded], and neither changes the
    service; releasing again changes nothing either. *)
Theorem released_service_stays_released
        (w : World) (cfg : Settings) (st : WhisperService)
        (requested : option string) (a : TranscribeArgs) :
  _is_loading st = false ->
  let down := cleanup_release st in
  let size := match requested with Some m => m | None => model_size cfg end in
  load_model w cfg down requested =
  (down, Raise (load_failure size submit_after_shutdown))
  /\ transcribe_audio w cfg down a =
     (down, Raise (ModelNotLoaded "No model is currently loaded" None))
  /\ cleanup_release down = down.
Proof.
  intros L down size.
  destruct (cleanup_release_released st) as (X & M & _).
  assert (L' : _is_loading down = false).
  { subst down. unfold cleanup_release. cbn [shutdown_executor _model].
    destruct (is_some (_model st)); exact L. }
  split; [|split].
  - change (cleanup_release st) with down in X, M.
    destruct (load_model_cases w cfg down requested)
      as [(M' & _)|[(L'' & _)|[(_ & _ & E)|[(_ & X' & _)|(_ & X' & _)]]]].
    + rewrite M in M'. discriminate M'.
    + rewrite L' in L''. discriminate L''.
    + exact E.
    + rewrite X in X'. discriminate X'.
    + rewrite X in X'. discriminate X'.
  - now apply transcribe_audio_unloaded.
  - change (cleanup_release st) with down in X, M.
    unfold cleanup_release. cbn [shutdown_executor _model].
    rewrite M. cbn [is_some].
    destruct down; cbn in *. now subst.
Qed.

Lemma released_service_stays_released_witness :
  load_model Sample.world default_settings
             (cleanup_release Sample.loaded_base) (Some "base") =
  (cleanup_release Sample.loaded_base,
   Raise (load_failure "base" submit_after_shutdown)).
Proof.
  apply (@released_service_stays_released Sample.world default_settings
           Sample.loaded_base (Some "base")
           (Sample.request "/tmp/a.wav" None)).
  reflexivity.
Defined.

(** ** transcribe_audio *)

(** The body run to its return hands the service back as it found it. *)
Lemma run_body_restores w cfg st a now :
  fst (run_body w (transcribe_body w cfg st a now) a) = st.
Proof.
  pose proof (transcribe_body_state w cfg st a now) as H.
  destruct (transcribe_body w cfg st a now) as [st' r|st' fi pf t0];
    subst st'; cbn [run_body fst]; [reflexivity|].
  rewrite transcribe_finish_state. apply add_active_cancel.
Qed.

(** What the body raises: always the same wrapper around the cause. *)
Lemma run_body_failure w cfg st a now e :
  snd (run_body w (transcribe_body w cfg st a now) a) = Raise e ->
  exists cause,
    e = TranscriptionFailed "Transcription failed" (Some cause)
                            (Some (file_path a)).
Proof.
  unfold transcribe_body, returned, transcription_failed.
  destruct (validate_audio_file w cfg (file_path a)) as [fi|e0];
    cbn [run_body fst snd].
  - destruct (preprocess_audio w cfg (file_path a)) as [pf|e0];
      cbn [run_body fst snd].
    + destruct (_executor_shutdown (add_active 1 st)); cbn [run_body fst snd].
      * intros H; injection H as <-. eexists; reflexivity.
      * unfold transcribe_finish, transcription_failed.
        destruct (bind _ _); cbn [snd]; [discriminate|].
        intros H; injection H as <-. eexists; reflexivity.
    + intros H; injection H as <-. eexists; reflexivity.
  - intros H; injection H as <-. eexists; reflexivity.
Qed.

(** What a successful run of the body went through. *)
Lemma run_body_success w cfg st a now response :
  snd (run_body w (transcribe_body w cfg st a now) a) = Ok response ->
  exists fi pf wr,
    validate_audio_file w cfg (file_path a) = Ok fi
    /\ preprocess_audio w cfg (file_path a) = Ok pf
    /\ _executor_shutdown st = false
    /\ _transcribe_sync w (add_active 1 st) pf (language a) (temperature a)
                        (Service.task a) = Ok wr
    /\ _create_transcription_response w (add_active 1 st) wr fi
                                      (time w 4 - now)%float = Ok response.
Proof.
  unfold transcribe_body, returned, transcription_failed.
  destruct (validate_audio_file w cfg (file_path a)) as [fi|e0];
    cbn [run_body fst snd]; [|discriminate].
  destruct (preprocess_audio w cfg (file_path a)) as [pf|e0];
    cbn [run_body fst snd]; [|discriminate].
  cbn [add_active _executor_shutdown].
  destruct (_executor_shutdown st); cbn [run_body fst snd]; [discriminate|].
  unfold transcribe_finish, transcription_failed.
  destruct (_transcribe_sync w (add_active 1 st) pf (language a)
                             (temperature a) (Service.task a)) as [wr|e0] eqn:T;
    cbn [bind]; [|discriminate].
  destruct (_create_transcription_response w (add_active 1 st) wr fi _)
    as [r|e0] eqn:C; cbn [snd]; [|discriminate].
  intros H; injection H as <-.
  exists fi, pf, wr. repeat split; assumption.
Qed.

Lemma transcribe_audio_direct w cfg st a h :
  _model st = Some h ->
  truthy_ostr (a_model_size a) && negb (ostr_eqb (a_model_size a) (_model_size st))
  = false ->
  transcribe_audio w cfg st a =
  run_body w (transcribe_body w cfg st a (time w 0)) a.
Proof.
  intros M C. unfold transcribe_audio, transcribe_begin. now rewrite M, C.
Qed.

(** X5.  A transcription that asks for no other model than the loaded one
    leaves the service exactly as it found it, whether it succeeds or
    fails; in every case the executor, the start time and the loading flag
    are untouched. *)
Theorem transcribe_audio_frame
        (w : World) (cfg : Settings) (st : WhisperService) (a : TranscribeArgs) :
  let st' := fst (transcribe_audio w cfg st a) in
  (truthy_ostr (a_model_size a)
   && negb (ostr_eqb (a_model_size a) (_model_size st)) = false -> st' = st)
  /\ _executor_shutdown st' = _executor_shutdown st
  /\ _start_time st' = _start_time st
  /\ _is_loading st' = _is_loading st.
Proof.
  intros st'. subst st'.
  destruct (_model st) as [h|] eqn:M;
    [|rewrite (transcribe_audio_unloaded w cfg st a M); cbn; auto].
  destruct (truthy_ostr (a_model_size a) && _) eqn:C.
  - rewrite (transcribe_audio_loads_first w cfg st a M C).
    split; [discriminate|].
    destruct (load_model_touches w cfg st (a_model_size a)) as (_ & X & T & L).
    destruct (load_model w cfg st (a_model_size a)) as [st1 [r|e]];
      cbn [fst] in *; [|auto].
    rewrite run_body_restores. auto.
  - rewrite (transcribe_audio_direct w cfg st a M C), run_body_restores. auto.
Qed.

(** ** Response assembly in closed form *)

Lemma is_ok_build_segments w raws :
  is_ok (build_segments w raws) = forallb forward raws.
Proof.
  rewrite build_segments_closed.
  destruct (first_backward raws) as [seg|] eqn:F; cbn [is_ok].
  - destruct (forallb forward raws) eqn:A; [|reflexivity].
    apply first_backward_none in A. congruence.
  - symmetry. now apply first_backward_none.
Qed.

(** X6.  Building the segments either keeps every raw segment, one segment
    each and in the same order (start and end with 0.0 for a missing key,
    the text, of code points up to U+00FF, stripped of the white space
    around it, no confidence), or
    raises the end-time validation error of the first raw segment that ends
    at or before its start; it succeeds exactly when there is no such
    segment, so no segment it builds ends at or before its start. *)
Theorem segments_follow_raw_segments (w : World) (raws : list RawSegment) :
  is_ok (build_segments w raws) = forallb forward raws
  /\ (forall segs,
         build_segments w raws = Ok segs ->
         segs = map to_segment raws
         /\ List.length segs = List.length raws
         /\ Forall (fun s => PrimFloat.leb (end_time s) (start_time s) = false
                             /\ confidence s = None) segs)
  /\ (forall e,
         build_segments w raws = Raise e ->
         exists seg,
           first_backward raws = Some seg
           /\ In seg raws
           /\ forward seg = false
           /\ e = end_time_error w (get_default (raw_end seg) 0%float)).
Proof.
  split; [apply is_ok_build_segments|].
  rewrite build_segments_closed.
  destruct (first_backward raws) as [seg|] eqn:F; split; try discriminate.
  - intros e H; injection H as <-. exists seg.
    destruct (first_backward_some _ F) as [I B]. repeat split; assumption.
  - intros segs H; injection H as <-. split; [reflexivity|].
    split; [apply length_map|].
    apply first_backward_none in F. rewrite forallb_forall in F.
    apply Forall_forall. intros s I. apply in_map_iff in I as (r & <- & I).
    specialize (F r I). unfold forward in F.
    cbn. split; [|reflexivity]. now destruct (PrimFloat.leb _ _).
Qed.

(** X7.  Response assembly can fail in two ways only: a raw segment that
    ends at or before its start, or no recorded model size.  The confidence
    score never makes it fail; when it succeeds, the response carries the
    text (of code points up to U+00FF) stripped of the white space around
    it, the language of the
    inference, the duration of the file information, the segments of the raw
    segments, the derived confidence, the recorded size as [model_used] and
    the processing time rounded to three places. *)
Theorem assembly_fails_on_segments_or_size_only
        (w : World) (st : WhisperService) (wr : WhisperResult) (fi : FileInfo)
        (elapsed : float) :
  let raws := get_default (wr_segments wr) [] in
  is_ok (_create_transcription_response w st wr fi elapsed) =
  forallb forward raws && is_some (_model_size st)
  /\ forall response,
      _create_transcription_response w st wr fi elapsed = Ok response ->
      r_text response = strip (get_default (wr_text wr) "")
      /\ r_language response = wr_language wr
      /\ r_duration response = fi_duration fi
      /\ r_segments response = map to_segment raws
      /\ r_confidence_score response = confidence_score_of wr
      /\ _model_size st = Some (r_model_used response)
      /\ r_processing_time response = py_round w elapsed 3.
Proof.
  intros raws. rewrite create_response_closed. cbn zeta. fold raws.
  pose proof (is_ok_build_segments w raws) as A.
  rewrite build_segments_closed in A.
  destruct (first_backward raws); cbn [is_ok] in A; rewrite <- A; cbn [andb].
  - split; [reflexivity|discriminate].
  - destruct (_model_size st) as [size|]; cbn [is_ok is_some].
    + split; [reflexivity|]. intros r H; injection H as <-. repeat split.
    + split; [reflexivity|discriminate].
Qed.

(** ** validate_audio_file *)

(** The [try] and its two [except] clauses resolved: the checks in the
    order the code makes them. *)
Lemma validate_audio_file_decided w cfg p :
  foreign (os_path_getsize w p) ->
  validate_audio_file w cfg p =
  if negb (os_path_exists w p)
  then Raise (FileSystemError "File does not exist" None (Some p) None)
  else
    match os_path_getsize w p with
    | Raise e => Raise (validation_wrapper e)
    | Ok n =>
        if negb (validate_file_size cfg n)
        then Raise (FileTooLarge FileTooLarge_message (Some n)
                      (Some (max_file_size_bytes cfg)))
        else if negb (validate_file_format cfg p)
        then Raise (InvalidAudioFormat InvalidAudioFormat_message
                      (Some (detect_audio_format w p))
                      (Some (supported_formats cfg)))
        else
          match get_audio_info w p with
          | Raise e => Raise (validation_wrapper e)
          | Ok info =>
              Ok (mkFileInfo true (detect_audio_format w p) n
                             (ai_duration info) (ai_sample_rate info))
          end
    end.
Proof.
  intros G. unfold validate_audio_file, validate_audio_file_body.
  destruct (os_path_exists w p); cbn [negb]; [|reflexivity].
  destruct (os_path_getsize w p) as [n|e]; cbn [bind].
  - destruct (validate_file_size cfg n); cbn [negb]; [|reflexivity].
    destruct (validate_file_format cfg p); cbn [negb]; [|reflexivity].
    unfold get_audio_info.
    destruct (bind (librosa_get_duration w p) _); reflexivity.
  - unfold reraised_as_is. now rewrite (G e eq_refl).
Qed.

Lemma validate_ok_inv w cfg p fi :
  validate_audio_file w cfg p = Ok fi ->
  os_path_exists w p = true
  /\ os_path_getsize w p = Ok (fi_file_size fi)
  /\ (fi_file_size fi <= max_file_size_bytes cfg)%Z
  /\ validate_file_format cfg p = true
  /\ fi_format fi = detect_audio_format w p
  /\ librosa_get_duration w p = Ok (fi_duration fi)
  /\ librosa_get_samplerate w p = Ok (fi_sample_rate fi)
  /\ fi_valid fi = true.
Proof.
  unfold validate_audio_file, validate_audio_file_body, get_audio_info.
  destruct (os_path_exists w p); cbn [negb]; [|discriminate].
  destruct (os_path_getsize w p) as [n|e] eqn:S; cbn [bind];
    [|destruct (reraised_as_is e); discriminate].
  unfold validate_file_size.
  destruct (Z.leb_spec n (max_file_size_bytes cfg)) as [Le|Gt]; cbn [negb];
    [|discriminate].
  destruct (validate_file_format cfg p); cbn [negb]; [|discriminate].
  destruct (librosa_get_duration w p) as [d|e]; cbn [bind]; [|discriminate].
  destruct (librosa_get_samplerate w p) as [sr|e]; cbn [bind]; [|discriminate].
  intros Hi; injection Hi as <-. cbn. repeat split; assumption.
Qed.

(** X8.  [validate_audio_file] makes its checks in a fixed order and raises
    one of four exceptions only.  A path that does not exist gives
    [FileSystemError]; otherwise a size above the ceiling gives
    [FileTooLarge], whatever the extension; otherwise an extension outside
    the supported formats gives [InvalidAudioFormat], whatever the content;
    anything else that goes wrong (the size cannot be read, the audio
    cannot be decoded) gives [AudioProcessingError] with the step
    "validate_audio_file". *)
Theorem validation_raises_four_kinds_in_order
        (w : World) (cfg : Settings) (p : string) (e : exn) :
  foreign (os_path_getsize w p) ->
  validate_audio_file w cfg p = Raise e ->
  (os_path_exists w p = false
   /\ e = FileSystemError "File does not exist" None (Some p) None
   /\ raised_as FileSystemErrorC e)
  \/ (exists n,
         os_path_exists w p = true /\ os_path_getsize w p = Ok n
         /\ (max_file_size_bytes cfg < n)%Z
         /\ e = FileTooLarge FileTooLarge_message (Some n)
                             (Some (max_file_size_bytes cfg))
         /\ raised_as FileTooLargeC e)
  \/ (exists n,
         os_path_exists w p = true /\ os_path_getsize w p = Ok n
         /\ (n <= max_file_size_bytes cfg)%Z
         /\ validate_file_format cfg p = false
         /\ e = InvalidAudioFormat InvalidAudioFormat_message
                                   (Some (detect_audio_format w p))
                                   (Some (supported_formats cfg))
         /\ raised_as InvalidAudioFormatC e)
  \/ (exists cause,
         os_path_exists w p = true
         /\ (os_path_getsize w p = Raise cause
             \/ get_audio_info w p = Raise cause)
         /\ e = validation_wrapper cause
         /\ raised_as AudioProcessingErrorC e
         /\ lookup "processing_step" (details_of e) =
            Some (DStr "validate_audio_file")).
Proof.
  intros G. rewrite (validate_audio_file_decided w cfg p G).
  destruct (os_path_exists w p); cbn [negb].
  - destruct (os_path_getsize w p) as [n|c] eqn:S.
    + unfold validate_file_size.
      destruct (Z.leb_spec n (max_file_size_bytes cfg)) as [Le|Gt]; cbn [negb].
      * destruct (validate_file_format cfg p) eqn:F; cbn [negb].
        -- destruct (get_audio_info w p) as [info|c] eqn:I; [discriminate|].
           intros Hi; injection Hi as <-. right; right; right.
           exists c. repeat split; auto.
           unfold validation_wrapper, AudioProcessingError, opt_entry, details_of.
           destruct (truthy_str (str c)); reflexivity.
        -- intros Hi; injection Hi as <-. right; right; left.
           exists n. repeat split; auto.
      * intros Hi; injection Hi as <-. right; left. exists n. repeat split; auto.
    + intros Hi; injection Hi as <-. right; right; right.
      exists c. repeat split; auto.
      unfold validation_wrapper, AudioProcessingError, opt_entry, details_of.
      destruct (truthy_str (str c)); reflexivity.
  - intros Hi; injection Hi as <-. left. repeat split.
Qed.

Lemma sample_getsize_is_foreign p : foreign (os_path_getsize Sample.world p).
Proof.
  intros e. cbn.
  destruct (_ || _); [discriminate|].
  destruct (p =? "/tmp/big.wav"); [discriminate|].
  intros H; injection H as <-. reflexivity.
Qed.

Lemma validation_raises_four_kinds_in_order_witness :
  raised_as FileTooLargeC
    (FileTooLarge FileTooLarge_message (Some (30 * 1024 * 1024)%Z)
                  (Some (max_file_size_bytes default_settings))).
Proof.
  destruct (@validation_raises_four_kinds_in_order
              Sample.world default_settings "/tmp/big.wav"
              (FileTooLarge FileTooLarge_message (Some (30 * 1024 * 1024)%Z)
                            (Some (max_file_size_bytes default_settings)))
              (sample_getsize_is_foreign "/tmp/big.wav") eq_refl)
    as [(F & _)|[(n & _ & _ & _ & _ & R)|[(n & _ & _ & _ & F & _)
                                         |(c & _ & _ & F & _)]]].
  - discriminate F.
  - exact R.
  - discriminate F.
  - discriminate F.
Defined.

(** X9.  A file that [validate_audio_file] accepts exists, is no larger
    than the configured ceiling, has an extension among the supported
    formats and was decoded: the file information carries its size, the
    duration and sample rate librosa reports, and the detected format. *)
Theorem validated_file_meets_the_limits
        (w : World) (cfg : Settings) (p : string) (fi : FileInfo) :
  validate_audio_file w cfg p = Ok fi ->
  os_path_exists w p = true
  /\ os_path_getsize w p = Ok (fi_file_size fi)
  /\ (fi_file_size fi <= max_file_size_mb cfg * 1024 * 1024)%Z
  /\ In (get_file_extension p) (supported_formats cfg)
  /\ fi_format fi = detect_audio_format w p
  /\ librosa_get_duration w p = Ok (fi_duration fi)
  /\ librosa_get_samplerate w p = Ok (fi_sample_rate fi)
  /\ fi_valid fi = true.
Proof.
  intros H. apply validate_ok_inv in H as (A & B & C & D & E & F & G & I).
  repeat split; try assumption.
  unfold validate_file_format, supported_formats_set in D.
  apply existsb_exists in D as (x & Hx & Ex).
  apply String.eqb_eq in Ex. now subst.
Qed.

Lemma validated_file_meets_the_limits_witness :
  In (get_file_extension "/tmp/a.wav") (supported_formats default_settings).
Proof.
  apply (@validated_file_meets_the_limits Sample.world default_settings
           "/tmp/a.wav" (mkFileInfo true "wav" 2048 3 16000)).
  reflexivity.
Defined.

(** X10.  Acceptance does not depend on the content signature: two worlds
    that agree on the existence, the size and the decoding of a file give
    the same verdict, with the same error text, whatever the first bytes of
    the file are; only the reported format can differ. *)
Theorem validation_ignores_the_signature
        (w w' : World) (cfg : Settings) (p : string) :
  os_path_exists w p = os_path_exists w' p ->
  os_path_getsize w p = os_path_getsize w' p ->
  librosa_get_duration w p = librosa_get_duration w' p ->
  librosa_get_samplerate w p = librosa_get_samplerate w' p ->
  match validate_audio_file w cfg p, validate_audio_file w' cfg p with
  | Ok fi, Ok fi' =>
      fi' = mkFileInfo (fi_valid fi) (detect_audio_format w' p)
                       (fi_file_size fi) (fi_duration fi) (fi_sample_rate fi)
  | Raise e, Raise e' => kind e = kind e' /\ str e = str e'
  | _, _ => False
  end.
Proof.
  intros E S D R.
  unfold validate_audio_file, validate_audio_file_body, get_audio_info.
  rewrite <- E, <- S, <- D, <- R.
  destruct (os_path_exists w p); cbn [negb]; [|split; reflexivity].
  destruct (os_path_getsize w p) as [n|e]; cbn [bind];
    [|destruct (reraised_as_is e); split; reflexivity].
  destruct (validate_file_size cfg n); cbn [negb]; [|split; reflexivity].
  destruct (validate_file_format cfg p); cbn [negb]; [|split; reflexivity].
  destruct (librosa_get_duration w p); cbn [bind]; [|split; reflexivity].
  destruct (librosa_get_samplerate w p); cbn [bind]; [|split; reflexivity].
  reflexivity.
Qed.

Lemma validation_ignores_the_signature_witness :
  validate_audio_file Sample.world default_settings "/tmp/a.wav" =
    Ok (mkFileInfo true "wav" 2048 3 16000)
  /\ validate_audio_file Cases.mislabelled default_settings "/tmp/a.wav" =
    Ok (mkFileInfo true "ogg" 2048 3 16000).
Proof.
  pose proof (@validation_ignores_the_signature Sample.world Cases.mislabelled
                default_settings "/tmp/a.wav"
                eq_refl eq_refl eq_refl eq_refl) as H.
  destruct (validate_audio_file Sample.world default_settings "/tmp/a.wav")
    as [fi|e] eqn:V; [|discriminate V].
  destruct (validate_audio_file Cases.mislabelled default_settings "/tmp/a.wav")
    as [fi'|e'] eqn:V'; [|contradiction].
  injection V as <-. split; [reflexivity|]. rewrite H. reflexivity.
Defined.

(** ** transcribe_audio: what comes out *)

Lemma load_ok_resident w cfg st requested report :
  snd (load_model w cfg st requested) = Ok report ->
  is_some (_model (fst (load_model w cfg st requested))) = true
  /\ _model_size (fst (load_model w cfg st requested)) =
     Some (match requested with Some m => m | None => model_size cfg end).
Proof.
  destruct (load_model_cases w cfg st requested)
    as [(M & S & _ & E)|[(_ & E)|[(_ & _ & E)|[(_ & _ & c & _ & E)
                                              |(_ & _ & h & _ & E)]]]];
    rewrite E; cbn [fst snd]; try discriminate; intros _; auto.
Qed.

Lemma load_raise_form w cfg st requested e :
  snd (load_model w cfg st requested) = Raise e ->
  fst (load_model w cfg st requested) = st /\ raised_as ModelLoadFailedC e.
Proof.
  destruct (load_model_cases w cfg st requested)
    as [(M & S & _ & E)|[(_ & E)|[(_ & _ & E)|[(_ & _ & c & _ & E)
                                              |(_ & _ & h & _ & E)]]]];
    rewrite E; cbn [fst snd]; try discriminate;
    intros H; injection H as <-; repeat split.
Qed.

Lemma body_success_facts w cfg st a now response :
  snd (run_body w (transcribe_body w cfg st a now) a) = Ok response ->
  _model_size st = Some (r_model_used response)
  /\ librosa_get_duration w (file_path a) = Ok (r_duration response)
  /\ Forall (fun s => PrimFloat.leb (end_time s) (start_time s) = false
                      /\ confidence s = None) (r_segments response)
  /\ unit_interval_ok (r_confidence_score response) = true
  /\ _executor_shutdown st = false.
Proof.
  intros H. apply run_body_success in H as (fi & pf & wr & V & _ & X & _ & C).
  apply validate_ok_inv in V as (_ & _ & _ & _ & _ & D & _).
  rewrite create_response_closed in C. cbn zeta in C.
  destruct (first_backward (get_default (wr_segments wr) [])) eqn:F;
    [discriminate C|].
  cbn [add_active _model_size] in C.
  destruct (_model_size st) as [size|]; [|discriminate C].
  injection C as <-. cbn.
  repeat split; try assumption; [|apply confidence_in_unit_interval].
  apply first_backward_none in F. rewrite forallb_forall in F.
  apply Forall_forall. intros s I. apply in_map_iff in I as (r & <- & I).
  specialize (F r I). unfold forward in F.
  cbn. split; [|reflexivity]. now destruct (PrimFloat.leb _ _).
Qed.

Lemma truthy_request_matches a st size :
  a_model_size a = Some size -> truthy_str size = true ->
  truthy_ostr (a_model_size a) && negb (ostr_eqb (a_model_size a) (_model_size st))
  = false ->
  _model_size st = Some size.
Proof.
  intros -> T. cbn [truthy_ostr]. rewrite T. cbn [andb].
  intros H. apply negb_false_iff in H. apply ostr_eqb_eq in H. congruence.
Qed.

(** X11.  A call of [transcribe_audio] that nothing interleaves with and
    that succeeds was served by a resident model, which is the one the
    response names; when the request named a size, it is that size.  The
    duration is the one librosa reports for the file as submitted, no
    segment ends at or before its start (which leaves a NaN time through)
    and none has a confidence of its own, and the overall confidence, if
    any, lies between 0 and 1. *)
Theorem successful_transcription_facts
        (w : World) (cfg : Settings) (st : WhisperService) (a : TranscribeArgs)
        (response : TranscriptionResponse) :
  snd (transcribe_audio w cfg st a) = Ok response ->
  let st' := fst (transcribe_audio w cfg st a) in
  is_model_loaded st' = true
  /\ get_current_model_size st' = Some (r_model_used response)
  /\ (forall size, a_model_size a = Some size -> truthy_str size = true ->
                   r_model_used response = size)
  /\ librosa_get_duration w (file_path a) = Ok (r_duration response)
  /\ Forall (fun s => PrimFloat.leb (end_time s) (start_time s) = false
                      /\ confidence s = None) (r_segments response)
  /\ unit_interval_ok (r_confidence_score response) = true.
Proof.
  intros H st'. subst st'. revert H.
  unfold is_model_loaded, get_current_model_size.
  destruct (_model st) as [h|] eqn:M;
    [|rewrite (transcribe_audio_unloaded w cfg st a M); discriminate].
  destruct (truthy_ostr (a_model_size a)
            && negb (ostr_eqb (a_model_size a) (_model_size st))) eqn:C.
  - rewrite (transcribe_audio_loads_first w cfg st a M C).
    pose proof (@load_ok_resident w cfg st (a_model_size a)) as R.
    destruct (load_model w cfg st (a_model_size a)) as [st1 [r|e]];
      cbn [fst snd] in *; [|discriminate].
    destruct (R r eq_refl) as [R1 R2]. intros H.
    rewrite run_body_restores.
    apply body_success_facts in H as (S & D & F & U & _).
    repeat split; try assumption.
    intros size E _. rewrite E in R2. congruence.
  - rewrite (transcribe_audio_direct w cfg st a M C). intros H.
    rewrite run_body_restores, M.
    apply body_success_facts in H as (S & D & F & U & _).
    repeat split; try assumption.
    intros size E T.
    pose proof (truthy_request_matches a st E T C). congruence.
Qed.

Lemma successful_transcription_facts_witness :
  get_current_model_size
    (fst (transcribe_audio Sample.world default_settings Sample.loaded_base
            (Sample.request "/tmp/a.wav" (Some "large")))) = Some "large".
Proof.
  apply (@successful_transcription_facts Sample.world default_settings
           Sample.loaded_base (Sample.request "/tmp/a.wav" (Some "large"))
           (mkResponse "hello world" (Some "en") 3
              [mkSegment 0 1.5 "hello" None; mkSegment 1.5 3 "world" None]
              (Some 0.8%float) "large" 1)).
  vm_compute. reflexivity.
Defined.

(** X12.  [transcribe_audio] raises three exceptions only: [ModelNotLoaded]
    when nothing is loaded, the [ModelLoadFailed] of the load it asked for,
    which leaves the service untouched, and [TranscriptionFailed] for
    everything that goes wrong from validation on; this last one always has
    the message "Transcription failed" and names the file it was given. *)
Theorem transcribe_audio_raises_three_kinds
        (w : World) (cfg : Settings) (st : WhisperService) (a : TranscribeArgs)
        (e : exn) :
  snd (transcribe_audio w cfg st a) = Raise e ->
  (_model st = None
   /\ e = ModelNotLoaded "No model is currently loaded" None
   /\ raised_as ModelNotLoadedC e)
  \/ (raised_as ModelLoadFailedC e
      /\ fst (transcribe_audio w cfg st a) = st
      /\ truthy_ostr (a_model_size a) = true)
  \/ (exists cause,
         e = TranscriptionFailed "Transcription failed" (Some cause)
                                 (Some (file_path a))
         /\ raised_as TranscriptionFailedC e
         /\ (truthy_str (file_path a) = true ->
             lookup "file_path" (details_of e) = Some (DStr (file_path a)))).
Proof.
  assert (T : forall cause,
             let e' := TranscriptionFailed "Transcription failed" (Some cause)
                                           (Some (file_path a)) in
             raised_as TranscriptionFailedC e'
             /\ (truthy_str (file_path a) = true ->
                 lookup "file_path" (details_of e') = Some (DStr (file_path a)))).
  { intros cause e'. split; [split; reflexivity|]. intros P. subst e'.
    unfold TranscriptionFailed, opt_entry, details_of. rewrite P.
    destruct (truthy_str cause); reflexivity. }
  destruct (_model st) as [h|] eqn:M.
  - destruct (truthy_ostr (a_model_size a)
            && negb (ostr_eqb (a_model_size a) (_model_size st))) eqn:C.
    + rewrite (transcribe_audio_loads_first w cfg st a M C).
      pose proof (@load_raise_form w cfg st (a_model_size a)) as R.
      destruct (load_model w cfg st (a_model_size a)) as [st1 [r|e1]];
        cbn [fst snd] in *.
      * intros H. apply run_body_failure in H as (cause & ->).
        right; right. exists cause. split; [reflexivity|]. apply T.
      * intros H; injection H as <-. destruct (R e1 eq_refl) as [-> R2].
        right; left. apply andb_prop in C as [C _]. auto.
    + rewrite (transcribe_audio_direct w cfg st a M C).
      intros H. apply run_body_failure in H as (cause & ->).
      right; right. exists cause. split; [reflexivity|]. apply T.
  - rewrite (transcribe_audio_unloaded w cfg st a M). cbn [snd].
    intros H; injection H as <-. left. repeat split.
Qed.

Lemma transcribe_audio_raises_three_kinds_witness :
  lookup "file_path"
    (details_of (TranscriptionFailed "Transcription failed"
                   (Some "File size exceeds maximum allowed size")
                   (Some "/tmp/big.wav"))) = Some (DStr "/tmp/big.wav").
Proof.
  destruct (@transcribe_audio_raises_three_kinds
              Sample.world default_settings Sample.loaded_base
              (Sample.request "/tmp/big.wav" None)
              (TranscriptionFailed "Transcription failed"
                 (Some "File size exceeds maximum allowed size")
                 (Some "/tmp/big.wav")) eq_refl)
    as [(F & _)|[((F & _) & _)|(c & _ & _ & L)]].
  - discriminate F.
  - discriminate F.
  - apply L. reflexivity.
Defined.

(** X13.  The model switch a transcription asks for is not undone when the
    transcription fails.  With a model resident and another size requested,
    either the load fails and nothing changes, or the load succeeds and the
    requested size stays loaded whatever becomes of the transcription. *)
Theorem model_switch_outlives_the_transcription
        (w : World) (cfg : Settings) (st : WhisperService) (a : TranscribeArgs)
        (h : ModelHandle) (size : string) :
  _model st = Some h ->
  a_model_size a = Some size ->
  truthy_str size = true ->
  _model_size st <> Some size ->
  let st' := fst (transcribe_audio w cfg st a) in
  match snd (transcribe_audio w cfg st a) with
  | Ok response =>
      get_current_model_size st' = Some size /\ r_model_used response = size
  | Raise e =>
      (kind e = Some ModelLoadFailedC /\ st' = st)
      \/ (kind e = Some TranscriptionFailedC
          /\ get_current_model_size st' = Some size
          /\ is_model_loaded st' = true)
  end.
Proof.
  intros M A T N st'. subst st'.
  assert (C : truthy_ostr (a_model_size a)
              && negb (ostr_eqb (a_model_size a) (_model_size st)) = true).
  { rewrite A. cbn [truthy_ostr]. rewrite T. cbn [andb].
    apply negb_true_iff. destruct (ostr_eqb (Some size) (_model_size st)) eqn:E;
      [|reflexivity].
    apply ostr_eqb_eq in E. congruence. }
  rewrite (transcribe_audio_loads_first w cfg st a M C).
  pose proof (@load_ok_resident w cfg st (a_model_size a)) as R.
  pose proof (@load_raise_form w cfg st (a_model_size a)) as F.
  destruct (load_model w cfg st (a_model_size a)) as [st1 [r|e1]];
    cbn [fst snd] in *.
  - destruct (R r eq_refl) as [R1 R2]. rewrite A in R2.
    rewrite run_body_restores.
    destruct (snd (run_body w (transcribe_body w cfg st1 a (time w 3)) a))
      as [response|e] eqn:B.
    + apply body_success_facts in B as (S & _).
      unfold get_current_model_size. split; [exact R2|congruence].
    + right. apply run_body_raises in B.
      unfold get_current_model_size, is_model_loaded. auto.
  - destruct (F e1 eq_refl) as [-> [K _]]. left. auto.
Qed.

Lemma model_switch_outlives_the_transcription_witness :
  get_current_model_size
    (fst (transcribe_audio Sample.world default_settings Sample.loaded_base
            (Sample.request "/tmp/big.wav" (Some "large")))) = Some "large"
  /\ is_ok (snd (transcribe_audio Sample.world default_settings
                   Sample.loaded_base
                   (Sample.request "/tmp/big.wav" (Some "large")))) = false.
Proof.
  split; [|reflexivity].
  pose proof (@model_switch_outlives_the_transcription
                Sample.world default_settings Sample.loaded_base
                (Sample.request "/tmp/big.wav" (Some "large"))
                (Handle 1) "large" eq_refl eq_refl eq_refl) as H.
  cbv zeta in H.
  destruct (snd (transcribe_audio Sample.world default_settings
                   Sample.loaded_base
                   (Sample.request "/tmp/big.wav" (Some "large")))) eqn:E.
  - apply H. discriminate.
  - destruct H as [[K _]|[_ [S _]]].
    + discriminate.
    + vm_compute in E. injection E as <-. discriminate K.
    + exact S.
Defined.

(** X14.  What went wrong during preprocessing does not reach the caller of
    [transcribe_audio]: [preprocess_audio] wraps every failure in an
    [AudioProcessingError] whose message is "Failed to preprocess audio",
    and the [TranscriptionFailed] the caller receives carries that message
    as its original error, not the text of the underlying exception. *)
Theorem preprocessing_cause_is_not_surfaced
        (w : World) (cfg : Settings) (st : WhisperService) (a : TranscribeArgs)
        (fi : FileInfo) (cause : exn) (now : float) :
  validate_audio_file w cfg (file_path a) = Ok fi ->
  preprocess_audio w cfg (file_path a) = Raise cause ->
  raised_as AudioProcessingErrorC cause
  /\ str cause = "Failed to preprocess audio"
  /\ lookup "processing_step" (details_of cause) = Some (DStr "preprocess_audio")
  /\ transcribe_body w cfg st a now =
     BReturned st
       (Raise (TranscriptionFailed "Transcription failed"
                 (Some "Failed to preprocess audio") (Some (file_path a)))).
Proof.
  intros V P.
  assert (F : exists inner,
             cause = AudioProcessingError "Failed to preprocess audio"
                       (Some (str inner)) (Some "preprocess_audio")).
  { revert P. unfold preprocess_audio.
    destruct (bind (get_audio_info w (file_path a)) _) as [out|inner];
      [discriminate|].
    intros H; injection H as <-. now exists inner. }
  destruct F as (inner & ->).
  repeat split.
  - unfold AudioProcessingError, opt_entry, details_of.
    destruct (truthy_str (str inner)); reflexivity.
  - unfold transcribe_body. rewrite V, P.
    unfold returned, transcription_failed. cbn [fst snd str AudioProcessingError].
    now rewrite add_active_cancel.
Qed.

(** ** Reachable states *)

(** X15.  In every state the service can reach under concurrent callers the
    active counter is not negative, at most one load is in progress, and the
    loading flag is set exactly while one is. *)
Theorem one_load_at_a_time (s : system) :
  reachable s ->
  (0 <= _active_transcriptions (svc s))%Z
  /\ (loads_in_progress s <= 1)%Z
  /\ (_is_loading (svc s) = true <-> loads_in_progress s = 1%Z)
  /\ (_is_loading (svc s) = false <-> loads_in_progress s = 0%Z).
Proof.
  intros R. apply reachable_consistent in R as [_ C L].
  pose proof (count_nonneg awaits_inference (tasks s)) as N.
  unfold counted in C. rewrite C.
  destruct (_is_loading (svc s)); rewrite L; repeat split;
    try lia; try discriminate; intros; try reflexivity; lia.
Qed.

Lemma one_load_at_a_time_witness :
  (loads_in_progress
     (run [CallLoad Sample.world default_settings (Some "base") 0%float;
           CallLoad Sample.world default_settings (Some "large") 0%float]
          (boot 0%float)) <= 1)%Z.
Proof.
  apply one_load_at_a_time. exists 0%float. eexists. reflexivity.
Defined.


Lemma preprocessing_cause_is_not_surfaced_witness :
  transcribe_body Cases.full_disk default_settings Sample.loaded_base
                  (Sample.request "/tmp/a.wav" None) 0%float =
  BReturned Sample.loaded_base
    (Raise (TranscriptionFailed "Transcription failed"
              (Some "Failed to preprocess audio") (Some "/tmp/a.wav"))).
Proof.
  apply (@preprocessing_cause_is_not_surfaced
           Cases.full_disk default_settings Sample.loaded_base
           (Sample.request "/tmp/a.wav" None)
           (mkFileInfo true "wav" 2048 3 16000)
           (AudioProcessingError "Failed to preprocess audio"
              (Some "No space left on device") (Some "preprocess_audio"))
           0%float); reflexivity.
Defined.

(** ** main.py *)

(** X16.  [POST /model/load/{model_size}] loads configured sizes only.  A
    size outside [available_model_sizes] is answered 400 and the service is
    not touched; any failure of the load is answered 500 with the text of
    the exception; an answer of success means the size is among the
    configured ones and is now the loaded model. *)
Theorem load_endpoint_loads_configured_sizes_only
        (w : World) (cfg : Settings) (st : WhisperService) (size : string) :
  let r := Main.load_model w cfg st size in
  (~ In size (available_model_sizes cfg) ->
   r = (st, Raise (Main.mkHTTP 400
                     (Main.InvalidModelSize (available_model_sizes cfg)))))
  /\ (forall answer,
         snd r = Ok answer ->
         In size (available_model_sizes cfg)
         /\ Main.la_model_size answer = size
         /\ is_model_loaded (fst r) = true
         /\ get_current_model_size (fst r) = Some size)
  /\ (forall e,
         snd r = Raise e ->
         (Main.status_code e = 400%Z /\ ~ In size (available_model_sizes cfg)
          /\ fst r = st)
         \/ (Main.status_code e = 500%Z /\ In size (available_model_sizes cfg)
             /\ fst r = st
             /\ exists cause,
                 snd (load_model w cfg st (Some size)) = Raise cause
                 /\ Main.detail_of e = Main.FailedToLoadModel (str cause))).
Proof.
  intros r. subst r. unfold Main.load_model.
  destruct (existsb (String.eqb size) (available_model_sizes cfg)) eqn:A;
    cbn [negb].
  - assert (I : In size (available_model_sizes cfg)).
    { apply existsb_exists in A as (x & I & E).
      apply String.eqb_eq in E. now subst. }
    pose proof (@load_ok_resident w cfg st (Some size)) as R.
    pose proof (@load_raise_form w cfg st (Some size)) as F.
    destruct (load_model w cfg st (Some size)) as [st1 [rep|e1]];
      cbn [fst snd] in *.
    + split; [contradiction|]. split; [|discriminate].
      intros answer H; injection H as <-.
      destruct (R rep eq_refl) as [R1 R2].
      unfold is_model_loaded, get_current_model_size. auto.
    + split; [contradiction|]. split; [discriminate|].
      intros e H; injection H as <-. right.
      destruct (F e1 eq_refl) as [-> _]. repeat split; try assumption.
      exists e1. auto.
  - assert (N : ~ In size (available_model_sizes cfg)).
    { intros I. apply Bool.not_true_iff_false in A. apply A.
      apply existsb_exists. exists size. split; [exact I|apply String.eqb_refl]. }
    split; [reflexivity|]. split; [discriminate|].
    intros e H; injection H as <-. left. auto.
Qed.

Lemma transcribe_audio_counter w cfg st a :
  _active_transcriptions (fst (transcribe_audio w cfg st a)) =
  _active_transcriptions st.
Proof.
  destruct (_model st) as [h|] eqn:M;
    [|now rewrite (transcribe_audio_unloaded w cfg st a M)].
  destruct (truthy_ostr (a_model_size a)
            && negb (ostr_eqb (a_model_size a) (_model_size st))) eqn:C.
  - rewrite (transcribe_audio_loads_first w cfg st a M C).
    destruct (load_model_touches w cfg st (a_model_size a)) as (K & _).
    destruct (load_model w cfg st (a_model_size a)) as [st1 [r|e]];
      cbn [fst] in *; [|exact K].
    now rewrite run_body_restores.
  - now rewrite (transcribe_audio_direct w cfg st a M C), run_body_restores.
Qed.

(** The function of [POST /transcribe] raises an [HTTPException] of status
    400, 413 or 500 only.  An upload without a file name gives 400 and, the
    ceiling being positive, a declared size above it 413, both before the
    service is called; every exception of the service, whatever its kind,
    gives 500 "Transcription failed".  The active counter is after the call
    what it was before. *)
Lemma transcribe_function_statuses
        (w : World) (h : Main.Host) (cfg : Settings) (st : WhisperService)
        (file : Main.UploadFile) (size lang : option string) (temp : float)
        (tsk : string) :
  let r := Main.transcribe_audio w h cfg st file size lang temp tsk in
  let args :=
    mkArgs (Main.temp_file_path h
              (Filenames.safe_filename (get_default (Main.uf_filename file) "")))
           size lang temp tsk in
  _active_transcriptions (fst r) = _active_transcriptions st
  /\ (truthy_ostr (Main.uf_filename file) = false ->
      r = (st, Raise (Main.mkHTTP 400 Main.NoFileProvided)))
  /\ (forall n,
         truthy_ostr (Main.uf_filename file) = true ->
         Main.uf_size file = Some n ->
         (0 < max_file_size_mb cfg)%Z -> (max_file_size_bytes cfg < n)%Z ->
         r = (st, Raise (Main.mkHTTP 413
                           (Main.FileTooLargeMaximum (max_file_size_mb cfg)))))
  /\ (forall e,
         snd r = Raise e ->
         e = Main.mkHTTP 400 Main.NoFileProvided
         \/ e = Main.mkHTTP 413 (Main.FileTooLargeMaximum (max_file_size_mb cfg))
         \/ e = Main.mkHTTP 500 Main.TranscriptionFailedDetail)
  /\ (forall cause,
         truthy_ostr (Main.uf_filename file) = true ->
         Main.uf_size file = None ->
         Main.store_upload h = Ok tt ->
         snd (transcribe_audio w cfg st args) = Raise cause ->
         snd r = Raise (Main.mkHTTP 500 Main.TranscriptionFailedDetail)).
Proof.
  intros r args. subst r. unfold Main.transcribe_audio. fold args.
  destruct (truthy_ostr (Main.uf_filename file)) eqn:N; cbn [negb].
  2:{ repeat split; try discriminate; auto.
      intros e H; injection H as <-. auto. }
  destruct (match Main.uf_size file with
            | Some n => truthy_int n && (n >? max_file_size_bytes cfg)%Z
            | None => false
            end) eqn:B.
  { repeat split; try discriminate; auto.
    - intros e H; injection H as <-. auto.
    - intros cause _ S. rewrite S in B. discriminate B. }
  assert (G : forall n, Main.uf_size file = Some n ->
                        (0 < max_file_size_mb cfg)%Z ->
                        (max_file_size_bytes cfg < n)%Z -> False).
  { intros n S P L. rewrite S in B. unfold truthy_int, max_file_size_bytes in *.
    destruct (Z.eqb_spec n 0); [lia|].
    destruct (Z.gtb_spec n (max_file_size_mb cfg * 1024 * 1024)); [|lia].
    discriminate B. }
  destruct (Main.store_upload h) as [[]|e0].
  - pose proof (transcribe_audio_counter w cfg st args) as K.
    destruct (transcribe_audio w cfg st args) as [st1 [resp|e1]];
      cbn [fst snd] in *.
    + repeat split; try discriminate; auto.
      intros n _ S P L. destruct (G n S P L).
    + repeat split; try discriminate; auto.
      * intros n _ S P L. destruct (G n S P L).
      * intros e H; injection H as <-. auto.
  - repeat split; try discriminate; auto.
    + intros n _ S P L. destruct (G n S P L).
    + intros e H; injection H as <-. auto.
Qed.



(** Every subclass of [WhisperrrException] builds its exceptions with its
    own code. *)
Lemma constructors_raise_as_their_class :
  (forall m f s, raised_as InvalidAudioFormatC (InvalidAudioFormat m f s))
  /\ (forall m a b, raised_as FileTooLargeC (FileTooLarge m a b))
  /\ (forall m s, raised_as ModelNotLoadedC (ModelNotLoaded m s))
  /\ (forall m o p, raised_as TranscriptionFailedC (TranscriptionFailed m o p))
  /\ (forall m s o, raised_as ModelLoadFailedC (ModelLoadFailed m s o))
  /\ (forall m o p, raised_as AudioProcessingErrorC (AudioProcessingError m o p))
  /\ (forall m o p e, raised_as FileSystemErrorC (FileSystemError m o p e)).
Proof. repeat split. Qed.

(** X18.  [whisperrr_exception_handler] picks a status from its table for
    an exception of every class of exceptions.py, the default of 500 never
    deciding (400 for [InvalidAudioFormat] and [AudioProcessingError], 413
    for [FileTooLarge], 503 for [ModelNotLoaded], 500 for the other three),
    and builds the [ErrorResponse] with the class's code, the exception's
    message and details and the correlation id.  It never answers with it:
    the dict of the [ErrorResponse] holds the [datetime] of its timestamp,
    which [JSONResponse] cannot render, so the handler raises [TypeError];
    [general_exception_handler] does the same for every other exception. *)
Theorem exception_handlers_raise_on_the_timestamp
        (correlation_id : option string) (utcnow : float) (c : exn_class)
        (e : exn) :
  raised_as c e ->
  let response := Main.error_response_of correlation_id utcnow e in
  In (class_code c) (map fst Main.status_code_map)
  /\ Main.status_of e =
     match c with
     | InvalidAudioFormatC | AudioProcessingErrorC => 400%Z
     | FileTooLargeC => 413%Z
     | ModelNotLoadedC => 503%Z
     | TranscriptionFailedC | ModelLoadFailedC | FileSystemErrorC => 500%Z
     end
  /\ Main.er_error_type response = class_code c
  /\ Main.er_message response = str e
  /\ Main.er_details response = details_of e
  /\ Main.er_correlation_id response = correlation_id
  /\ In ("timestamp", Main.ODatetime utcnow) (Main.ErrorResponse_dict response)
  /\ forall e' : exn,
      Main.exception_handler correlation_id utcnow e' =
      Raise (PyException "TypeError"
               "Object of type datetime is not JSON serializable").
Proof.
  intros [K C] response. subst response.
  destruct e as [c' m code dt| |]; try discriminate K.
  cbn in K, C. injection K as ->. subst code.
  split; [destruct c; cbn; auto 10|].
  split; [destruct c; reflexivity|].
  split; [destruct c; reflexivity|].
  split; [reflexivity|]. split; [reflexivity|]. split; [reflexivity|].
  split; [cbn; auto 10|].
  intros e'. unfold Main.exception_handler, Main.JSONResponse,
               Main.ErrorResponse_dict.
  cbn [forallb snd Main.json_serializable].
  destruct (Main.er_correlation_id _); reflexivity.
Qed.

Lemma exception_handlers_raise_on_the_timestamp_witness :
  Main.status_of
    (FileTooLarge FileTooLarge_message (Some 30000000%Z) (Some 26214400%Z)) =
  413%Z
  /\ Main.exception_handler (Some "c0ffee") 1700000000%float
       (FileTooLarge FileTooLarge_message (Some 30000000%Z) (Some 26214400%Z)) =
     Raise (PyException "TypeError"
              "Object of type datetime is not JSON serializable").
Proof.
  pose proof (@exception_handlers_raise_on_the_timestamp
                (Some "c0ffee") 1700000000%float FileTooLargeC
                (FileTooLarge FileTooLarge_message (Some 30000000%Z)
                              (Some 26214400%Z))
                (conj eq_refl eq_refl)) as (_ & S & _ & _ & _ & _ & _ & H).
  split; [exact S|apply H].
Defined.

(** X19.  [GET /health] is consistent in every reachable state: the status
    is "healthy" exactly when a model is loaded, which is exactly when a
    model size is reported, and "degraded" otherwise. *)
Theorem health_reports_the_loaded_model (s : system) (w : World) (now : float) :
  reachable s ->
  let answer := Main.health_check w (svc s) now in
  (Main.h_status answer = "healthy" <-> Main.h_model_loaded answer = true)
  /\ (Main.h_status answer = "degraded" <-> Main.h_model_loaded answer = false)
  /\ (Main.h_model_loaded answer = true <-> Main.h_model_size answer <> None)
  /\ Main.h_model_size answer = _model_size (svc s).
Proof.
  intros R answer. subst answer. apply reachable_consistent in R as [H _ _].
  unfold Main.health_check, is_model_loaded, get_current_model_size.
  cbn [Main.h_status Main.h_model_loaded Main.h_model_size].
  rewrite H.
  destruct (_model_size (svc s)); cbn [is_some]; repeat split;
    intros; try reflexivity; try discriminate; try congruence.
Qed.

Lemma health_reports_the_loaded_model_witness :
  Main.h_status
    (Main.health_check Sample.world
       (svc (run Sample.session (boot 0%float))) 9%float) = "degraded".
Proof.
  apply (@health_reports_the_loaded_model
           (run Sample.session (boot 0%float)) Sample.world 9%float).
  - exists 0%float, Sample.session. reflexivity.
  - reflexivity.
Defined.

(** ** safe_filename *)

Section SafeNames.

Import Filenames.

Variable q : ascii -> bool.

Lemma all_chars_lstrip p s :
  all_chars p s = true -> all_chars p (lstrip_by q s) = true.
Proof.
  induction s as [|c s IH]; cbn [lstrip_by all_chars]; [auto|].
  intros H. apply andb_prop in H as [Hc Hs].
  destruct (q c); [auto|]. cbn [all_chars]. now rewrite Hc, Hs.
Qed.

Lemma all_chars_rstrip p s :
  all_chars p s = true -> all_chars p (rstrip_by q s) = true.
Proof.
  induction s as [|c s IH]; cbn [rstrip_by all_chars]; [auto|].
  intros H. apply andb_prop in H as [Hc Hs]. specialize (IH Hs).
  destruct (rstrip_by q s) as [|d t].
  - destruct (q c); cbn [all_chars]; [reflexivity|now rewrite Hc].
  - cbn [all_chars] in *. now rewrite Hc.
Qed.

Lemma no_double_cons c d t :
  no_double_underscore (String c (String d t)) =
  negb (Ascii.eqb c "_" && Ascii.eqb d "_") && no_double_underscore (String d t).
Proof. reflexivity. Qed.

Lemma no_double_tail c s :
  no_double_underscore (String c s) = true -> no_double_underscore s = true.
Proof.
  destruct s as [|d t]; [reflexivity|].
  cbn [no_double_underscore]. intros H. now apply andb_prop in H as [_ H].
Qed.

Lemma no_double_lstrip s :
  no_double_underscore s = true -> no_double_underscore (lstrip_by q s) = true.
Proof.
  induction s as [|c s IH]; [auto|]. intros H. cbn [lstrip_by].
  destruct (q c); [|exact H]. apply IH. now apply no_double_tail in H.
Qed.

Lemma rstrip_first c s d t :
  rstrip_by q (String c s) = String d t -> d = c.
Proof.
  cbn [rstrip_by]. destruct (rstrip_by q s).
  - destruct (q c); [discriminate|]. now intros H; injection H as <- _.
  - now intros H; injection H as <- _.
Qed.

Lemma rstrip_by_cons c s :
  rstrip_by q (String c s) =
  match rstrip_by q s with
  | EmptyString => if q c then EmptyString else String c EmptyString
  | t => String c t
  end.
Proof. reflexivity. Qed.

Lemma no_double_rstrip s :
  no_double_underscore s = true -> no_double_underscore (rstrip_by q s) = true.
Proof.
  induction s as [|c s IH]; [auto|]. intros H.
  pose proof (IH (no_double_tail _ _ H)) as IH'.
  rewrite rstrip_by_cons.
  destruct (rstrip_by q s) as [|x u] eqn:R.
  - destruct (q c); reflexivity.
  - destruct s as [|y s']; [discriminate R|].
    apply rstrip_first in R as ->.
    rewrite no_double_cons in H |- *.
    apply andb_prop in H as [H1 _]. now rewrite H1, IH'.
Qed.

Lemma lstrip_first s : not_in q (first_char (lstrip_by q s)) = true.
Proof.
  induction s as [|c s IH]; [reflexivity|]. cbn [lstrip_by].
  destruct (q c) eqn:Q; [exact IH|]. cbn. now rewrite Q.
Qed.

Lemma rstrip_keeps_first s :
  not_in q (first_char s) = true ->
  not_in q (first_char (rstrip_by q s)) = true.
Proof.
  destruct (rstrip_by q s) as [|d t] eqn:R; [reflexivity|].
  destruct s as [|c s]; [discriminate R|].
  now apply rstrip_first in R as ->.
Qed.

Lemma rstrip_last s : not_in q (last_char (rstrip_by q s)) = true.
Proof.
  induction s as [|c s IH]; [reflexivity|]. cbn [rstrip_by].
  destruct (rstrip_by q s) as [|d t].
  - destruct (q c) eqn:Q; [reflexivity|]. cbn. now rewrite Q.
  - exact IH.
Qed.

Lemma lstrip_fixed s :
  not_in q (first_char s) = true -> lstrip_by q s = s.
Proof.
  destruct s as [|c s]; [reflexivity|]. cbn.
  now destruct (q c).
Qed.

Lemma rstrip_fixed s :
  not_in q (last_char s) = true -> rstrip_by q s = s.
Proof.
  induction s as [|c s IH]; [reflexivity|].
  destruct s as [|d t].
  - cbn. now destruct (q c).
  - intros H. rewrite rstrip_by_cons, (IH H). reflexivity.
Qed.

End SafeNames.

Section SafeFilename.

Import Filenames.

Lemma sub_unsafe_safe s : all_chars is_safe (sub_unsafe s) = true.
Proof.
  induction s as [|c s IH]; [reflexivity|]. cbn [sub_unsafe all_chars].
  rewrite IH. destruct (is_safe c) eqn:S; [now rewrite S|reflexivity].
Qed.

Lemma sub_unsafe_fixed s : all_chars is_safe s = true -> sub_unsafe s = s.
Proof.
  induction s as [|c s IH]; [reflexivity|]. cbn [sub_unsafe all_chars].
  intros H. apply andb_prop in H as [Hc Hs]. now rewrite Hc, IH.
Qed.

Lemma all_chars_collapse p s :
  all_chars p s = true -> all_chars p (collapse_underscores s) = true.
Proof.
  induction s as [|c s IH]; [auto|]. cbn [collapse_underscores all_chars].
  intros H. apply andb_prop in H as [Hc Hs]. specialize (IH Hs).
  destruct (Ascii.eqb c "_").
  - destruct (collapse_underscores s) as [|d t]; cbn [all_chars] in *;
      [now rewrite Hc|].
    destruct (Ascii.eqb d "_"); cbn [all_chars]; [exact IH|now rewrite Hc].
  - cbn [all_chars]. now rewrite Hc.
Qed.

Lemma collapse_no_double s :
  no_double_underscore (collapse_underscores s) = true.
Proof.
  induction s as [|c s IH]; [reflexivity|]. cbn [collapse_underscores].
  destruct (Ascii.eqb c "_") eqn:C.
  - destruct (collapse_underscores s) as [|d t]; [reflexivity|].
    destruct (Ascii.eqb d "_") eqn:D; [exact IH|].
    rewrite no_double_cons. now rewrite C, D, IH.
  - destruct (collapse_underscores s) as [|d t]; [reflexivity|].
    rewrite no_double_cons. now rewrite C, IH.
Qed.

Lemma collapse_fixed s :
  no_double_underscore s = true -> collapse_underscores s = s.
Proof.
  induction s as [|c s IH]; [reflexivity|]. intros H.
  cbn [collapse_underscores]. rewrite (IH (no_double_tail _ _ H)).
  destruct (Ascii.eqb c "_") eqn:C; [|reflexivity].
  destruct s as [|d t]; [reflexivity|].
  rewrite no_double_cons, C in H.
  destruct (Ascii.eqb d "_"); [discriminate H|reflexivity].
Qed.

Lemma safe_filename_is_safe_name s : is_safe_name (safe_filename s) = true.
Proof.
  unfold safe_filename.
  set (t := strip_by underscore_or_dot (collapse_underscores (sub_unsafe s))).
  destruct (truthy_str t) eqn:T; [|reflexivity].
  unfold is_safe_name. rewrite T. subst t. unfold strip_by.
  rewrite all_chars_rstrip
    by (apply all_chars_lstrip, all_chars_collapse, sub_unsafe_safe).
  rewrite no_double_rstrip by (apply no_double_lstrip, collapse_no_double).
  rewrite rstrip_keeps_first by apply lstrip_first.
  now rewrite rstrip_last.
Qed.

Lemma safe_name_is_fixed s : is_safe_name s = true -> safe_filename s = s.
Proof.
  unfold is_safe_name. intros H.
  apply andb_prop in H as [H L]. apply andb_prop in H as [H F].
  apply andb_prop in H as [H D]. apply andb_prop in H as [T A].
  unfold safe_filename, strip_by.
  rewrite (sub_unsafe_fixed _ A), (collapse_fixed _ D),
    (lstrip_fixed _ _ F), (rstrip_fixed _ _ L).
  now rewrite T.
Qed.

Lemma all_chars_weaken (p p' : ascii -> bool) s :
  (forall c, p c = true -> p' c = true) ->
  all_chars p s = true -> all_chars p' s = true.
Proof.
  intros W. induction s as [|c s IH]; [auto|]. cbn [all_chars].
  intros H. apply andb_prop in H as [Hc Hs]. now rewrite (W c Hc), IH.
Qed.

End SafeFilename.

(** X20.  [safe_filename] always returns a usable name: it is not empty, it
    is made of word characters, hyphens, underscores and dots only, so it
    holds no path separator, no blank and no NUL, it has no run of
    underscores, and it neither starts nor ends with an underscore or a
    dot. *)
Theorem safe_filename_is_safe (filename : string) :
  let name := Filenames.safe_filename filename in
  name <> ""
  /\ Filenames.all_chars Filenames.is_safe name = true
  /\ Filenames.all_chars
       (fun c => negb (Ascii.eqb c "/" || Ascii.eqb c "\" || Ascii.eqb c " "
                       || Ascii.eqb c "000")) name = true
  /\ Filenames.no_double_underscore name = true
  /\ Filenames.not_in Filenames.underscore_or_dot (Filenames.first_char name)
     = true
  /\ Filenames.not_in Filenames.underscore_or_dot (Filenames.last_char name)
     = true.
Proof.
  intros name. pose proof (safe_filename_is_safe_name filename) as H.
  fold name in H. unfold Filenames.is_safe_name in H.
  apply andb_prop in H as [H L]. apply andb_prop in H as [H F].
  apply andb_prop in H as [H D]. apply andb_prop in H as [T A].
  repeat split; try assumption.
  - intros E. rewrite E in T. discriminate T.
  - revert A. apply all_chars_weaken. intros c S.
    destruct (Ascii.eqb_spec c "/") as [->|_]; [discriminate S|].
    destruct (Ascii.eqb_spec c "\") as [->|_]; [discriminate S|].
    destruct (Ascii.eqb_spec c " ") as [->|_]; [discriminate S|].
    destruct (Ascii.eqb_spec c "000") as [->|_]; [discriminate S|].
    reflexivity.
Qed.

(** X21.  [safe_filename] is idempotent, and the names it leaves unchanged
    are exactly the names it can return. *)
Theorem safe_filename_is_idempotent (filename : string) :
  Filenames.safe_filename (Filenames.safe_filename filename) =
  Filenames.safe_filename filename
  /\ (Filenames.safe_filename filename = filename <->
      Filenames.is_safe_name filename = true).
Proof.
  split.
  - apply safe_name_is_fixed, safe_filename_is_safe_name.
  - split.
    + intros E. rewrite <- E. apply safe_filename_is_safe_name.
    + apply safe_name_is_fixed.
Qed.

(** ** get_file_extension *)

Section Extensions.

Import Filenames.

Local Open Scope string_scope.

Lemma lower_ascii_twice c : lower_ascii (lower_ascii c) = lower_ascii c.
Proof.
  destruct c as [[] [] [] [] [] [] [] []]; reflexivity.
Qed.

Lemma lower_ascii_dot c : Ascii.eqb (lower_ascii c) "." = Ascii.eqb c ".".
Proof.
  destruct c as [[] [] [] [] [] [] [] []]; reflexivity.
Qed.

Lemma lower_ascii_slash c : Ascii.eqb (lower_ascii c) "/" = Ascii.eqb c "/".
Proof.
  destruct c as [[] [] [] [] [] [] [] []]; reflexivity.
Qed.

Lemma lower_twice s : lower (lower s) = lower s.
Proof.
  induction s as [|c s IH]; [reflexivity|]. cbn [lower].
  now rewrite lower_ascii_twice, IH.
Qed.

Lemma lower_app a b : lower (a ++ b) = lower a ++ lower b.
Proof.
  induction a as [|c a IH]; [reflexivity|]. cbn. now rewrite IH.
Qed.

Lemma lower_length s : String.length (lower s) = String.length s.
Proof.
  induction s as [|c s IH]; [reflexivity|]. cbn. now rewrite IH.
Qed.

Lemma lower_empty s : (lower s =? "") = (s =? "").
Proof. destruct s; reflexivity. Qed.

Lemma lower_is_dot s : (lower s =? ".") = (s =? ".").
Proof.
  destruct s as [|c s]; [reflexivity|]. cbn [lower].
  cbn [String.eqb]. rewrite lower_ascii_dot.
  destruct (Ascii.eqb c "."); [|reflexivity]. apply lower_empty.
Qed.

Lemma lower_substring n m s :
  substring n m (lower s) = lower (substring n m s).
Proof.
  revert n m. induction s as [|c s IH]; intros [|n] [|m]; cbn;
    try reflexivity; now rewrite ?IH.
Qed.

Lemma lower_rfind_dot s : rfind "." (lower s) = rfind "." s.
Proof.
  induction s as [|c s IH]; [reflexivity|]. cbn [lower rfind].
  now rewrite IH, lower_ascii_dot.
Qed.

Lemma lower_lstrip_dot s :
  lstrip_char "." (lower s) = lower (lstrip_char "." s).
Proof.
  induction s as [|c s IH]; [reflexivity|]. cbn [lower lstrip_char].
  rewrite lower_ascii_dot. destruct (Ascii.eqb c "."); [exact IH|reflexivity].
Qed.

Lemma lower_path_name_aux s :
  forall cur last,
    path_name_aux (lower cur) (lower last) (lower s) =
    lower (path_name_aux cur last s).
Proof.
  assert (K : forall c l,
             (if (lower c =? "") || (lower c =? ".") then lower l else lower c)
             = lower (if (c =? "") || (c =? ".") then l else c)).
  { intros c l. rewrite lower_empty, lower_is_dot.
    now destruct ((c =? "") || (c =? ".")). }
  induction s as [|a s IH]; intros cur last; cbn [lower path_name_aux].
  - apply K.
  - rewrite lower_ascii_slash. destruct (Ascii.eqb a "/").
    + rewrite K. apply (IH "").
    + rewrite <- IH, lower_app. reflexivity.
Qed.

Lemma lower_path_suffix s : path_suffix (lower s) = lower (path_suffix s).
Proof.
  unfold path_suffix, path_name.
  change (path_name_aux "" "" (lower s))
    with (path_name_aux (lower "") (lower "") (lower s)).
  rewrite (lower_path_name_aux s "" "").
  rewrite lower_rfind_dot, lower_length.
  destruct (rfind "." (path_name_aux "" "" s)) as [i|]; [|reflexivity].
  destruct ((0 <? i)%nat && _); [|reflexivity].
  apply lower_substring.
Qed.

Lemma extension_is_lower s : lower (get_file_extension s) = get_file_extension s.
Proof.
  unfold get_file_extension. now rewrite <- lower_lstrip_dot, lower_twice.
Qed.

Lemma extension_of_lower s : get_file_extension (lower s) = get_file_extension s.
Proof.
  unfold get_file_extension. now rewrite lower_path_suffix, lower_twice.
Qed.

End Extensions.

(** [str.lower] and [str.strip] beyond ASCII: the capital E with acute
    accent is lowered, and the next-line character U+0085 is white space. *)
Example lower_beyond_ascii :
  lower (bytes_of [97; 46; 77; 201]) = bytes_of [97; 46; 109; 233].
Proof. reflexivity. Qed.

Example strip_beyond_ascii : strip (bytes_of [32; 97; 133; 160]) = "a".
Proof. reflexivity. Qed.

(** X22.  The format check does not depend on letter case, for names of
    code points up to U+00FF: the extension [get_file_extension] returns is
    in lower case, and a path and its lower-case spelling have the same
    extension, so [validate_file_format] gives the same verdict for
    "TALK.WAV" and "talk.wav". *)
Theorem extension_ignores_case (cfg : Settings) (filename : string) :
  lower (get_file_extension filename) = get_file_extension filename
  /\ get_file_extension (lower filename) = get_file_extension filename
  /\ validate_file_format cfg (lower filename) =
     validate_file_format cfg filename.
Proof.
  split; [apply extension_is_lower|]. split; [apply extension_of_lower|].
  unfold validate_file_format. now rewrite extension_of_lower.
Qed.

Section DottedNames.

Import Filenames.

Local Open Scope string_scope.

Lemma no_char_app c a b : no_char c (a ++ b) = no_char c a && no_char c b.
Proof.
  unfold no_char. induction a as [|x a IH]; [reflexivity|].
  cbn [append all_chars]. now rewrite IH, andb_assoc.
Qed.

Lemma append_length a b :
  String.length (a ++ b) = (String.length a + String.length b)%nat.
Proof. induction a as [|x a IH]; [reflexivity|]. cbn. now rewrite IH. Qed.

Lemma append_assoc a b c : (a ++ b) ++ c = a ++ (b ++ c).
Proof. induction a as [|x a IH]; [reflexivity|]. cbn. now rewrite IH. Qed.

Lemma append_empty a : a ++ "" = a.
Proof. induction a as [|x a IH]; [reflexivity|]. cbn. now rewrite IH. Qed.

Lemma path_name_aux_no_slash s :
  no_char "/" s = true ->
  forall cur last,
    path_name_aux cur last s =
    if ((cur ++ s) =? "") || ((cur ++ s) =? ".") then last else cur ++ s.
Proof.
  induction s as [|a s IH]; intros N cur last; cbn [path_name_aux].
  - now rewrite append_empty.
  - unfold no_char in N. cbn [all_chars] in N.
    apply andb_prop in N as [Na Ns]. apply negb_true_iff in Na.
    rewrite Na, (IH Ns), append_assoc. reflexivity.
Qed.

Lemma path_name_aux_after_slash d s :
  forall cur last,
    exists last', path_name_aux cur last (d ++ String "/" s) =
                  path_name_aux "" last' s.
Proof.
  induction d as [|a d IH]; intros cur last; cbn [append path_name_aux].
  - eexists. reflexivity.
  - destruct (Ascii.eqb a "/"); apply IH.
Qed.

Lemma path_name_of_last dir name :
  dir = "" \/ (exists d, dir = d ++ "/") ->
  no_char "/" name = true -> name <> "" -> name <> "." ->
  path_name (dir ++ name) = name.
Proof.
  intros D N E1 E2. unfold path_name.
  assert (K : forall last, path_name_aux "" last name = name).
  { intros last. rewrite (@path_name_aux_no_slash name N). cbn [append].
    destruct (String.eqb_spec name ""); [contradiction|].
    destruct (String.eqb_spec name "."); [contradiction|]. reflexivity. }
  destruct D as [->|(d & ->)]; [apply K|].
  rewrite append_assoc. cbn [append].
  destruct (path_name_aux_after_slash d name "" "") as (last' & ->). apply K.
Qed.

Lemma rfind_absent c s : no_char c s = true -> rfind c s = None.
Proof.
  unfold no_char. induction s as [|x s IH]; [reflexivity|].
  cbn [all_chars rfind]. intros H. apply andb_prop in H as [Hx Hs].
  apply negb_true_iff in Hx. now rewrite (IH Hs), Hx.
Qed.

Lemma rfind_last c a b :
  no_char c b = true -> rfind c (a ++ String c b) = Some (String.length a).
Proof.
  intros N. induction a as [|x a IH]; cbn [append rfind String.length].
  - now rewrite (@rfind_absent c b N), Ascii.eqb_refl.
  - now rewrite IH.
Qed.

Lemma substring_all b : substring 0 (String.length b) b = b.
Proof. induction b as [|x b IH]; [reflexivity|]. cbn. now rewrite IH. Qed.

Lemma substring_suffix a b :
  substring (String.length a) (String.length b) (a ++ b) = b.
Proof.
  induction a as [|x a IH]; [apply substring_all|]. exact IH.
Qed.

Lemma lstrip_dot_absent s :
  no_char "." s = true -> lstrip_char "." (lower s) = lower s.
Proof.
  destruct s as [|x s]; [reflexivity|]. unfold no_char. cbn [all_chars].
  intros H. apply andb_prop in H as [Hx _]. apply negb_true_iff in Hx.
  cbn [lower lstrip_char]. now rewrite lower_ascii_dot, Hx.
Qed.

(** The extension of [dir/stem.ext]. *)
Lemma extension_of_dotted dir stem ext :
  dir = "" \/ (exists d, dir = d ++ "/") ->
  stem <> "" -> no_char "/" stem = true ->
  ext <> "" -> no_char "/" ext = true -> no_char "." ext = true ->
  get_file_extension (dir ++ stem ++ "." ++ ext) = lower ext.
Proof.
  intros D Hs Ns E Ne Nd. unfold get_file_extension, path_suffix.
  assert (Nn : no_char "/" (stem ++ "." ++ ext) = true).
  { rewrite !no_char_app, Ns, Ne. reflexivity. }
  assert (L : String.length (stem ++ "." ++ ext)
              = (String.length stem + S (String.length ext))%nat).
  { rewrite !append_length. reflexivity. }
  rewrite (@path_name_of_last dir (stem ++ "." ++ ext) D Nn).
  - change (stem ++ "." ++ ext) with (stem ++ String "." ext) at 1.
    rewrite (@rfind_last "." stem ext Nd), L.
    assert (P1 : (0 <? String.length stem)%nat = true).
    { destruct stem; [contradiction|reflexivity]. }
    assert (P2 : (String.length stem
                  <? String.length stem + S (String.length ext) - 1)%nat = true).
    { destruct ext; [contradiction|]. apply Nat.ltb_lt. cbn. lia. }
    rewrite P1, P2. cbn [andb].
    replace (String.length stem + S (String.length ext) - String.length stem)%nat
      with (String.length ("." ++ ext)) by (cbn; lia).
    rewrite substring_suffix. cbn [append lower lstrip_char].
    change (Ascii.eqb (lower_ascii ".") ".") with true. cbn iota.
    now apply lstrip_dot_absent.
  - destruct stem; [contradiction|discriminate].
  - destruct stem as [|x [|y t]]; [contradiction| |discriminate].
    destruct ext; [contradiction|discriminate].
Qed.

End DottedNames.

Section TempFiles.

Import Filenames.

Local Open Scope string_scope.

Lemma ends_with_slash s :
  (slice (String.length s - 1) (String.length s) s =? "/") = true ->
  exists d, s = d ++ "/".
Proof.
  unfold slice. induction s as [|a t IH]; [discriminate|].
  cbn [String.length].
  replace (S (String.length t) - 1)%nat with (String.length t) by lia.
  replace (S (String.length t) - String.length t)%nat with 1%nat by lia.
  destruct t as [|b t'].
  - cbn. destruct (Ascii.eqb_spec a "/") as [->|]; [|discriminate].
    intros _. now exists "".
  - cbn [String.length]. cbn [substring]. intros H.
    destruct IH as (d & ->).
    + cbn [String.length].
      replace (S (String.length t') - 1)%nat with (String.length t') by lia.
      replace (S (String.length t') - String.length t')%nat with 1%nat by lia.
      exact H.
    + now exists (String a d).
Qed.

(** Where [create_temp_file] puts the file it names. *)
Lemma create_temp_file_path w cfg suffix path name :
  create_temp_file w cfg suffix = Ok (path, name) ->
  exists dir, (dir = "" \/ (exists d, dir = d ++ "/")) /\ path = dir ++ name.
Proof.
  unfold create_temp_file.
  destruct (os_makedirs w (upload_dir cfg)); [|discriminate].
  intros H; injection H as <- <-.
  destruct (String.eqb_spec (upload_dir cfg) "") as [E|E].
  - exists "". auto.
  - destruct (slice _ _ (upload_dir cfg) =? "/") eqn:Sl.
    + exists (upload_dir cfg). split; [right; now apply ends_with_slash|reflexivity].
    + exists (upload_dir cfg ++ "/"). split; [right; eauto|].
      now rewrite append_assoc.
Qed.

End TempFiles.

(** X23.  The file [preprocess_audio] writes is a ".wav" file of the upload
    directory: whenever preprocessing succeeds (the UUID holding no slash),
    the path it returns is named [whisperrr_<uuid>.wav], its extension for
    the service is "wav", and it passes the format check of every
    configuration that supports "wav". *)
Theorem preprocessed_file_is_wav
        (w : World) (cfg : Settings) (p out : string) :
  Filenames.no_char "/" (uuid4 w) = true ->
  preprocess_audio w cfg p = Ok out ->
  path_name out = ("whisperrr_" ++ uuid4 w ++ ".wav")%string
  /\ get_file_extension out = "wav"
  /\ (In "wav" (supported_formats cfg) -> validate_file_format cfg out = true).
Proof.
  intros U P.
  assert (C : exists name, create_temp_file w cfg (Some "wav") = Ok (out, name)).
  { revert P. unfold preprocess_audio.
    destruct (get_audio_info w p); cbn [bind]; [|discriminate].
    destruct (librosa_load w p); cbn [bind]; [|discriminate].
    destruct (create_temp_file w cfg (Some "wav")) as [[path name]|];
      cbn [bind fst]; [|discriminate].
    destruct (sf_write w path); cbn [bind]; [|discriminate].
    intros H; injection H as <-. now exists name. }
  destruct C as (name & C).
  assert (N : name = ("whisperrr_" ++ uuid4 w ++ ".wav")%string).
  { revert C. unfold create_temp_file.
    destruct (os_makedirs w (upload_dir cfg)); [|discriminate].
    now intros H; injection H as _ <-. }
  destruct (create_temp_file_path _ _ _ C) as (dir & D & ->). subst name.
  assert (S1 : Filenames.no_char "/" ("whisperrr_" ++ uuid4 w)%string = true).
  { rewrite no_char_app, U. reflexivity. }
  assert (E : get_file_extension
                (dir ++ ("whisperrr_" ++ uuid4 w) ++ "." ++ "wav")%string = "wav").
  { apply (@extension_of_dotted dir ("whisperrr_" ++ uuid4 w)%string "wav");
      try reflexivity; try assumption; discriminate. }
  rewrite append_assoc in E. cbn [append] in E |- *.
  split; [|split].
  - apply path_name_of_last; try assumption; try discriminate.
    change (String "w" (String "h" (String "i" (String "s" (String "p"
             (String "e" (String "r" (String "r" (String "r" (String "_"
               (uuid4 w ++ ".wav")))))))))))%string
      with (("whisperrr_" ++ uuid4 w) ++ ".wav")%string at 1.
    rewrite no_char_app, S1. reflexivity.
  - exact E.
  - intros I. unfold validate_file_format, supported_formats_set.
    rewrite E. apply existsb_exists. exists "wav". split; [exact I|reflexivity].
Qed.

Lemma preprocessed_file_is_wav_witness :
  get_file_extension
    "/tmp/whisperrr_uploads/whisperrr_00000000-0000-4000-8000-000000000000.wav"
  = "wav".
Proof.
  apply (@preprocessed_file_is_wav Sample.world default_settings "/tmp/a.wav"
           "/tmp/whisperrr_uploads/whisperrr_00000000-0000-4000-8000-000000000000.wav");
    reflexivity.
Defined.

Section LastPart.

Import Filenames.

Local Open Scope string_scope.

Variable c : ascii.

Lemma split_on_not_nil s : split_on c s <> [].
Proof.
  destruct s as [|a s]; cbn [split_on]; [discriminate|].
  destruct (Ascii.eqb a c); [discriminate|].
  destruct (split_on c s); discriminate.
Qed.

Lemma last_cons (x : string) l d : l <> [] -> last (x :: l) d = last l d.
Proof. destruct l; [contradiction|reflexivity]. Qed.

(** The last part, character by character. *)
Lemma last_part_cons a s :
  last (split_on c (String a s)) "" =
  if Ascii.eqb a c then last (split_on c s) ""
  else match split_on c s with
       | [h] => String a h
       | _ => last (split_on c s) ""
       end.
Proof.
  cbn [split_on]. destruct (Ascii.eqb a c).
  - apply last_cons, split_on_not_nil.
  - pose proof (split_on_not_nil s) as N.
    destruct (split_on c s) as [|h [|h' t]]; [contradiction|reflexivity|].
    reflexivity.
Qed.

Lemma last_part_single s h : split_on c s = [h] -> last (split_on c s) "" = h.
Proof. now intros ->. Qed.

Lemma last_part_chars p s :
  all_chars p s = true -> all_chars p (last (split_on c s) "") = true.
Proof.
  induction s as [|a s IH]; [reflexivity|]. intros H.
  cbn [all_chars] in H. apply andb_prop in H as [Ha Hs].
  rewrite last_part_cons. destruct (Ascii.eqb a c); [now apply IH|].
  destruct (split_on c s) as [|h [|h' t]] eqn:E; try now apply IH.
  specialize (IH Hs). cbn [last] in IH. cbn [all_chars]. now rewrite Ha, IH.
Qed.

Lemma last_part_no_separator s : no_char c (last (split_on c s) "") = true.
Proof.
  induction s as [|a s IH]; [reflexivity|].
  rewrite last_part_cons. destruct (Ascii.eqb a c) eqn:A; [exact IH|].
  destruct (split_on c s) as [|h [|h' t]] eqn:E; try exact IH.
  cbn [last] in IH. unfold no_char in *. cbn [all_chars]. now rewrite A, IH.
Qed.

Lemma last_part_not_empty s :
  s <> "" -> not_in (fun x => Ascii.eqb x c) (last_char s) = true ->
  last (split_on c s) "" <> "".
Proof.
  induction s as [|a s IH]; [contradiction|]. intros _ L.
  rewrite last_part_cons.
  destruct s as [|b s'].
  - cbn in L |- *. apply negb_true_iff in L. rewrite L. discriminate.
  - assert (IH' : last (split_on c (String b s')) "" <> "")
      by (apply IH; [discriminate|exact L]).
    destruct (Ascii.eqb a c); [exact IH'|].
    destruct (split_on c (String b s')) as [|h [|h' t]]; try exact IH'.
    discriminate.
Qed.

Lemma last_part_whole s :
  no_char c s = true -> last (split_on c s) "" = s.
Proof.
  assert (W : forall s, no_char c s = true -> split_on c s = [s]).
  { induction s0 as [|a s0 IH]; [reflexivity|]. unfold no_char.
    cbn [all_chars split_on]. intros H. apply andb_prop in H as [Ha Hs].
    apply negb_true_iff in Ha. now rewrite Ha, (IH Hs). }
  intros N. now rewrite (W s N).
Qed.

End LastPart.

Lemma not_in_weaken (p p' : ascii -> bool) o :
  (forall x, p' x = true -> p x = true) ->
  Filenames.not_in p o = true -> Filenames.not_in p' o = true.
Proof.
  intros W. destruct o as [x|]; [|reflexivity]. cbn.
  intros H. apply negb_true_iff in H. apply negb_true_iff.
  destruct (p' x) eqn:P; [|reflexivity]. rewrite (W x P) in H. discriminate H.
Qed.

(** X24.  Whether an upload is of a supported format is decided by its file
    name alone, for names of code points up to U+00FF: the temporary copy
    the endpoint hands to the service has for extension the part of the
    sanitised name after its last dot, lowered as [str.lower] does, and the
    whole sanitised name when it has no dot, so a name without an extension
    never passes unless it is itself the name of a format. *)
Theorem upload_extension_decides_the_format
        (h : Main.Host) (cfg : Settings) (filename dir stem : string) :
  Main.temp_prefix h = (dir ++ stem)%string ->
  dir = "" \/ (exists d, dir = (d ++ "/")%string) ->
  stem <> "" ->
  Filenames.no_char "/" stem = true ->
  let safe_name := Filenames.safe_filename filename in
  let part := last (Filenames.split_on "." safe_name) "" in
  let path := Main.temp_file_path h safe_name in
  get_file_extension path = lower part
  /\ validate_file_format cfg path =
     existsb (String.eqb (lower part)) (supported_formats cfg)
  /\ part <> ""
  /\ (Filenames.no_char "." safe_name = true -> part = safe_name).
Proof.
  intros P D Hs Ns safe_name part path.
  pose proof (safe_filename_is_safe_name filename) as Sn.
  fold safe_name in Sn. unfold Filenames.is_safe_name in Sn.
  apply andb_prop in Sn as [Sn L]. apply andb_prop in Sn as [Sn _].
  apply andb_prop in Sn as [Sn _]. apply andb_prop in Sn as [T A].
  assert (E : get_file_extension path = lower part).
  { subst path. unfold Main.temp_file_path. rewrite P. fold part.
    rewrite append_assoc.
    apply extension_of_dotted; try assumption.
    - subst part. apply last_part_not_empty.
      + intros Z. rewrite Z in T. discriminate T.
      + revert L. apply not_in_weaken. intros x X.
        unfold Filenames.underscore_or_dot. rewrite X. apply orb_true_r.
    - subst part. unfold Filenames.no_char. apply last_part_chars.
      revert A. apply all_chars_weaken. intros x X.
      destruct (Ascii.eqb_spec x "/") as [->|_]; [discriminate X|reflexivity].
    - subst part. apply last_part_no_separator. }
  split; [exact E|]. split; [|split].
  - unfold validate_file_format, supported_formats_set. now rewrite E.
  - subst part. apply last_part_not_empty.
    + intros Z. rewrite Z in T. discriminate T.
    + revert L. apply not_in_weaken. intros x X.
      unfold Filenames.underscore_or_dot. rewrite X. apply orb_true_r.
  - subst part. apply last_part_whole.
Qed.

Lemma upload_extension_decides_the_format_witness :
  get_file_extension
    (Main.temp_file_path Cases.host (Filenames.safe_filename "My Talk.WAV")) =
  "wav".
Proof.
  apply (@upload_extension_decides_the_format Cases.host default_settings
           "My Talk.WAV" "/tmp/" "tmpk3x9q2ab").
  - reflexivity.
  - right. now exists "/tmp".
  - discriminate.
  - reflexivity.
Defined.
